(** * swift-udpipe: the C bridge of UDPipe (Sources/UDPipeCLib/udpipe_wrapper.cpp)

    A shallow embedding of the bridge layer: the [StringArena] bump
    allocator, the structured tagging and tokenizing entry points, the
    release operations, the parallel batch scheduler, the CoNLL-U entry
    point and the version string, together with the properties its
    specification states about them and further ones the code has.

    Conventions of the embedding.
    - [size_t] values are [nat]: every sum the code forms is bounded by
      the size of an object that lives in memory, so no sum wraps.
    - [int] values ([id], [head], return codes) are [Z]; they are only
      copied and compared with 0.
    - [std::malloc] may fail at any call.  Its answers are drawn from an
      [oracle], a list of booleans consumed one per call; an exhausted
      oracle answers "success".
    - Undefined behaviour (a write outside a block, [free] of a pointer
      that [malloc] did not return, a double free) is a fault: the
      embedded function returns [None].
    - [operator new] ([new StringArena()], the storage of the local
      vectors) does not return null; its failure is an exception and is
      left out.
    - The calls into the engine overwrite their out-parameters [s] and
      [error], as UDPipe's do; they are functions of their inputs.
    - Fields of C structures carry a prefix ([tok_id], [doc_count]),
      since [id], [count] and the like are taken. *)

From Stdlib Require Import ZArith Lia Ascii String.
From stdpp Require Import base option list gmap strings pretty.

Local Open Scope nat_scope.

(** ** Strings as the C side sees them *)

(** [s.c_str()] with its terminator: [s.length() + 1] bytes. *)
Definition c_str (s : string) : list ascii :=
  list_ascii_of_string s ++ [zero].

(** What a reader of a null-terminated string sees of the [std::string]
    [s]: its bytes up to the first NUL. *)
Fixpoint until_nul (s : string) : string :=
  match s with
  | EmptyString => EmptyString
  | String c s' => if Ascii.eqb c zero then EmptyString else String c (until_nul s')
  end.

(** ** StringArena (udpipe_wrapper.cpp, lines 16-70) *)

Definition DEFAULT_BLOCK_SIZE : nat := 8 * 1024.

(** [sizeof(void* )] on the 64-bit targets of the package. *)
Definition sizeof_ptr : nat := 8.

(** A block returned by [malloc]: its bytes, [None] while uninitialised. *)
Abbreviation block := (list (option ascii)).

(** The fields of [class StringArena].  A block pointer ([char*] in
    [blocks_] and [current_block_]) is the position of the block in
    [blocks_]; [current_block_ = None] is [nullptr]. *)
Record StringArena := mkStringArena {
  blocks_ : list block;
  current_block_ : option nat;
  current_offset_ : nat;
  block_size_ : nat
}.

(** [StringArena(size_t block_size = DEFAULT_BLOCK_SIZE)] *)
Definition new_StringArena (block_size : nat) : StringArena :=
  mkStringArena [] None 0 block_size.

(** The [char*] values [allocate] can produce: a null pointer, the
    function-local [static char empty_str[] = ""], or an address inside
    a block of the arena. *)
Inductive char_ptr :=
| null_ptr
| empty_str
| block_ptr (b off : nat).

Abbreviation oracle := (list bool).

(** The answer of the next [std::malloc] call. *)
Definition malloc_succeeds (o : oracle) : bool * oracle :=
  match o with
  | [] => (true, [])
  | ok :: o' => (ok, o')
  end.

(** [std::memcpy(dst + off, src, length src)]; outside the block it is
    undefined. *)
Definition memcpy (dst : block) (off : nat) (src : list ascii) : option block :=
  if decide (off + length src ≤ length dst)
  then Some (take off dst ++ (Some <$> src) ++ drop (off + length src) dst)
  else None.

(** Lines 43-45: round the cursor up to pointer alignment. *)
Definition align_up (off : nat) : nat :=
  if off mod sizeof_ptr =? 0 then off
  else off + (sizeof_ptr - off mod sizeof_ptr).

(** The test of line 47, on the aligned cursor. *)
Definition needs_new_block (s : string) (a : StringArena) : bool :=
  bool_decide (current_block_ a = None)
  || (block_size_ a <? align_up (current_offset_ a) + (String.length s + 1)).

(** Lines 60-63: copy [s] at the cursor of the current block and advance. *)
Definition store_string (s : string) (a : StringArena) : option (char_ptr * StringArena) :=
  b ← current_block_ a;
  blk ← blocks_ a !! b;
  blk' ← memcpy blk (current_offset_ a) (c_str s);
  Some (block_ptr b (current_offset_ a),
        mkStringArena (<[b := blk']> (blocks_ a)) (Some b)
                      (current_offset_ a + (String.length s + 1)) (block_size_ a)).

(** [char* allocate(const std::string& s)], lines 39-64. *)
Definition allocate (s : string) (a : StringArena) (o : oracle)
  : option (char_ptr * StringArena * oracle) :=
  let required := String.length s + 1 in
  let a := mkStringArena (blocks_ a) (current_block_ a)
                         (align_up (current_offset_ a)) (block_size_ a) in
  if bool_decide (current_block_ a = None)
     || (block_size_ a <? current_offset_ a + required)
  then
    let new_block_size := Nat.max (block_size_ a) required in
    let '(ok, o) := malloc_succeeds o in
    if ok then
      r ← store_string s
            (mkStringArena (blocks_ a ++ [replicate new_block_size None])
                           (Some (length (blocks_ a))) 0 new_block_size);
      Some (r, o)
    else
      Some (empty_str,
            mkStringArena (blocks_ a) None (current_offset_ a) (block_size_ a), o)
  else
    r ← store_string s a;
    Some (r, o).

(** [char* allocate_empty()], lines 67-69. *)
Definition allocate_empty (a : StringArena) (o : oracle) :=
  allocate EmptyString a o.

(** A run of calls on one arena, in order. *)
Fixpoint allocate_all (ss : list string) (a : StringArena) (o : oracle)
  : option (list char_ptr * StringArena * oracle) :=
  match ss with
  | [] => Some ([], a, o)
  | s :: ss' =>
      '(p, a, o) ← allocate s a o;
      '(ps, a, o) ← allocate_all ss' a o;
      Some (p :: ps, a, o)
  end.

(** Reading through a pointer. *)
Definition read_byte (a : StringArena) (p : char_ptr) (i : nat) : option ascii :=
  match p with
  | null_ptr => None
  | empty_str => if i =? 0 then Some zero else None
  | block_ptr b off => blk ← blocks_ a !! b; c ← blk !! (off + i); c
  end.

Fixpoint cstr_of_cells (cells : list (option ascii)) : option string :=
  match cells with
  | Some c :: rest =>
      if Ascii.eqb c zero then Some EmptyString
      else String c <$> cstr_of_cells rest
  | _ => None
  end.

(** The null-terminated string at [p]; [None] when the read would leave
    the block or meet an uninitialised byte first. *)
Definition read_cstr (a : StringArena) (p : char_ptr) : option string :=
  match p with
  | null_ptr => None
  | empty_str => Some EmptyString
  | block_ptr b off => blk ← blocks_ a !! b; cstr_of_cells (drop off blk)
  end.

(** Size of the block [current_block_] points to. *)
Definition current_block_length (a : StringArena) : option nat :=
  b ← current_block_ a; blk ← blocks_ a !! b; Some (length blk).

(** *** Invariants of the arena *)

(** The current block, when there is one, has [block_size_] bytes and
    nothing has been written at or after the cursor. *)
Definition arena_wf (a : StringArena) : Prop :=
  ∀ b, current_block_ a = Some b →
    ∃ blk, blocks_ a !! b = Some blk ∧ length blk = block_size_ a
      ∧ ∀ i, current_offset_ a ≤ i → i < length blk → blk !! i = Some None.

(** [blk'] is [blk] with more bytes initialised: same size, and every
    byte that was written keeps its value. *)
Definition block_extends (blk blk' : block) : Prop :=
  length blk' = length blk
  ∧ ∀ i c, blk !! i = Some (Some c) → blk' !! i = Some (Some c).

(** Append-only growth: every block of [a] is still in place in [a']. *)
Definition arena_extends (a a' : StringArena) : Prop :=
  ∀ b blk, blocks_ a !! b = Some blk →
    ∃ blk', blocks_ a' !! b = Some blk' ∧ block_extends blk blk'.

(** ** The engine (ufal::udpipe, an external collaborator)

    The bridge sees the engine through [model::new_tokenizer],
    [input_format::next_sentence], [model::tag], [model::parse] and the
    fields of [word].  These are parameters of the embedding. *)

Record word := mkWord {
  word_id : Z;
  word_head : Z;
  word_form : string;
  word_lemma : string;
  word_upostag : string;
  word_xpostag : string;
  word_feats : string;
  word_deprel : string;
  (** [get_token_range(start, end)]: [None] when it returns false *)
  word_token_range : option (nat * nat)
}.

Record sentence := mkSentence { words : list word }.

(** What a reader does on one text after [set_text]: the calls of
    [next_sentence] that returned true, each with the sentence and the
    error string it left, then the error string left by the call that
    returned false. *)
Record reader_run := mkReaderRun {
  yields : list (sentence * string);
  final_error : string
}.

(** [tag] and [parse] rewrite the sentence in place and write [error];
    they return (ok, sentence, error).  [new_tokenizer] returns null
    ([None]) when the model has no tokenizer for the options. *)
Record model := mkModel {
  new_tokenizer : string → option (string → reader_run);
  tag : sentence → bool * sentence * string;
  parse : sentence → bool * sentence * string
}.

(** ** The C structures of udpipe_wrapper.h *)

Record udpipe_token := mkToken {
  tok_id : Z;
  tok_head : Z;
  tok_form : char_ptr;
  tok_lemma : char_ptr;
  tok_upos : char_ptr;
  tok_xpostag : char_ptr;
  tok_feats : char_ptr;
  tok_deprel : char_ptr;
  tok_start : nat;
  tok_end : nat
}.

(** [tokens] is null ([None]) or the address of a [malloc]ed array. *)
Record udpipe_sentence_view := mkSentenceView {
  sv_tokens : option nat;
  sv_count : nat
}.

(** The values [udpipe_doc_view::sentences] takes in the code: null, a
    [malloc]ed array, or [sentences.data()] of a local [std::vector],
    storage that the vector owns (for an empty vector that never
    allocated, [data()] is null). *)
Inductive sentences_ptr :=
| sentences_null
| sentences_at (addr : nat)
| sentences_vector (buf : list udpipe_sentence_view).

Record udpipe_doc_view := mkDoc {
  doc_sentences : sentences_ptr;
  doc_count : nat;
  doc_arena : option nat
}.

Definition zero_doc : udpipe_doc_view := mkDoc sentences_null 0 None.

Definition vector_data (v : list udpipe_sentence_view) : sentences_ptr :=
  match v with
  | [] => sentences_null
  | _ => sentences_vector v
  end.

(** ** Memory *)

(** The contents of a [malloc]ed array. *)
Inductive cells :=
| uninitialised (n : nat)
| token_array (ts : list udpipe_token)
| sentence_array (svs : list udpipe_sentence_view)
| doc_array (ds : list udpipe_doc_view).

Definition cells_length (c : cells) : nat :=
  match c with
  | uninitialised n => n
  | token_array ts => length ts
  | sentence_array svs => length svs
  | doc_array ds => length ds
  end.

(** The live [StringArena] objects (from [new]) and the live [malloc]ed
    arrays, by address; [mem_next] is the next fresh address. *)
Record mem := mkMem {
  mem_oracle : oracle;
  mem_arenas : gmap nat StringArena;
  mem_blocks : gmap nat cells;
  mem_next : nat
}.

Definition empty_mem (o : oracle) : mem := mkMem o ∅ ∅ 0.

(** Computations on memory that may fault. *)
Definition M (A : Type) : Type := mem → option (A * mem).

Global Instance M_ret : MRet M := λ A x m, Some (x, m).
Global Instance M_bind : MBind M := λ A B k c m,
  match c m with
  | Some (x, m') => k x m'
  | None => None
  end.

Definition fault {A} : M A := λ _, None.

(** [(T* )std::malloc(sizeof(T) * n)] *)
Definition malloc (n : nat) : M (option nat) := λ m,
  let '(ok, o) := malloc_succeeds (mem_oracle m) in
  if ok then
    Some (Some (mem_next m),
          mkMem o (mem_arenas m)
                (<[mem_next m := uninitialised n]> (mem_blocks m))
                (S (mem_next m)))
  else Some (None, mkMem o (mem_arenas m) (mem_blocks m) (mem_next m)).

(** [std::memcpy(dst, src.data(), sizeof(T) * src.size())] into an array
    of that many elements. *)
Definition memcpy_cells (dst : nat) (src : cells) : M unit := λ m,
  match mem_blocks m !! dst with
  | Some old =>
      if decide (cells_length old = cells_length src)
      then Some (tt, mkMem (mem_oracle m) (mem_arenas m)
                           (<[dst := src]> (mem_blocks m)) (mem_next m))
      else None
  | None => None
  end.

(** [std::free(p)]: nothing on null, a fault unless [p] is live. *)
Definition free (p : option nat) : M unit := λ m,
  match p with
  | None => Some (tt, m)
  | Some a =>
      match mem_blocks m !! a with
      | Some _ => Some (tt, mkMem (mem_oracle m) (mem_arenas m)
                                  (delete a (mem_blocks m)) (mem_next m))
      | None => None
      end
  end.

(** [new StringArena()] *)
Definition new_arena : M nat := λ m,
  Some (mem_next m,
        mkMem (mem_oracle m)
              (<[mem_next m := new_StringArena DEFAULT_BLOCK_SIZE]> (mem_arenas m))
              (mem_blocks m) (S (mem_next m))).

(** [delete static_cast<StringArena*>(p)]: the destructor frees every
    block of the arena. *)
Definition delete_arena (pa : nat) : M unit := λ m,
  match mem_arenas m !! pa with
  | Some _ => Some (tt, mkMem (mem_oracle m) (delete pa (mem_arenas m))
                              (mem_blocks m) (mem_next m))
  | None => None
  end.

(** [arena->allocate(s)] on the arena at address [pa]. *)
Definition arena_allocate (pa : nat) (s : string) : M char_ptr := λ m,
  a ← mem_arenas m !! pa;
  '(p, a', o') ← allocate s a (mem_oracle m);
  Some (p, mkMem o' (<[pa := a']> (mem_arenas m)) (mem_blocks m) (mem_next m)).

(** The array [p] points to, for the reads [p[i]]. *)
Definition sentences_of (p : sentences_ptr) (m : mem) : list udpipe_sentence_view :=
  match p with
  | sentences_null => []
  | sentences_at a =>
      match mem_blocks m !! a with
      | Some (sentence_array svs) => svs
      | _ => []
      end
  | sentences_vector buf => buf
  end.

(** ** udpipe_free_doc (lines 193-215) *)

(** Lines 203-208: [for (i = 0; i < count; ++i) if (sentences[i].tokens)
    std::free(sentences[i].tokens)]; a read past the array is a fault. *)
Fixpoint free_sentence_tokens (svs : list udpipe_sentence_view) (count : nat) : M unit :=
  match count with
  | 0 => mret tt
  | S count' =>
      match svs with
      | [] => fault
      | sv :: svs' => free (sv_tokens sv);; free_sentence_tokens svs' count'
      end
  end.

(** [doc] is the structure the argument points to ([None] for a null
    argument); the result is that structure after the call. *)
Definition udpipe_free_doc (doc : option udpipe_doc_view) : M (option udpipe_doc_view) :=
  match doc with
  | None => mret None
  | Some d =>
      match doc_arena d with
      | Some pa => delete_arena pa
      | None => mret tt
      end;;
      match doc_sentences d with
      | sentences_null => mret tt
      | sentences_at a =>
          (λ m, free_sentence_tokens (sentences_of (sentences_at a) m) (doc_count d) m);;
          free (Some a)
      | sentences_vector buf =>
          free_sentence_tokens buf (doc_count d);;
          (* std::free of storage that belongs to a std::vector *)
          fault
      end;;
      mret (Some zero_doc)
  end.

(** ** Sentence materialisation and the sentence loop *)

(** Which of the three copies of the loop runs: the tokenizer alone
    (lines 239-268), or the tokenizer, the tagger and, when
    [do_parse != 0], the parser (lines 139-174 and 329-360). *)
Inductive pipeline :=
| tokenizing
| tagging (do_parse : Z).

(** Lines 142-145 (331-334): the engine calls on one sentence. *)
Definition run_engine (pl : pipeline) (m : model) (s : sentence) : bool * sentence * string :=
  match pl with
  | tokenizing => (true, s, EmptyString)
  | tagging do_parse =>
      let '(ok, s, error) := tag m s in
      if negb ok then (false, s, error)
      else if (do_parse =? 0)%Z then (true, s, error)
      else parse m s
  end.

(** Lines 151-163 (246-258, 340-351): one token record. *)
Definition materialize_word (pl : pipeline) (arena : nat) (w : word) : M udpipe_token :=
  let '(start, end_) :=
    match word_token_range w with
    | Some (start, end_) => (start, end_)
    | None => (0, 0)
    end in
  match pl with
  | tagging _ =>
      form ← arena_allocate arena (word_form w);
      lemma ← arena_allocate arena (word_lemma w);
      upos ← arena_allocate arena (word_upostag w);
      xpostag ← arena_allocate arena (word_xpostag w);
      feats ← arena_allocate arena (word_feats w);
      deprel ← arena_allocate arena (word_deprel w);
      mret (mkToken (word_id w) (word_head w) form lemma upos xpostag feats deprel
                    start end_)
  | tokenizing =>
      form ← arena_allocate arena (word_form w);
      lemma ← arena_allocate arena EmptyString;
      upos ← arena_allocate arena EmptyString;
      xpostag ← arena_allocate arena EmptyString;
      feats ← arena_allocate arena EmptyString;
      deprel ← arena_allocate arena EmptyString;
      mret (mkToken (word_id w) (-1) form lemma upos xpostag feats deprel
                    start end_)
  end.

(** Lines 149-164: [for (const auto& w : s.words)], appending to [toks]. *)
Fixpoint materialize (pl : pipeline) (arena : nat) (ws : list word)
    (toks : list udpipe_token) : M (list udpipe_token) :=
  match ws with
  | [] => mret toks
  | w :: ws' =>
      if (word_id w <=? 0)%Z then materialize pl arena ws' toks
      else
        t ← materialize_word pl arena w;
        materialize pl arena ws' (toks ++ [t])
  end.

(** [while (reader->next_sentence(s, error)) { ... }].  The result is
    the vector [sentences], the string [error] and the flag
    [current_success] as they stand after the loop; the flag is kept by
    the batch worker only (lines 330-356). *)
Fixpoint sentence_loop (pl : pipeline) (m : model) (arena : nat)
    (next : list (sentence * string)) (final : string)
    (sentences : list udpipe_sentence_view)
  : M (list udpipe_sentence_view * string * bool) :=
  match next with
  | [] => mret (sentences, final, true)
  | (s, error) :: next' =>
      if decide (error = EmptyString) then
        let '(ok, s, error) := run_engine pl m s in
        if negb ok then mret (sentences, error, false)
        else
          toks ← materialize pl arena (words s) [];
          tokens ← malloc (length toks);
          match tokens with
          | None => mret (sentences, "alloc failure"%string, false)
          | Some a =>
              memcpy_cells a (token_array toks);;
              sentence_loop pl m arena next' final
                (sentences ++ [mkSentenceView (Some a) (length toks)])
          end
      else mret (sentences, error, false)
  end.

(** ** udpipe_tag_structured (lines 118-191)

    A pointer argument is [None] when null; [out_doc] carries the
    structure it points to, and the result pairs the return code with
    that structure after the call. *)
Definition udpipe_tag_structured (handle : option model) (utf8_text : option string)
    (do_parse : Z) (out_doc : option udpipe_doc_view)
  : M (Z * option udpipe_doc_view) :=
  match handle, utf8_text, out_doc with
  | Some m, Some text, Some _ =>
      arena ← new_arena;
      let out := mkDoc sentences_null 0 (Some arena) in
      match new_tokenizer m EmptyString with
      | None => mret (0%Z, Some out)
      | Some reader =>
          let run := reader text in
          '(sentences, error, _) ←
            sentence_loop (tagging do_parse) m arena (yields run) (final_error run) [];
          if decide (error = EmptyString) then
            p ← malloc (length sentences);
            match p with
            | None => mret (0%Z, Some (mkDoc sentences_null 0 (Some arena)))
            | Some a =>
                memcpy_cells a (sentence_array sentences);;
                mret (1%Z, Some (mkDoc (sentences_at a) (length sentences) (Some arena)))
            end
          else
            udpipe_free_doc
              (Some (mkDoc (vector_data sentences) (length sentences) None));;
            mret (0%Z, Some out)
      end
  | _, _, _ => mret (0%Z, out_doc)
  end.

(** ** udpipe_tokenize_structured (lines 217-281) *)
Definition udpipe_tokenize_structured (handle : option model) (utf8_text : option string)
    (tokenizer_options : option string) (out_doc : option udpipe_doc_view)
  : M (Z * option udpipe_doc_view) :=
  match handle, utf8_text, out_doc with
  | Some m, Some text, Some _ =>
      arena ← new_arena;
      let out := mkDoc sentences_null 0 (Some arena) in
      let opts := match tokenizer_options with
                  | Some o => o
                  | None => EmptyString
                  end in
      match new_tokenizer m opts with
      | None => mret (0%Z, Some out)
      | Some reader =>
          let run := reader text in
          '(sentences, error, _) ←
            sentence_loop tokenizing m arena (yields run) (final_error run) [];
          if decide (error = EmptyString) then
            p ← malloc (length sentences);
            match p with
            | None => mret (0%Z, Some (mkDoc sentences_null 0 (Some arena)))
            | Some a =>
                memcpy_cells a (sentence_array sentences);;
                mret (1%Z, Some (mkDoc (sentences_at a) (length sentences) (Some arena)))
            end
          else
            udpipe_free_doc
              (Some (mkDoc (vector_data sentences) (length sentences) None));;
            mret (0%Z, Some out)
      end
  | _, _, _ => mret (0%Z, out_doc)
  end.

(** ** udpipe_tag_batch (lines 283-408) *)

(** Lines 308-380: the body of the worker loop for the text it claimed.
    The result is the structure left in [results[current_index]] and
    whether the iteration completed without storing false into
    [success_flag]. *)
Definition process_text (m : model) (do_parse : Z) (text : string)
  : M (udpipe_doc_view * bool) :=
  arena ← new_arena;
  let doc := mkDoc sentences_null 0 (Some arena) in
  match new_tokenizer m EmptyString with
  | None => mret (doc, false)
  | Some reader =>
      let run := reader text in
      '(sentences, error, current_success) ←
        sentence_loop (tagging do_parse) m arena (yields run) (final_error run) [];
      let current_success :=
        if decide (error = EmptyString) then current_success else false in
      if negb current_success then
        udpipe_free_doc
          (Some (mkDoc (vector_data sentences) (length sentences) None));;
        mret (doc, false)
      else
        p ← malloc (length sentences);
        match p with
        | None =>
            udpipe_free_doc
              (Some (mkDoc (vector_data sentences) (length sentences) None));;
            mret (mkDoc sentences_null 0 (Some arena), false)
        | Some a =>
            memcpy_cells a (sentence_array sentences);;
            mret (mkDoc (sentences_at a) (length sentences) (Some arena), true)
        end
  end.

(** Where a worker thread stands.  Its atomic steps are the read of
    [success_flag] (line 304), the [fetch_add] on [next_index] (line
    305) and the body for the claimed index.  The two atomics are
    sequentially consistent.  The body works on data of its own and on
    its slot of [results]; what the other threads can see of it is the
    store of false into [success_flag] on failure, so it is one step.
    Its [malloc] calls draw their answers from the oracle in one run;
    the oracle is arbitrary. *)
Inductive worker :=
| at_loop_test
| at_fetch_add
| at_body (current_index : nat)
| returned.

(** The state the workers share: the two atomics and the vector
    [results]; [workers] holds the position of every thread. *)
Record batch_state := mkBatch {
  next_index : nat;
  success_flag : bool;
  results : list udpipe_doc_view;
  workers : list worker
}.

(** One atomic step of thread [tid]; a thread that has returned (or
    does not exist) does nothing. *)
Definition worker_step (m : model) (utf8_texts : list string) (do_parse : Z)
    (tid : nat) (st : batch_state) : M batch_state :=
  let batch_size := length utf8_texts in
  match workers st !! tid with
  | None | Some returned => mret st
  | Some at_loop_test =>
      mret (mkBatch (next_index st) (success_flag st) (results st)
              (<[tid := if success_flag st then at_fetch_add else returned]>
                 (workers st)))
  | Some at_fetch_add =>
      let current_index := next_index st in
      mret (mkBatch (S current_index) (success_flag st) (results st)
              (<[tid := if batch_size <=? current_index then returned
                        else at_body current_index]> (workers st)))
  | Some (at_body current_index) =>
      match utf8_texts !! current_index with
      | None => fault
      | Some text =>
          '(doc, ok) ← process_text m do_parse text;
          mret (mkBatch (next_index st)
                  (if ok : bool then success_flag st else false)
                  (<[current_index := doc]> (results st))
                  (<[tid := at_loop_test]> (workers st)))
      end
  end.

(** The threads take their steps in the order a schedule lists them. *)
Fixpoint run_workers (m : model) (utf8_texts : list string) (do_parse : Z)
    (schedule : list nat) (st : batch_state) : M batch_state :=
  match schedule with
  | [] => mret st
  | tid :: schedule' =>
      st ← worker_step m utf8_texts do_parse tid st;
      run_workers m utf8_texts do_parse schedule' st
  end.

(** Lines 385-387: [join] lets every thread run until it returns; a
    thread needs at most three steps per index and three more. *)
Definition join_schedule (num_threads batch_size : nat) : list nat :=
  tid ← seq 0 num_threads; replicate (3 * batch_size + 3) tid.

(** Lines 390-392 and 399-401: release every slot of [results]. *)
Fixpoint free_results (rs : list udpipe_doc_view) : M (list udpipe_doc_view) :=
  match rs with
  | [] => mret ([] : list udpipe_doc_view)
  | r :: rs' =>
      r ← udpipe_free_doc (Some r);
      rs' ← free_results rs';
      mret (default zero_doc r :: rs')
  end.

(** [hardware_concurrency] is the answer of
    [std::thread::hardware_concurrency()]; [schedule] is the order in
    which the threads took their steps before the joins.  [utf8_texts]
    is the array of [batch_size] texts, none of them null.  [out_docs]
    and [out_size] carry the cells the two out-pointers point to, and
    the result gives the return code and these cells after the call. *)
Definition udpipe_tag_batch (handle : option model) (utf8_texts : option (list string))
    (do_parse : Z) (out_docs : option (option nat)) (out_size : option nat)
    (hardware_concurrency : nat) (schedule : list nat)
  : M (Z * option (option nat) * option nat) :=
  match handle, utf8_texts, out_docs, out_size with
  | Some m, Some texts, Some _, Some _ =>
      let batch_size := length texts in
      let num_threads := hardware_concurrency in
      let num_threads := if num_threads =? 0 then 1 else num_threads in
      let num_threads := if batch_size <? num_threads then batch_size else num_threads in
      st ← run_workers m texts do_parse
             (schedule ++ join_schedule num_threads batch_size)
             (mkBatch 0 true (replicate batch_size zero_doc)
                      (replicate num_threads at_loop_test));
      if negb (success_flag st) then
        free_results (results st);;
        mret (0%Z, Some None, Some 0)
      else
        p ← malloc (length (results st));
        match p with
        | None =>
            free_results (results st);;
            mret (0%Z, Some None, Some 0)
        | Some a =>
            memcpy_cells a (doc_array (results st));;
            mret (1%Z, Some (Some a), Some (length (results st)))
        end
  | _, _, _, _ => mret (0%Z, out_docs, out_size)
  end.

(** ** udpipe_free_batch (lines 410-416) *)
Definition udpipe_free_batch (docs : option nat) (batch_size : nat) : M unit :=
  match docs with
  | None => mret tt
  | Some a =>
      ds ← (λ m, Some (match mem_blocks m !! a with
                       | Some (doc_array ds) => ds
                       | _ => []
                       end, m));
      (if decide (batch_size ≤ length ds)
       then free_results (take batch_size ds)
       else fault);;
      free (Some a)
  end.

(** ** What a document in memory stands for *)

(** The sentence the engine hands to the materialiser. *)
Definition engine_sentence (pl : pipeline) (m : model) (s : sentence) : sentence :=
  (run_engine pl m s).1.2.

(** The sentences the engine produces for a text: every sentence of the
    tokenizer, tagged and parsed as the pipeline asks. *)
Definition engine_output (pl : pipeline) (m : model) (opts text : string)
  : option (list sentence) :=
  reader ← new_tokenizer m opts;
  Some ((λ y, engine_sentence pl m y.1) <$> yields (reader text)).

(** The engine leaves a message in [error] whenever a call fails. *)
Definition reports_errors (m : model) : Prop :=
  (∀ s, (tag m s).1.1 = false → (tag m s).2 ≠ EmptyString)
  ∧ (∀ s, (parse m s).1.1 = false → (parse m s).2 ≠ EmptyString).

(** The words that reach the output: identifier above 0, in order. *)
Definition output_words (s : sentence) : list word :=
  filter (λ w, (0 < word_id w)%Z) (words s).

(** [p] is not null and reads, in arena [ar], as the C string of [s],
    or gives the empty string where the arena fell back to [empty_str]. *)
Definition field_at (ar : StringArena) (p : char_ptr) (s : string) : Prop :=
  p ≠ null_ptr
  ∧ read_cstr ar p
    = Some (match p with empty_str => EmptyString | _ => until_nul s end).

Definition token_of (pl : pipeline) (ar : StringArena) (t : udpipe_token) (w : word)
  : Prop :=
  tok_id t = word_id w
  ∧ tok_head t = match pl with tokenizing => (-1)%Z | tagging _ => word_head w end
  ∧ (tok_start t, tok_end t) = default (0, 0) (word_token_range w)
  ∧ field_at ar (tok_form t) (word_form w)
  ∧ field_at ar (tok_lemma t)
      (match pl with tokenizing => EmptyString | tagging _ => word_lemma w end)
  ∧ field_at ar (tok_upos t)
      (match pl with tokenizing => EmptyString | tagging _ => word_upostag w end)
  ∧ field_at ar (tok_xpostag t)
      (match pl with tokenizing => EmptyString | tagging _ => word_xpostag w end)
  ∧ field_at ar (tok_feats t)
      (match pl with tokenizing => EmptyString | tagging _ => word_feats w end)
  ∧ field_at ar (tok_deprel t)
      (match pl with tokenizing => EmptyString | tagging _ => word_deprel w end).

(** The view [sv] owns a live token array, at an address in [lo, hi),
    that holds the output words of [s]. *)
Definition sentence_in (pl : pipeline) (m : mem) (ar : StringArena) (lo hi : nat)
    (sv : udpipe_sentence_view) (s : sentence) : Prop :=
  ∃ a toks,
    sv_tokens sv = Some a ∧ lo ≤ a < hi
    ∧ mem_blocks m !! a = Some (token_array toks)
    ∧ sv_count sv = length toks
    ∧ Forall2 (token_of pl ar) toks (output_words s).

(** The document [d] is fully populated in [m] with the sentences [ss]:
    a live arena, a live sentence array of [doc_count] views, each with
    its token array, all at addresses in [lo, hi) and no two the same. *)
Definition doc_in (pl : pipeline) (m : mem) (lo hi : nat)
    (d : udpipe_doc_view) (ss : list sentence) : Prop :=
  ∃ pa ar sa svs,
    doc_arena d = Some pa ∧ lo ≤ pa < hi
    ∧ mem_arenas m !! pa = Some ar ∧ arena_wf ar
    ∧ doc_sentences d = sentences_at sa ∧ lo ≤ sa < hi
    ∧ mem_blocks m !! sa = Some (sentence_array svs)
    ∧ doc_count d = length svs
    ∧ Forall2 (sentence_in pl m ar lo hi) svs ss
    ∧ NoDup (sa :: omap sv_tokens svs).

Definition doc_represents (pl : pipeline) (m : mem)
    (d : udpipe_doc_view) (ss : list sentence) : Prop :=
  ∃ lo hi, doc_in pl m lo hi d ss.

(** Memory [m'] is [m] after work on the arena at [pa] and on fresh
    arrays: nothing that was allocated in [m] has changed, except that
    the arena at [pa] may have grown. *)
Record grows (pa : nat) (m m' : mem) : Prop := mkGrows {
  grows_next : mem_next m ≤ mem_next m';
  grows_blocks : ∀ a, a < mem_next m → mem_blocks m' !! a = mem_blocks m !! a;
  grows_arenas : ∀ a, a ≠ pa → a < mem_next m → mem_arenas m' !! a = mem_arenas m !! a;
  grows_arena : ∀ ar, mem_arenas m !! pa = Some ar → arena_wf ar →
    ∃ ar', mem_arenas m' !! pa = Some ar' ∧ arena_wf ar' ∧ arena_extends ar ar'
}.

(** How the loop ended: it read every sentence and stopped on the
    reader's last answer, or it broke off with [current_success] false;
    then [error] holds a message, unless an engine call failed without
    leaving one. *)
Definition loop_exit (pl : pipeline) (mdl : model) (final : string)
    (rest : list sentence) (error : string) (ok : bool) : Prop :=
  (ok = true ∧ rest = [] ∧ error = final)
  ∨ (ok = false
     ∧ (error ≠ EmptyString
        ∨ ∃ s, (run_engine pl mdl s).1.1 = false
               ∧ (run_engine pl mdl s).2 = EmptyString)).

(** Nothing that was allocated in [m] has changed in [m']. *)
Definition frame (m m' : mem) : Prop :=
  mem_next m ≤ mem_next m'
  ∧ ∀ a, a < mem_next m →
      mem_blocks m' !! a = mem_blocks m !! a
      ∧ mem_arenas m' !! a = mem_arenas m !! a.

(** The body the two structured entry points share once their
    arguments are known not to be null (lines 121-190 and 221-280). *)
Definition structured (pl : pipeline) (m : model) (opts text : string)
  : M (Z * option udpipe_doc_view) :=
  arena ← new_arena;
  let out := mkDoc sentences_null 0 (Some arena) in
  match new_tokenizer m opts with
  | None => mret (0%Z, Some out)
  | Some reader =>
      let run := reader text in
      '(sentences, error, _) ←
        sentence_loop pl m arena (yields run) (final_error run) [];
      if decide (error = EmptyString) then
        p ← malloc (length sentences);
        match p with
        | None => mret (0%Z, Some (mkDoc sentences_null 0 (Some arena)))
        | Some a =>
            memcpy_cells a (sentence_array sentences);;
            mret (1%Z, Some (mkDoc (sentences_at a) (length sentences) (Some arena)))
        end
      else
        udpipe_free_doc
          (Some (mkDoc (vector_data sentences) (length sentences) None));;
        mret (0%Z, Some out)
  end.

(** A token of a tokenize-only document, read in its arena. *)
Definition untagged (ar : StringArena) (t : udpipe_token) : Prop :=
  tok_head t = (-1)%Z
  ∧ read_cstr ar (tok_lemma t) = Some EmptyString
  ∧ read_cstr ar (tok_upos t) = Some EmptyString
  ∧ read_cstr ar (tok_xpostag t) = Some EmptyString
  ∧ read_cstr ar (tok_feats t) = Some EmptyString
  ∧ read_cstr ar (tok_deprel t) = Some EmptyString.

(** ** Statements about the documents the entry points return *)

(** [out] is a document with one sentence view per sentence the engine
    produces for [text], in order, where the token array of each view
    holds the words of its sentence whose identifier is above 0, in
    their order, and no other; the document represents these sentences
    field by field. *)
Definition holds_engine_output (pl : pipeline) (mdl : model) (opts text : string)
    (m' : mem) (out : option udpipe_doc_view) : Prop :=
  ∃ d ss sa svs,
    out = Some d
    ∧ engine_output pl mdl opts text = Some ss
    ∧ doc_sentences d = sentences_at sa
    ∧ mem_blocks m' !! sa = Some (sentence_array svs)
    ∧ doc_count d = length ss ∧ length svs = length ss
    ∧ Forall2 (λ sv s, ∃ a toks,
         sv_tokens sv = Some a
         ∧ mem_blocks m' !! a = Some (token_array toks)
         ∧ tok_id <$> toks = filter (λ i, (0 < i)%Z) (word_id <$> words s)
         ∧ sv_count sv = length (filter (λ i, (0 < i)%Z) (word_id <$> words s)))
        svs ss
    ∧ doc_represents pl m' d ss.

(** [out] is a document whose tokens all have head -1 and empty
    lemma, upos, xpostag, feats and deprel. *)
Definition all_untagged (m' : mem) (out : option udpipe_doc_view) : Prop :=
  ∃ d pa ar sa svs,
    out = Some d
    ∧ doc_arena d = Some pa ∧ mem_arenas m' !! pa = Some ar
    ∧ doc_sentences d = sentences_at sa
    ∧ mem_blocks m' !! sa = Some (sentence_array svs)
    ∧ doc_count d = length svs
    ∧ Forall (λ sv, ∃ a toks,
         sv_tokens sv = Some a
         ∧ mem_blocks m' !! a = Some (token_array toks)
         ∧ sv_count sv = length toks
         ∧ Forall (untagged ar) toks) svs.


(** ** Invariants of the batch *)

(** Slot [i] of [results] holds the populated document of text [i]. *)
Definition slot_ok (mdl : model) (do_parse : Z) (texts : list string)
    (m : mem) (rs : list udpipe_doc_view) (i : nat) : Prop :=
  ∃ text ss d lo hi,
    texts !! i = Some text
    ∧ engine_output (tagging do_parse) mdl EmptyString text = Some ss
    ∧ rs !! i = Some d
    ∧ hi ≤ mem_next m
    ∧ doc_in (tagging do_parse) m lo hi d ss.

(** While [success_flag] is true, every index claimed so far is being
    worked on or has its document in place; and a thread has returned
    only after it saw the flag false or claimed an index past the end. *)
Record batch_inv (mdl : model) (do_parse : Z) (texts : list string)
    (m : mem) (st : batch_state) : Prop := mkBatchInv {
  inv_results : length (results st) = length texts;
  inv_slots : success_flag st = true →
    ∀ i, i < next_index st → i < length texts →
      (∃ tid, workers st !! tid = Some (at_body i))
      ∨ slot_ok mdl do_parse texts m (results st) i;
  inv_returned : ∀ tid, workers st !! tid = Some returned →
    success_flag st = false ∨ length texts ≤ next_index st
}.

(** An index a thread is working on was claimed through the counter,
    and by that thread alone. *)
Definition claims_exclusive (st : batch_state) : Prop :=
  ∀ t1 i, workers st !! t1 = Some (at_body i) →
    i < next_index st
    ∧ ∀ t2, workers st !! t2 = Some (at_body i) → t1 = t2.

(** The steps thread [tid] can still take, at most. *)
Definition steps_left (batch_size : nat) (st : batch_state) (tid : nat) : nat :=
  match workers st !! tid with
  | None | Some returned => 0
  | Some at_fetch_add => 3 * (batch_size - next_index st) + 1
  | Some at_loop_test => 3 * (batch_size - next_index st) + 2
  | Some (at_body _) => 3 * (batch_size - next_index st) + 3
  end.

(** The call returned the array of documents, index-aligned with the
    texts: the document at index [i] is the populated document of the
    text at index [i]. *)
Definition batch_aligned (mdl : model) (do_parse : Z) (texts : list string)
    (m' : mem) (out_docs : option (option nat)) (out_size : option nat) : Prop :=
  ∃ a docs,
    out_docs = Some (Some a) ∧ out_size = Some (length texts)
    ∧ mem_blocks m' !! a = Some (doc_array docs)
    ∧ length docs = length texts
    ∧ ∀ i text, texts !! i = Some text →
        ∃ d ss, docs !! i = Some d
          ∧ engine_output (tagging do_parse) mdl EmptyString text = Some ss
          ∧ doc_represents (tagging do_parse) m' d ss.

(** ** Sample engines *)

Definition plain_word (id : Z) (form : string) (range : option (nat * nat)) : word :=
  mkWord id (-1) form EmptyString EmptyString EmptyString EmptyString EmptyString range.

Definition dogs_run : sentence :=
  mkSentence [plain_word 0 "<root>" None; plain_word 1 "Dogs" (Some (0, 4));
              plain_word 2 "run" (Some (5, 8)); plain_word 3 "." (Some (8, 9))].

Definition cats_sleep : sentence :=
  mkSentence [plain_word 0 "<root>" None; plain_word 1 "Cats" (Some (10, 14));
              plain_word 2 "sleep" (Some (15, 20)); plain_word 3 "." (Some (20, 21))].

Definition sample_tokenizer (text : string) : reader_run :=
  if decide (text = "Dogs run."%string) then mkReaderRun [(dogs_run, EmptyString)] EmptyString
  else if decide (text = "Dogs run. Cats sleep."%string)
       then mkReaderRun [(dogs_run, EmptyString); (cats_sleep, EmptyString)] EmptyString
       else mkReaderRun [] EmptyString.

Definition sample_tag_word (w : word) : word :=
  mkWord (word_id w) (word_head w) (word_form w) (word_form w)
    (if decide (word_form w = "."%string) then "PUNCT"
     else if decide (word_form w = "Dogs"%string) then "NOUN"
     else if decide (word_form w = "Cats"%string) then "NOUN" else "VERB")%string
    EmptyString EmptyString (word_deprel w) (word_token_range w).

Definition sample_tag (s : sentence) : bool * sentence * string :=
  (true, mkSentence (sample_tag_word <$> words s), EmptyString).

Definition sample_parse (s : sentence) : bool * sentence * string :=
  (true,
   mkSentence ((λ w, mkWord (word_id w) 0 (word_form w) (word_lemma w) (word_upostag w)
                       (word_xpostag w) (word_feats w) "dep" (word_token_range w))
               <$> words s),
   EmptyString).

Definition sample_model : model :=
  mkModel (λ _, Some sample_tokenizer) sample_tag sample_parse.

(** A model file without a tagger: [tag] fails on every sentence. *)
Definition no_tagger_model : model :=
  mkModel (λ _, Some sample_tokenizer)
    (λ s, (false, s, "No tagger defined for the UDPipe model!"%string))
    sample_parse.

(** An engine that breaks the contract: its tagger returns false on the
    sentence about cats and leaves [error] empty. *)
Definition silent_fail_model : model :=
  mkModel (λ _, Some sample_tokenizer)
    (λ s, if existsb (λ w, String.eqb (word_form w) "Cats") (words s)
          then (false, s, EmptyString)
          else sample_tag s)
    sample_parse.

(** An engine whose tagger gives up on the sentence about cats. *)
Definition cats_fail_model : model :=
  mkModel (λ _, Some sample_tokenizer)
    (λ s, if existsb (λ w, String.eqb (word_form w) "Cats") (words s)
          then (false, s, "cannot tag"%string)
          else sample_tag s)
    sample_parse.

(** ** Further notions, for the properties beyond the specification *)

(** The bytes [off, off + len) of block [b] lie below the cursor, if [b]
    is still the current block. *)
Definition below_cursor (a : StringArena) (b off len : nat) : Prop :=
  b < length (blocks_ a)
  ∧ (current_block_ a = Some b → off + len ≤ current_offset_ a).

(** The room a string takes in a block: its bytes and terminator,
    rounded up to the next multiple of the pointer size. *)
Definition padded_size (s : string) : nat := align_up (String.length s + 1).

Definition nul_free (s : string) : Prop :=
  Forall (λ c, c ≠ zero) (list_ascii_of_string s).

(** ** udpipe_version (lines 72-80) *)

(** [ufal::udpipe::version], the answer of [version::current()]. *)
Record version := mkVersion {
  ver_major : nat;
  ver_minor : nat;
  ver_patch : nat;
  ver_prerelease : string
}.

(** [v] is the function-local [static std::string v] before the call;
    the result is the string the returned pointer gives and [v] after
    the call.  [std::to_string] of an unsigned is its decimal form. *)
Definition udpipe_version (current : version) (v : string) : string * string :=
  let v :=
    if decide (v = EmptyString) then
      pretty (ver_major current) +:+ "." +:+ pretty (ver_minor current) +:+ "."
        +:+ pretty (ver_patch current)
        +:+ (if decide (ver_prerelease current = EmptyString) then EmptyString
             else "-" +:+ ver_prerelease current)
    else v in
  (v, v).

(** ** udpipe_tag_conllu (lines 94-112) and udpipe_string_free (lines 114-116) *)

(** What this entry point sees of the model: the run of
    [pipeline(m, "tokenizer", model::DEFAULT, pipeline::NONE, "conllu")
    .process(is, os, error)] on a text, as (ok, os.str(), error). *)
Record conllu_model := mkConlluModel {
  process : string → bool * string * string
}.

(** The [char] buffers that [malloc] returned and that are still live,
    by address. *)
Record char_heap := mkCharHeap {
  ch_oracle : oracle;
  ch_bufs : gmap nat (list ascii);
  ch_next : nat
}.

(** The result is the returned pointer, [None] when null. *)
Definition udpipe_tag_conllu (handle : option conllu_model) (utf8_text : option string)
    (h : char_heap) : option nat * char_heap :=
  match handle, utf8_text with
  | Some m, Some text =>
      let '(ok, os, error) := process m text in
      let result_str := if ok : bool then os else "ERROR: " +:+ error in
      let '(got, o) := malloc_succeeds (ch_oracle h) in
      if got : bool then
        (Some (ch_next h),
         mkCharHeap o (<[ch_next h := c_str result_str]> (ch_bufs h)) (S (ch_next h)))
      else (None, mkCharHeap o (ch_bufs h) (ch_next h))
  | _, _ => (None, h)
  end.

(** [std::free(p)]: nothing on null, a fault ([None]) unless [p] is live. *)
Definition udpipe_string_free (p : option nat) (h : char_heap) : option char_heap :=
  match p with
  | None => Some h
  | Some a =>
      match ch_bufs h !! a with
      | Some _ => Some (mkCharHeap (ch_oracle h) (delete a (ch_bufs h)) (ch_next h))
      | None => None
      end
  end.

(** The null-terminated string a reader finds in a buffer. *)
Definition read_buffer (h : char_heap) (p : nat) : option string :=
  buf ← ch_bufs h !! p; cstr_of_cells (Some <$> buf).

(** Nothing lives at or beyond the next fresh address. *)
Definition char_heap_fresh (h : char_heap) : Prop :=
  ∀ a, ch_next h ≤ a → ch_bufs h !! a = None.

(** Nothing lives at or beyond the next fresh address. *)
Definition mem_fresh (m : mem) : Prop :=
  ∀ a, mem_next m ≤ a → mem_blocks m !! a = None ∧ mem_arenas m !! a = None.

(** The arrays a populated document owns: its sentence array and the
    token arrays of its views. *)
Definition doc_arrays (sa : nat) (svs : list udpipe_sentence_view) : list nat :=
  sa :: omap sv_tokens svs.

(** ** What the slots of a batch own *)

(** The arena and the arrays a structure gives to [udpipe_free_doc]. *)
Definition slot_arenas (d : udpipe_doc_view) : list nat :=
  match doc_arena d with
  | Some pa => [pa]
  | None => []
  end.

Definition slot_arrays (m : mem) (d : udpipe_doc_view) : list nat :=
  match doc_sentences d with
  | sentences_at sa => doc_arrays sa (sentences_of (sentences_at sa) m)
  | _ => []
  end.

(** The structure [d] is zeroed, or holds a live arena alone, or holds
    a live arena, a live sentence array of [doc_count] views and their
    live token arrays, no two the same; all at addresses from [lo] on. *)
Definition slot_wf (lo : nat) (m : mem) (d : udpipe_doc_view) : Prop :=
  (∀ pa, doc_arena d = Some pa → lo ≤ pa ∧ is_Some (mem_arenas m !! pa))
  ∧ match doc_sentences d with
    | sentences_null => True
    | sentences_at sa =>
        ∃ svs, mem_blocks m !! sa = Some (sentence_array svs)
          ∧ doc_count d = length svs ∧ lo ≤ sa
          ∧ Forall (λ sv, ∃ a, sv_tokens sv = Some a ∧ lo ≤ a
                            ∧ is_Some (mem_blocks m !! a)) svs
          ∧ NoDup (doc_arrays sa svs)
    | sentences_vector _ => False
    end.

(** The slots [rs] own, each for itself, every arena and every array
    that lives from [lo] on, the arrays [keep] apart. *)
Record batch_heap (lo : nat) (keep : list nat) (m : mem)
    (rs : list udpipe_doc_view) : Prop := mkBatchHeap {
  bh_wf : ∀ d, d ∈ rs → slot_wf lo m d;
  bh_arenas_disjoint : ∀ i j d d' a,
    rs !! i = Some d → rs !! j = Some d' →
    a ∈ slot_arenas d → a ∈ slot_arenas d' → i = j;
  bh_arrays_disjoint : ∀ i j d d' a,
    rs !! i = Some d → rs !! j = Some d' →
    a ∈ slot_arrays m d → a ∈ slot_arrays m d' → i = j;
  bh_keep : ∀ a d, a ∈ keep → d ∈ rs → a ∉ slot_arrays m d;
  bh_cover_arenas : ∀ a, lo ≤ a → is_Some (mem_arenas m !! a) →
    ∃ d, d ∈ rs ∧ a ∈ slot_arenas d;
  bh_cover_blocks : ∀ a, lo ≤ a → is_Some (mem_blocks m !! a) →
    a ∈ keep ∨ ∃ d, d ∈ rs ∧ a ∈ slot_arrays m d
}.

(** The state of a running batch: the heap belongs to the slots, a slot
    stays zeroed until the thread that claimed its index has run the
    body, and no index is claimed twice. *)
Record batch_owned (lo : nat) (texts : list string) (m : mem) (st : batch_state)
  : Prop := mkBatchOwned {
  bo_heap : batch_heap lo [] m (results st);
  bo_fresh : mem_fresh m;
  bo_lo : lo ≤ mem_next m;
  bo_results : length (results st) = length texts;
  bo_unclaimed : ∀ i, next_index st ≤ i → i < length texts →
    results st !! i = Some zero_doc;
  bo_claimed : ∀ tid i, workers st !! tid = Some (at_body i) →
    i < length texts ∧ results st !! i = Some zero_doc;
  bo_exclusive : claims_exclusive st
}.

(** The loop takes the answer [y] of [next_sentence] without breaking
    off: no error came with it and every engine call returned true. *)
Definition accepted (pl : pipeline) (mdl : model) (y : sentence * string) : Prop :=
  y.2 = EmptyString ∧ (run_engine pl mdl y.1).1.1 = true.

(** Every [std::malloc] still to come succeeds. *)
Definition never_fails (o : oracle) : Prop := Forall (λ ok, ok = true) o.

(** The loop of a structured call on [text] ends with a message after
    it has pushed at least one sentence view: the call then hands
    [sentences.data()] to [udpipe_free_doc] (lines 178-183, 271-276). *)
Definition fails_after_a_sentence (pl : pipeline) (mdl : model) (opts text : string)
    (m : mem) : Prop :=
  ∃ pa m1 reader svs error ok m2,
    new_arena m = Some (pa, m1)
    ∧ new_tokenizer mdl opts = Some reader
    ∧ sentence_loop pl mdl pa (yields (reader text)) (final_error (reader text)) [] m1
      = Some ((svs, error, ok), m2)
    ∧ error ≠ EmptyString ∧ svs ≠ [].

(** Releasing [out] in [m'] is defined, zeroes the structure and leaves
    the arenas and the arrays of [m], no more and no less. *)
Definition frees_back_to (m : mem) (out : option udpipe_doc_view) (m' : mem) : Prop :=
  ∃ m'', udpipe_free_doc out m' = Some (Some zero_doc, m'')
    ∧ mem_arenas m'' = mem_arenas m ∧ mem_blocks m'' = mem_blocks m.

(** Releasing what a failed call left in [out] is defined, zeroes the
    structure and gives back the arenas of [m]; every array of [m] is
    still there, and no other is when no [malloc] failed. *)
Definition failure_released (m : mem) (out : option udpipe_doc_view) (m' : mem) : Prop :=
  ∃ m'', udpipe_free_doc out m' = Some (Some zero_doc, m'')
    ∧ mem_arenas m'' = mem_arenas m
    ∧ mem_blocks m ⊆ mem_blocks m''
    ∧ (never_fails (mem_oracle m) → mem_blocks m'' = mem_blocks m).

(** The engine reads [text] to the end: the model has a tokenizer, the
    loop accepts every answer of the reader, and the reader ends
    without a message. *)
Definition engine_accepts (pl : pipeline) (mdl : model) (opts text : string) : Prop :=
  ∃ reader,
    new_tokenizer mdl opts = Some reader
    ∧ Forall (accepted pl mdl) (yields (reader text))
    ∧ final_error (reader text) = EmptyString.

(** While [success_flag] is true, the engine has read to the end every
    text whose index was claimed and is no longer being worked on. *)
Definition claimed_accepted (mdl : model) (do_parse : Z) (texts : list string)
    (st : batch_state) : Prop :=
  success_flag st = true →
  ∀ i text, i < next_index st → texts !! i = Some text →
    (∃ tid, workers st !! tid = Some (at_body i))
    ∨ engine_accepts (tagging do_parse) mdl EmptyString text.

(** The engine fails on [text] before the loop has pushed a sentence
    view: the model has no tokenizer, or the reader gives no sentence
    and ends with a message, or the loop does not accept the first
    answer of the reader. *)
Definition fails_before_a_sentence (pl : pipeline) (mdl : model) (opts text : string)
  : Prop :=
  new_tokenizer mdl opts = None
  ∨ ∃ reader,
      new_tokenizer mdl opts = Some reader
      ∧ ((yields (reader text) = [] ∧ final_error (reader text) ≠ EmptyString)
         ∨ ∃ y rest, yields (reader text) = y :: rest ∧ ¬ accepted pl mdl y).

(** No string field of the token is the static [empty_str]: each
    points into a block of the arena. *)
Definition token_in_arena (t : udpipe_token) : Prop :=
  tok_form t ≠ empty_str ∧ tok_lemma t ≠ empty_str ∧ tok_upos t ≠ empty_str
  ∧ tok_xpostag t ≠ empty_str ∧ tok_feats t ≠ empty_str ∧ tok_deprel t ≠ empty_str.

(** Every string field of the token reads as the string the loop copied
    from the word, up to its first NUL. *)
Definition token_reads (pl : pipeline) (ar : StringArena) (t : udpipe_token) (w : word)
  : Prop :=
  read_cstr ar (tok_form t) = Some (until_nul (word_form w))
  ∧ read_cstr ar (tok_lemma t)
    = Some (until_nul (match pl with tokenizing => EmptyString
                                   | tagging _ => word_lemma w end))
  ∧ read_cstr ar (tok_upos t)
    = Some (until_nul (match pl with tokenizing => EmptyString
                                   | tagging _ => word_upostag w end))
  ∧ read_cstr ar (tok_xpostag t)
    = Some (until_nul (match pl with tokenizing => EmptyString
                                   | tagging _ => word_xpostag w end))
  ∧ read_cstr ar (tok_feats t)
    = Some (until_nul (match pl with tokenizing => EmptyString
                                   | tagging _ => word_feats w end))
  ∧ read_cstr ar (tok_deprel t)
    = Some (until_nul (match pl with tokenizing => EmptyString
                                   | tagging _ => word_deprel w end)).

(** The pointer is an address inside a block of the arena: neither
    null nor the static [empty_str]. *)
Definition points_into (ar : StringArena) (p : char_ptr) : Prop :=
  ∃ b off blk, p = block_ptr b off ∧ blocks_ ar !! b = Some blk ∧ off < length blk.

Definition token_points_into (ar : StringArena) (t : udpipe_token) : Prop :=
  points_into ar (tok_form t) ∧ points_into ar (tok_lemma t)
  ∧ points_into ar (tok_upos t) ∧ points_into ar (tok_xpostag t)
  ∧ points_into ar (tok_feats t) ∧ points_into ar (tok_deprel t).

(** Every string field of every token of the document [d] points into
    the arena of [d], none being the static [empty_str], and reads as
    the string of the word of [ss] it stands for. *)
Definition doc_reads (pl : pipeline) (m : mem) (d : udpipe_doc_view)
    (ss : list sentence) : Prop :=
  ∃ pa ar sa svs,
    doc_arena d = Some pa ∧ mem_arenas m !! pa = Some ar
    ∧ doc_sentences d = sentences_at sa
    ∧ mem_blocks m !! sa = Some (sentence_array svs)
    ∧ Forall2 (λ sv s, ∃ a toks,
         sv_tokens sv = Some a
         ∧ mem_blocks m !! a = Some (token_array toks)
         ∧ Forall2 (λ t w, token_in_arena t ∧ token_points_into ar t
                           ∧ token_reads pl ar t w)
             toks (output_words s)) svs ss.

(** The threads that have passed the test of [success_flag] and have
    not yet done their [fetch_add]. *)
Definition about_to_claim (w : worker) : nat :=
  match w with
  | at_fetch_add => 1
  | _ => 0
  end.

Definition pending_claims (st : batch_state) : nat :=
  sum_list (about_to_claim <$> workers st).

(* ================================================================== *)
(** * Properties *)

(** ** The arena *)

Example allocate_dogs :
  (allocate "Dogs" (new_StringArena 16) [] ≫= λ '(p, a, _),
     Some (p, read_cstr a p, current_offset_ a))
  = Some (block_ptr 0 0, Some "Dogs"%string, 5).
Proof. reflexivity. Qed.

Lemma length_c_str s : length (c_str s) = String.length s + 1.
Proof.
  unfold c_str. rewrite length_app. simpl. f_equal.
  induction s; simpl; congruence.
Qed.

Lemma cstr_of_cells_c_str s rest :
  cstr_of_cells ((Some <$> c_str s) ++ rest) = Some (until_nul s).
Proof.
  unfold c_str. induction s as [|c s IH]; [done|].
  change (cstr_of_cells
            (Some c :: ((Some <$> list_ascii_of_string s ++ [zero]) ++ rest))
          = Some (until_nul (String c s))).
  simpl. destruct (Ascii.eqb c zero); [done|]. by rewrite IH.
Qed.

Lemma memcpy_Some dst off src :
  off + length src ≤ length dst →
  ∃ blk', memcpy dst off src = Some blk'
    ∧ length blk' = length dst
    ∧ drop off blk' = (Some <$> src) ++ drop (off + length src) dst
    ∧ (∀ i, i < off → blk' !! i = dst !! i)
    ∧ (∀ i, off + length src ≤ i → blk' !! i = dst !! i).
Proof.
  intros Hle. unfold memcpy. rewrite decide_True by done.
  eexists; split; [done|].
  assert (Hlt : length (take off dst) = off) by (rewrite length_take; lia).
  repeat split.
  - rewrite !length_app, length_fmap, Hlt, length_drop. lia.
  - rewrite drop_app_length'; done.
  - intros i Hi. rewrite lookup_app_l by lia. apply lookup_take_lt; lia.
  - intros i Hi. rewrite lookup_app_r by lia.
    rewrite lookup_app_r by (rewrite length_fmap; lia).
    rewrite lookup_drop, Hlt, length_fmap. f_equal. lia.
Qed.

Lemma block_extends_refl blk : block_extends blk blk.
Proof. by split. Qed.

Lemma block_extends_trans b1 b2 b3 :
  block_extends b1 b2 → block_extends b2 b3 → block_extends b1 b3.
Proof. intros [L1 H1] [L2 H2]. split; [congruence | eauto]. Qed.

Lemma arena_extends_refl a : arena_extends a a.
Proof. intros b blk Hb. eauto using block_extends_refl. Qed.

Lemma arena_extends_trans a1 a2 a3 :
  arena_extends a1 a2 → arena_extends a2 a3 → arena_extends a1 a3.
Proof.
  intros H12 H23 b blk Hb.
  destruct (H12 _ _ Hb) as (blk2 & Hb2 & Hx).
  destruct (H23 _ _ Hb2) as (blk3 & Hb3 & Hy).
  eauto using block_extends_trans.
Qed.

Lemma arena_extends_length a a' :
  arena_extends a a' → length (blocks_ a) ≤ length (blocks_ a').
Proof.
  intros H. destruct (decide (length (blocks_ a) ≤ length (blocks_ a'))) as [|Hn]; [done|].
  destruct (lookup_lt_is_Some_2 (blocks_ a) (length (blocks_ a'))) as [blk Hb]; [lia|].
  destruct (H _ _ Hb) as (blk' & Hb' & _).
  apply lookup_lt_Some in Hb'. lia.
Qed.

Lemma cstr_of_cells_mono (cells cells' : block) s :
  (∀ i c, cells !! i = Some (Some c) → cells' !! i = Some (Some c)) →
  cstr_of_cells cells = Some s → cstr_of_cells cells' = Some s.
Proof.
  revert cells' s. induction cells as [|[c|] rest IH]; intros cells' s Hm Hs; try done.
  pose proof (Hm 0 c eq_refl) as H0.
  destruct cells' as [|c' rest']; [done|]. simpl in H0. injection H0 as ->.
  simpl in *. destruct (Ascii.eqb c zero); [done|].
  destruct (cstr_of_cells rest) as [t|] eqn:Ht; [|done].
  rewrite (IH rest' t); [done| |done].
  intros i d Hi. apply (Hm (S i) d Hi).
Qed.

Lemma read_cstr_extends a a' p s :
  arena_extends a a' → read_cstr a p = Some s → read_cstr a' p = Some s.
Proof.
  intros Hx. destruct p as [| |b off]; simpl; try done.
  destruct (blocks_ a !! b) as [blk|] eqn:Hb; [|done]. simpl.
  destruct (Hx _ _ Hb) as (blk' & -> & _ & Hm). simpl.
  apply cstr_of_cells_mono. intros i c. rewrite !lookup_drop. apply Hm.
Qed.

Lemma read_byte_extends a a' p i c :
  arena_extends a a' → read_byte a p i = Some c → read_byte a' p i = Some c.
Proof.
  intros Hx. destruct p as [| |b off]; simpl; try done.
  destruct (blocks_ a !! b) as [blk|] eqn:Hb; [|done]. simpl.
  destruct (Hx _ _ Hb) as (blk' & -> & _ & Hm). simpl.
  destruct (blk !! (off + i)) as [[d|]|] eqn:Hd; simpl; try done.
  intros [= ->]. by rewrite (Hm _ _ Hd).
Qed.

Lemma store_string_ok s a b blk :
  current_block_ a = Some b → blocks_ a !! b = Some blk →
  current_offset_ a + (String.length s + 1) ≤ length blk →
  (∀ i, current_offset_ a ≤ i → i < length blk → blk !! i = Some None) →
  ∃ blk' a',
    store_string s a = Some (block_ptr b (current_offset_ a), a')
    ∧ a' = mkStringArena (<[b := blk']> (blocks_ a)) (Some b)
             (current_offset_ a + (String.length s + 1)) (block_size_ a)
    ∧ length blk' = length blk
    ∧ (length blk = block_size_ a → arena_wf a')
    ∧ arena_extends a a'
    ∧ read_cstr a' (block_ptr b (current_offset_ a)) = Some (until_nul s)
    ∧ (∀ i, i < String.length s + 1 →
         read_byte a' (block_ptr b (current_offset_ a)) i = c_str s !! i).
Proof.
  intros Hcur Hblk Hroom Hfree.
  destruct (memcpy_Some blk (current_offset_ a) (c_str s))
    as (blk' & Hcpy & Hlen & Hdrop & Hlow & Hhigh).
  { rewrite length_c_str. lia. }
  rewrite length_c_str in Hdrop, Hhigh.
  assert (Hb : b < length (blocks_ a)) by (eapply lookup_lt_Some; eauto).
  exists blk'. eexists. split.
  { unfold store_string. rewrite Hcur. simpl. rewrite Hblk. simpl.
    rewrite Hcpy. simpl. reflexivity. }
  split; [reflexivity|]. split; [done|].
  split; [|split; [|split]].
  - intros Hsz b' [= <-]. exists blk'. simpl.
    rewrite list_lookup_insert_eq by done.
    split; [done|]. split; [congruence|].
    intros i Hi Hi'. rewrite Hhigh by lia. apply Hfree; lia.
  - intros b' blk0 Hb'. simpl. destruct (decide (b' = b)) as [->|Hne].
    + rewrite list_lookup_insert_eq by done. exists blk'.
      split; [done|]. rewrite Hblk in Hb'. injection Hb' as <-.
      split; [done|]. intros i c Hi.
      destruct (decide (i < current_offset_ a)) as [Hlt|Hge].
      * by rewrite Hlow.
      * rewrite Hfree in Hi; [done|lia|]. eapply lookup_lt_Some; eauto.
    + rewrite list_lookup_insert_ne by done. eauto using block_extends_refl.
  - simpl. rewrite list_lookup_insert_eq by done. simpl.
    rewrite Hdrop. apply cstr_of_cells_c_str.
  - intros i Hi. simpl. rewrite list_lookup_insert_eq by done. simpl.
    rewrite <- lookup_drop, Hdrop.
    rewrite lookup_app_l by (rewrite length_fmap, length_c_str; lia).
    rewrite list_lookup_fmap.
    destruct (c_str s !! i) eqn:Hc; [done|].
    apply lookup_ge_None in Hc. rewrite length_c_str in Hc. lia.
Qed.

Lemma allocate_fits s a o :
  arena_wf a → needs_new_block s a = false →
  ∃ b a',
    allocate s a o = Some (block_ptr b (align_up (current_offset_ a)), a', o)
    ∧ current_block_ a = Some b
    ∧ current_block_ a' = Some b
    ∧ length (blocks_ a') = length (blocks_ a)
    ∧ block_size_ a' = block_size_ a
    ∧ arena_wf a' ∧ arena_extends a a'
    ∧ read_cstr a' (block_ptr b (align_up (current_offset_ a))) = Some (until_nul s)
    ∧ (∀ i, i < String.length s + 1 →
         read_byte a' (block_ptr b (align_up (current_offset_ a))) i = c_str s !! i).
Proof.
  intros Hwf Hfit. unfold needs_new_block in Hfit.
  apply orb_false_iff in Hfit as [Hcur Hsz].
  apply bool_decide_eq_false in Hcur. apply Nat.ltb_ge in Hsz.
  destruct (current_block_ a) as [b|] eqn:Hb; [|done].
  destruct (Hwf b Hb) as (blk & Hblk & Hlen & Hfree).
  assert (Hup : current_offset_ a ≤ align_up (current_offset_ a)).
  { unfold align_up. destruct (_ =? _); lia. }
  destruct (store_string_ok s
              (mkStringArena (blocks_ a) (Some b) (align_up (current_offset_ a))
                             (block_size_ a)) b blk)
    as (blk' & a' & Hst & -> & Hlen' & Hwf' & Hext & Hrd & Hby); simpl; try done.
  { lia. }
  { intros i Hi Hi'. apply Hfree; lia. }
  simpl in *. exists b. eexists. split.
  { unfold allocate. simpl. rewrite Hb. simpl.
    replace (_ <? _) with false by (symmetry; apply Nat.ltb_ge; lia).
    simpl. rewrite Hst. reflexivity. }
  simpl. rewrite length_insert. repeat split; try done.
  by apply Hwf'.
Qed.

Lemma allocate_new_block s a o o' :
  needs_new_block s a = true → malloc_succeeds o = (true, o') →
  ∃ blk a',
    allocate s a o = Some (block_ptr (length (blocks_ a)) 0, a', o')
    ∧ blocks_ a' = blocks_ a ++ [blk]
    ∧ length blk = Nat.max (block_size_ a) (String.length s + 1)
    ∧ current_block_ a' = Some (length (blocks_ a))
    ∧ block_size_ a' = Nat.max (block_size_ a) (String.length s + 1)
    ∧ current_offset_ a' = String.length s + 1
    ∧ arena_wf a' ∧ arena_extends a a'
    ∧ read_cstr a' (block_ptr (length (blocks_ a)) 0) = Some (until_nul s)
    ∧ (∀ i, i < String.length s + 1 →
         read_byte a' (block_ptr (length (blocks_ a)) 0) i = c_str s !! i).
Proof.
  intros Hneed Hok. unfold needs_new_block in Hneed.
  set (n := Nat.max (block_size_ a) (String.length s + 1)).
  set (a1 := mkStringArena (blocks_ a ++ [replicate n None])
                           (Some (length (blocks_ a))) 0 n).
  assert (Hlk : blocks_ a1 !! length (blocks_ a) = Some (replicate n None)).
  { simpl. rewrite lookup_app_r by lia. by rewrite Nat.sub_diag. }
  destruct (store_string_ok s a1 (length (blocks_ a)) (replicate n None))
    as (blk' & a' & Hst & -> & Hlen' & Hwf' & Hext & Hrd & Hby); simpl; try done.
  { rewrite length_replicate. lia. }
  { intros i _ Hi. rewrite length_replicate in Hi. by apply lookup_replicate_2. }
  rewrite length_replicate in Hlen'.
  exists blk'. eexists. split.
  { unfold allocate. simpl. rewrite Hneed, Hok. fold n. fold a1.
    rewrite Hst. reflexivity. }
  simpl in *. split.
  { rewrite insert_app_r_alt by lia. by rewrite Nat.sub_diag. }
  repeat split; try done.
  - apply Hwf'. by rewrite length_replicate.
  - intros b blk Hb. apply Hext. simpl.
    rewrite lookup_app_l; [done|]. eapply lookup_lt_Some; eauto.
Qed.

Lemma allocate_fallback s a o o' :
  needs_new_block s a = true → malloc_succeeds o = (false, o') →
  allocate s a o
  = Some (empty_str,
          mkStringArena (blocks_ a) None (align_up (current_offset_ a))
                        (block_size_ a), o').
Proof.
  intros Hneed Hok. unfold needs_new_block in Hneed.
  unfold allocate. simpl. by rewrite Hneed, Hok.
Qed.

(** Every call returns, with a pointer that is not null and reads back
    as the string (or as "" on the fallback path). *)
Lemma allocate_spec s a o :
  arena_wf a →
  ∃ p a' o',
    allocate s a o = Some (p, a', o')
    ∧ arena_wf a' ∧ arena_extends a a'
    ∧ p ≠ null_ptr
    ∧ read_cstr a' p
      = Some (match p with empty_str => EmptyString | _ => until_nul s end)
    ∧ (p ≠ empty_str →
       ∀ i, i < String.length s + 1 → read_byte a' p i = c_str s !! i).
Proof.
  intros Hwf. destruct (needs_new_block s a) eqn:Hneed.
  - destruct (malloc_succeeds o) as [[] o'] eqn:Hok.
    + destruct (allocate_new_block s a o o' Hneed Hok)
        as (blk & a' & -> & _ & _ & _ & _ & _ & Hwf' & Hext & Hrd & Hby).
      by exists (block_ptr (length (blocks_ a)) 0), a', o'.
    + rewrite (allocate_fallback s a o o' Hneed Hok).
      eexists _, _, _. split; [done|]. split; [done|].
      split; [|done]. intros b blk Hb. eauto using block_extends_refl.
  - destruct (allocate_fits s a o Hwf Hneed)
      as (b & a' & -> & _ & _ & _ & _ & Hwf' & Hext & Hrd & Hby).
    by exists (block_ptr b (align_up (current_offset_ a))), a', o.
Qed.

Lemma new_StringArena_wf bs : arena_wf (new_StringArena bs).
Proof. intros b Hb. discriminate. Qed.

Lemma allocate_all_spec ss a o :
  arena_wf a →
  ∃ ps a' o',
    allocate_all ss a o = Some (ps, a', o')
    ∧ arena_wf a' ∧ arena_extends a a'
    ∧ Forall (λ p, p ≠ null_ptr ∧ is_Some (read_cstr a' p)) ps.
Proof.
  revert a o. induction ss as [|s ss IH]; intros a o Hwf.
  - exists [], a, o. eauto using arena_extends_refl.
  - destruct (allocate_spec s a o Hwf)
      as (p & a1 & o1 & Hal & Hwf1 & Hx1 & Hp & Hrd & _).
    destruct (IH a1 o1 Hwf1) as (ps & a2 & o2 & Hall & Hwf2 & Hx2 & Hps).
    exists (p :: ps), a2, o2. simpl. rewrite Hal. simpl. rewrite Hall. simpl.
    split; [done|]. split; [done|].
    split; [eauto using arena_extends_trans|].
    constructor; [|done]. split; [done|].
    eexists. eapply read_cstr_extends; eauto.
Qed.

Lemma store_string_block_size s a p a' :
  store_string s a = Some (p, a') → block_size_ a' = block_size_ a.
Proof.
  unfold store_string. intros Hst.
  destruct (current_block_ a) as [b|]; [|done]. simpl in Hst.
  destruct (blocks_ a !! b) as [blk|]; [|done]. simpl in Hst.
  destruct (memcpy blk (current_offset_ a) (c_str s)) as [blk'|]; [|done].
  by injection Hst as _ <-.
Qed.

(** [block_size_] never decreases. *)
Lemma allocate_block_size s a o p a' o' :
  allocate s a o = Some (p, a', o') → block_size_ a ≤ block_size_ a'.
Proof.
  unfold allocate. cbn [blocks_ current_block_ current_offset_ block_size_].
  destruct (_ || _).
  - destruct (malloc_succeeds o) as [[] o1].
    + destruct (store_string s _) as [[p1 a1]|] eqn:Hst; [|done].
      intros [= _ <- _]. apply store_string_block_size in Hst.
      rewrite Hst. simpl. lia.
    + by intros [= _ <- _].
  - destruct (store_string s _) as [[p1 a1]|] eqn:Hst; [|done].
    intros [= _ <- _]. apply store_string_block_size in Hst. by rewrite Hst.
Qed.

Lemma allocate_all_block_size ss a o ps a' o' :
  allocate_all ss a o = Some (ps, a', o') → block_size_ a ≤ block_size_ a'.
Proof.
  revert a o ps a' o'.
  induction ss as [|s ss IH]; intros a o ps a' o' Hall; simpl in Hall.
  - by injection Hall as _ <- _.
  - destruct (allocate s a o) as [[[p a1] o1]|] eqn:Hal; [|done]. simpl in Hall.
    destruct (allocate_all ss a1 o1) as [[[ps1 a2] o2]|] eqn:Hall1; [|done].
    injection Hall as _ <- _.
    apply allocate_block_size in Hal. apply IH in Hall1. lia.
Qed.

(** C6.  Whatever was allocated before and whatever is allocated after,
    a pointer returned by [allocate] keeps reading as the same
    null-terminated string, byte for byte; the later calls leave every
    block of the arena in place, with its size and every byte written so
    far (the arena only appends). *)
Theorem allocate_keeps_earlier_strings
    (bs : nat) (ss1 : list string) (s : string) (ss2 : list string) (o : oracle) :
  ∃ ps1 a1 o1 p a2 o2 ps2 a3 o3,
    allocate_all ss1 (new_StringArena bs) o = Some (ps1, a1, o1)
    ∧ allocate s a1 o1 = Some (p, a2, o2)
    ∧ allocate_all ss2 a2 o2 = Some (ps2, a3, o3)
    ∧ read_cstr a2 p
      = Some (match p with empty_str => EmptyString | _ => until_nul s end)
    ∧ read_cstr a3 p = read_cstr a2 p
    ∧ (∀ i c, read_byte a2 p i = Some c → read_byte a3 p i = Some c)
    ∧ (p ≠ empty_str →
       ∀ i, i < String.length s + 1 → read_byte a3 p i = c_str s !! i)
    ∧ arena_extends a1 a2 ∧ arena_extends a2 a3.
Proof.
  destruct (allocate_all_spec ss1 (new_StringArena bs) o (new_StringArena_wf bs))
    as (ps1 & a1 & o1 & H1 & Hwf1 & _ & _).
  destruct (allocate_spec s a1 o1 Hwf1)
    as (p & a2 & o2 & H2 & Hwf2 & Hx12 & _ & Hrd & Hby).
  destruct (allocate_all_spec ss2 a2 o2 Hwf2)
    as (ps2 & a3 & o3 & H3 & _ & Hx23 & _).
  exists ps1, a1, o1, p, a2, o2, ps2, a3, o3.
  repeat (split; [done|]).
  split; [rewrite Hrd; eauto using read_cstr_extends|].
  split; [eauto using read_byte_extends|].
  split; [|done].
  intros Hp i Hi. specialize (Hby Hp i Hi).
  destruct (c_str s !! i) as [c|] eqn:Hc.
  - eauto using read_byte_extends.
  - apply lookup_ge_None in Hc. rewrite length_c_str in Hc. lia.
Qed.

(** C6 on a run: "run" is allocated after "Dogs" in an arena of 16-byte
    blocks; two more strings follow, the second in a block of its own;
    the pointer still reads "run". *)
Lemma allocate_keeps_earlier_strings_witness :
  ∃ ps1 a1 o1 p a2 o2 ps2 a3 o3,
    allocate_all ["Dogs"%string] (new_StringArena 16) [] = Some (ps1, a1, o1)
    ∧ allocate "run" a1 o1 = Some (p, a2, o2)
    ∧ allocate_all ["."; "Cats sleep, dogs run."]%string a2 o2 = Some (ps2, a3, o3)
    ∧ p = block_ptr 0 8
    ∧ length (blocks_ a3) = 3
    ∧ read_cstr a3 p = Some "run"%string.
Proof.
  destruct (allocate_keeps_earlier_strings 16 ["Dogs"%string] "run"
              ["."; "Cats sleep, dogs run."]%string [])
    as (ps1 & a1 & o1 & p & a2 & o2 & ps2 & a3 & o3 & H1 & H2 & H3 & Hrd & Hsame & _).
  exists ps1, a1, o1, p, a2, o2, ps2, a3, o3.
  do 3 (split; [assumption|]).
  vm_compute in H1. injection H1 as <- <- <-.
  vm_compute in H2. injection H2 as <- <- <-.
  vm_compute in H3. injection H3 as <- <- <-.
  split; [reflexivity|]. split; [reflexivity|].
  rewrite Hsame. exact Hrd.
Defined.

(** C7, as amended.  When the aligned cursor plus the requested size
    exceeds [block_size_] (or there is no current block) and [malloc]
    answers, the new block has [max(block_size_, required)] bytes, where
    [block_size_] is the size recorded for the latest block (the default
    until a longer string raised it); it is appended to [blocks_] after
    the old blocks, which are all kept, and becomes the current block. *)
Theorem allocate_new_block_size (s : string) (a : StringArena) (o o' : oracle) :
  needs_new_block s a = true →
  malloc_succeeds o = (true, o') →
  ∃ blk a',
    allocate s a o = Some (block_ptr (length (blocks_ a)) 0, a', o')
    ∧ blocks_ a' = blocks_ a ++ [blk]
    ∧ length blk = Nat.max (block_size_ a) (String.length s + 1)
    ∧ current_block_ a' = Some (length (blocks_ a))
    ∧ current_block_length a' = Some (length blk)
    ∧ block_size_ a' = length blk
    ∧ block_size_ a ≤ block_size_ a'.
Proof.
  intros Hneed Hok.
  destruct (allocate_new_block s a o o' Hneed Hok)
    as (blk & a' & Hal & Hbl & Hlen & Hcur & Hsz & _).
  exists blk, a'. repeat (split; [done|]).
  split; [|split; lia].
  unfold current_block_length. rewrite Hcur, Hbl. simpl.
  rewrite lookup_app_r by lia. by rewrite Nat.sub_diag.
Qed.

(** C7 on a run, in an arena of 32-byte blocks: the first string takes
    22 bytes of block 0; the cursor is rounded up to 24, and the 10
    bytes of the second string do not fit in the 8 that remain.  The
    call appends a block of [max(32, 10)] bytes, which becomes the
    current block; block 0 stays in [blocks_], and the first string
    still reads from it. *)
Lemma allocate_new_block_size_witness :
  let a1 := mkStringArena
              [(Some <$> c_str "Dogs run. Cats sleep.") ++ replicate 10 None]
              (Some 0) 22 32 in
  allocate "Dogs run. Cats sleep." (new_StringArena 32) []
  = Some (block_ptr 0 0, a1, [])
  ∧ current_block_length a1 = Some 32
  ∧ needs_new_block "Dogs run." a1 = true
  ∧ malloc_succeeds [] = (true, [])
  ∧ ∃ blk a',
      (allocate "Dogs run." a1 [] = Some (block_ptr (length (blocks_ a1)) 0, a', [])
       ∧ blocks_ a' = blocks_ a1 ++ [blk]
       ∧ length blk = Nat.max (block_size_ a1) (String.length "Dogs run." + 1)
       ∧ current_block_ a' = Some (length (blocks_ a1))
       ∧ current_block_length a' = Some (length blk)
       ∧ block_size_ a' = length blk
       ∧ block_size_ a1 ≤ block_size_ a')
      ∧ length (blocks_ a') = 2 ∧ length blk = 32
      ∧ read_cstr a' (block_ptr 0 0) = Some "Dogs run. Cats sleep."%string
      ∧ read_cstr a' (block_ptr 1 0) = Some "Dogs run."%string.
Proof.
  intros a1. split; [vm_compute; reflexivity|].
  do 3 (split; [reflexivity|]).
  destruct (allocate_new_block_size "Dogs run." a1 [] [] eq_refl eq_refl)
    as (blk & a' & Hal & Hbl & Hlen & Hrest).
  exists blk, a'.
  split; [by repeat split; try apply Hrest|].
  split; [by rewrite Hbl, length_app|]. split; [exact Hlen|].
  vm_compute in Hal. injection Hal as <-. split; vm_compute; reflexivity.
Defined.

(** C7, as stated, fails: after a string of 9999 bytes the arena records
    a block size of 10000, and the block allocated for the next string
    has 10000 bytes, not [max(DEFAULT_BLOCK_SIZE, required)] = 8192. *)
Lemma allocate_new_block_size_counterexample :
  (allocate (string_of_list_ascii (replicate (10 * 1000 - 1) "a"%char))
            (new_StringArena DEFAULT_BLOCK_SIZE) [] ≫= λ '(_, a1, o1),
   allocate "b" a1 o1 ≫= λ '(_, a2, _),
   Some (needs_new_block "b" a1, length (blocks_ a2), current_block_length a2))
  = Some (true, 2, Some (10 * 1000))
  ∧ 10 * 1000 ≠ Nat.max DEFAULT_BLOCK_SIZE (String.length "b" + 1).
Proof.
  split; [vm_compute; reflexivity|].
  apply Nat.eqb_neq. vm_compute. reflexivity.
Qed.

(** C8.  From a fresh arena, every call of every run returns, and
    returns a pointer that is not null; when [malloc] is asked for a
    block and refuses, the pointer is the static [empty_str], which
    reads as the empty string whatever the arena holds. *)
Theorem allocate_never_null
    (bs : nat) (ss : list string) (s : string) (o : oracle) :
  ∃ ps a1 o1 p a2 o2,
    allocate_all ss (new_StringArena bs) o = Some (ps, a1, o1)
    ∧ allocate s a1 o1 = Some (p, a2, o2)
    ∧ p ≠ null_ptr
    ∧ is_Some (read_cstr a2 p)
    ∧ (needs_new_block s a1 = true → (malloc_succeeds o1).1 = false →
       p = empty_str ∧ ∀ a, read_cstr a empty_str = Some EmptyString).
Proof.
  destruct (allocate_all_spec ss (new_StringArena bs) o (new_StringArena_wf bs))
    as (ps & a1 & o1 & H1 & Hwf1 & _ & _).
  destruct (allocate_spec s a1 o1 Hwf1)
    as (p & a2 & o2 & H2 & _ & _ & Hp & Hrd & _).
  exists ps, a1, o1, p, a2, o2. do 3 (split; [done|]).
  split; [by rewrite Hrd|].
  intros Hneed Hfail. destruct (malloc_succeeds o1) as [ok o1'] eqn:Hok.
  simpl in Hfail. subst ok.
  rewrite (allocate_fallback s a1 o1 o1' Hneed Hok) in H2.
  injection H2 as <- _ _. done.
Qed.

(** C8 on a run: the first call finds no block and [malloc] refuses;
    the call returns [empty_str], which reads as "". *)
Lemma allocate_never_null_witness :
  ∃ p a2 o2,
    allocate "Dogs" (new_StringArena DEFAULT_BLOCK_SIZE) [false] = Some (p, a2, o2)
    ∧ p = empty_str
    ∧ read_cstr a2 p = Some EmptyString.
Proof.
  destruct (allocate_never_null DEFAULT_BLOCK_SIZE [] "Dogs" [false])
    as (ps & a1 & o1 & p & a2 & o2 & H1 & H2 & _ & _ & Hfallback).
  injection H1 as <- <- <-.
  exists p, a2, o2. split; [exact H2|].
  destruct (Hfallback eq_refl eq_refl) as [-> Hread].
  split; [reflexivity | apply Hread].
Defined.

(** ** Memory operations *)

Lemma bind_Some {A B} (c : M A) (k : A → M B) m r :
  (c ≫= k) m = Some r ↔ ∃ x m', c m = Some (x, m') ∧ k x m' = Some r.
Proof.
  unfold mbind, M_bind. destruct (c m) as [[x m']|]; split.
  - eauto.
  - by intros (? & ? & [= <- <-] & ?).
  - done.
  - by intros (? & ? & ? & ?).
Qed.

Lemma ret_Some {A} (x y : A) m m' :
  (mret x : M A) m = Some (y, m') ↔ x = y ∧ m = m'.
Proof. unfold mret, M_ret. split; [by intros [= -> ->] | by intros [-> ->]]. Qed.

Lemma grows_refl pa m : grows pa m m.
Proof. split; eauto using arena_extends_refl. Qed.

Lemma grows_trans pa m1 m2 m3 :
  grows pa m1 m2 → grows pa m2 m3 → grows pa m1 m3.
Proof.
  intros [N1 B1 A1 R1] [N2 B2 A2 R2]. split.
  - lia.
  - intros a Ha. rewrite B2 by lia. by apply B1.
  - intros a Hne Ha. rewrite A2 by (done || lia). by apply A1.
  - intros ar Har Hwf.
    destruct (R1 ar Har Hwf) as (ar2 & Har2 & Hwf2 & Hx12).
    destruct (R2 ar2 Har2 Hwf2) as (ar3 & Har3 & Hwf3 & Hx23).
    eauto using arena_extends_trans.
Qed.

Lemma arena_allocate_spec pa s m p m' ar :
  arena_allocate pa s m = Some (p, m') →
  mem_arenas m !! pa = Some ar → arena_wf ar →
  ∃ ar', mem_arenas m' !! pa = Some ar' ∧ arena_wf ar' ∧ arena_extends ar ar'
    ∧ field_at ar' p s ∧ grows pa m m'.
Proof.
  unfold arena_allocate. intros Hrun Har Hwf. rewrite Har in Hrun. simpl in Hrun.
  destruct (allocate_spec s ar (mem_oracle m) Hwf)
    as (p0 & ar' & o' & Hal & Hwf' & Hext & Hp & Hrd & _).
  rewrite Hal in Hrun. simpl in Hrun. injection Hrun as <- <-.
  exists ar'. simpl. rewrite lookup_insert_eq.
  do 3 (split; [done|]). split; [by split|].
  split; simpl.
  - lia.
  - done.
  - intros a Hne _. by rewrite lookup_insert_ne.
  - intros ar0 Har0 _. rewrite Har in Har0. injection Har0 as <-.
    exists ar'. by rewrite lookup_insert_eq.
Qed.

Lemma malloc_spec n m p m' :
  malloc n m = Some (p, m') →
  mem_arenas m' = mem_arenas m
  ∧ match p with
    | Some a => a = mem_next m ∧ mem_next m' = S a
                ∧ mem_blocks m' = <[a := uninitialised n]> (mem_blocks m)
    | None => mem_next m' = mem_next m ∧ mem_blocks m' = mem_blocks m
    end.
Proof.
  unfold malloc. destruct (malloc_succeeds (mem_oracle m)) as [[] o].
  - by intros [= <- <-].
  - by intros [= <- <-].
Qed.

Lemma memcpy_cells_spec dst src m u m' :
  memcpy_cells dst src m = Some (u, m') →
  mem_arenas m' = mem_arenas m ∧ mem_next m' = mem_next m
  ∧ mem_blocks m' = <[dst := src]> (mem_blocks m).
Proof.
  unfold memcpy_cells. destruct (mem_blocks m !! dst); [|done].
  case_decide; [|done]. by intros [= <- <-].
Qed.

(** [malloc] followed by [memcpy]: a fresh array, nothing else touched. *)
Lemma malloc_memcpy_spec pa src m a m1 u m2 :
  malloc (cells_length src) m = Some (Some a, m1) →
  memcpy_cells a src m1 = Some (u, m2) →
  a = mem_next m ∧ mem_next m2 = S a
  ∧ mem_blocks m2 !! a = Some src
  ∧ grows pa m m2.
Proof.
  intros Hm Hc. apply malloc_spec in Hm as (Ha1 & -> & Hn1 & Hb1).
  apply memcpy_cells_spec in Hc as (Ha2 & Hn2 & Hb2).
  split; [done|]. split; [congruence|].
  split; [by rewrite Hb2, lookup_insert_eq|].
  split.
  - lia.
  - intros a Ha. rewrite Hb2, Hb1, !lookup_insert_ne by lia. done.
  - intros a _ _. by rewrite Ha2, Ha1.
  - intros ar Har Hwf. exists ar. rewrite Ha2, Ha1.
    eauto using arena_extends_refl.
Qed.

(** ** Materialisation *)

Lemma field_at_extends ar ar' p s :
  arena_extends ar ar' → field_at ar p s → field_at ar' p s.
Proof. intros Hx [Hp Hr]. split; eauto using read_cstr_extends. Qed.

Lemma token_of_extends pl ar ar' t w :
  arena_extends ar ar' → token_of pl ar t w → token_of pl ar' t w.
Proof.
  intros Hx (H1 & H2 & H3 & F1 & F2 & F3 & F4 & F5 & F6).
  repeat split; try done; eapply field_at_extends; done.
Qed.

Lemma sentence_in_addresses pl m ar lo hi svs ss x :
  Forall2 (sentence_in pl m ar lo hi) svs ss →
  x ∈ omap sv_tokens svs → lo ≤ x < hi.
Proof.
  intros Hall Hx. apply list_elem_of_omap in Hx as (sv & Hsv & Hx).
  apply list_elem_of_lookup in Hsv as [i Hi].
  destruct (Forall2_lookup_l _ _ _ _ _ Hall Hi) as (s & _ & a & toks & Ha & Hb & _).
  congruence.
Qed.

Lemma sentence_in_grows pl pa m m' ar ar' lo hi lo' hi' sv s :
  grows pa m m' → hi ≤ mem_next m → arena_extends ar ar' →
  lo' ≤ lo → hi ≤ hi' →
  sentence_in pl m ar lo hi sv s → sentence_in pl m' ar' lo' hi' sv s.
Proof.
  intros Hg Hhi Hx Hlo Hhi' (a & toks & Hsv & Ha & Hb & Hc & Hts).
  exists a, toks. split; [done|]. split; [lia|].
  split; [by rewrite (grows_blocks _ _ _ Hg) by lia|]. split; [done|].
  eapply Forall2_impl; [done|]. eauto using token_of_extends.
Qed.

(** One call of [arena->allocate] inside a successful run. *)
Ltac allocate_step H :=
  let p := fresh "p" in let m := fresh "m" in
  let Hal := fresh "Hal" in
  apply bind_Some in H as (p & m & Hal & H);
  match goal with
  | Har : mem_arenas _ !! _ = Some ?ar, Hwf : arena_wf ?ar |- _ =>
      let ar' := fresh "ar" in
      let Har' := fresh "Har" in let Hwf' := fresh "Hwf" in
      let Hx := fresh "Hx" in let Hf := fresh "Hf" in let Hg := fresh "Hg" in
      destruct (arena_allocate_spec _ _ _ _ _ _ Hal Har Hwf)
        as (ar' & Har' & Hwf' & Hx & Hf & Hg);
      clear Hal Har Hwf
  end.

Lemma materialize_word_spec pl pa w m t m' ar :
  materialize_word pl pa w m = Some (t, m') →
  mem_arenas m !! pa = Some ar → arena_wf ar →
  ∃ ar', mem_arenas m' !! pa = Some ar' ∧ arena_wf ar' ∧ arena_extends ar ar'
    ∧ token_of pl ar' t w ∧ grows pa m m'.
Proof.
  intros Hrun Har Hwf. unfold materialize_word in Hrun.
  destruct (match word_token_range w with
            | Some (start, end_) => (start, end_)
            | None => (0, 0)
            end) as [start end_] eqn:Hrange.
  assert (Hr : (start, end_) = default (0, 0) (word_token_range w)).
  { destruct (word_token_range w) as [[? ?]|]; simpl; congruence. }
  destruct pl as [|do_parse];
    do 6 allocate_step Hrun;
    apply ret_Some in Hrun as [<- <-];
    (exists ar5; split; [done|]; split; [done|];
     split; [eauto 10 using arena_extends_trans|];
     split; [|eauto 10 using grows_trans];
     repeat split; simpl; try done;
     match goal with
     | H : field_at _ ?p _ |- read_cstr _ ?p = _ =>
         eapply field_at_extends in H;
         [apply H | eauto 10 using arena_extends_trans, arena_extends_refl]
     | H : field_at _ ?p _ |- ?p ≠ _ => apply H
     end).
Qed.

Lemma materialize_spec pl pa ws toks0 m toks m' ar :
  materialize pl pa ws toks0 m = Some (toks, m') →
  mem_arenas m !! pa = Some ar → arena_wf ar →
  ∃ ar' new,
    mem_arenas m' !! pa = Some ar' ∧ arena_wf ar' ∧ arena_extends ar ar'
    ∧ grows pa m m'
    ∧ toks = toks0 ++ new
    ∧ Forall2 (token_of pl ar') new (filter (λ w, (0 < word_id w)%Z) ws).
Proof.
  revert toks0 m ar. induction ws as [|w ws IH]; intros toks0 m ar Hrun Har Hwf.
  - apply ret_Some in Hrun as [<- <-]. exists ar, [].
    rewrite app_nil_r. eauto 10 using arena_extends_refl, grows_refl.
  - simpl in Hrun. destruct (Z.leb_spec (word_id w) 0) as [Hle|Hgt].
    + rewrite filter_cons_False by lia. eauto.
    + rewrite filter_cons_True by lia.
      apply bind_Some in Hrun as (t & m1 & Hw & Hrun).
      destruct (materialize_word_spec _ _ _ _ _ _ _ Hw Har Hwf)
        as (ar1 & Har1 & Hwf1 & Hx1 & Ht & Hg1).
      destruct (IH _ _ _ Hrun Har1 Hwf1)
        as (ar2 & new & Har2 & Hwf2 & Hx2 & Hg2 & -> & Hnew).
      exists ar2, (t :: new). split; [done|]. split; [done|].
      split; [eauto using arena_extends_trans|].
      split; [eauto using grows_trans|].
      split; [by rewrite <- app_assoc|].
      constructor; [eauto using token_of_extends | done].
Qed.

Lemma malloc_None_grows pa n m m' :
  malloc n m = Some (None, m') → grows pa m m'.
Proof.
  intros Hm. apply malloc_spec in Hm as (Ha & Hn & Hb). split.
  - lia.
  - intros a _. by rewrite Hb.
  - intros a _ _. by rewrite Ha.
  - intros ar Har Hwf. exists ar. rewrite Ha. eauto using arena_extends_refl.
Qed.

(** ** The sentence loop *)

Lemma sentence_loop_spec pl mdl pa next final svs0 m svs error ok m' ar lo done0 :
  sentence_loop pl mdl pa next final svs0 m = Some ((svs, error, ok), m') →
  mem_arenas m !! pa = Some ar → arena_wf ar →
  lo ≤ mem_next m →
  Forall2 (sentence_in pl m ar lo (mem_next m)) svs0 done0 →
  NoDup (omap sv_tokens svs0) →
  ∃ ar' done rest,
    mem_arenas m' !! pa = Some ar' ∧ arena_wf ar' ∧ grows pa m m'
    ∧ Forall2 (sentence_in pl m' ar' lo (mem_next m')) svs
        (done0 ++ (engine_sentence pl mdl <$> done))
    ∧ NoDup (omap sv_tokens svs)
    ∧ next.*1 = done ++ rest
    ∧ loop_exit pl mdl final rest error ok.
Proof.
  revert svs0 m ar done0.
  induction next as [|[s e] next IH];
    intros svs0 m ar done0 Hrun Har Hwf Hlo Hold Hnd.
  - apply ret_Some in Hrun as [[= <- <- <-] <-]. exists ar, [], [].
    rewrite app_nil_r. do 6 (split; [done || apply grows_refl|]). by left.
  - simpl in Hrun. case_decide as He.
    2:{ apply ret_Some in Hrun as [[= <- <- <-] <-]. exists ar, [], (s :: next.*1).
        rewrite app_nil_r. do 6 (split; [done || apply grows_refl|]).
        right. eauto. }
    destruct (run_engine pl mdl s) as [[ok1 s1] e1] eqn:Heng.
    destruct ok1; simpl in Hrun.
    2:{ apply ret_Some in Hrun as [[= <- <- <-] <-]. exists ar, [], (s :: next.*1).
        rewrite app_nil_r. do 6 (split; [done || apply grows_refl|]).
        right. split; [done|].
        destruct (decide (e1 = EmptyString)) as [->|]; [right|by left].
        exists s. by rewrite Heng. }
    apply bind_Some in Hrun as (toks & m1 & Hmat & Hrun).
    destruct (materialize_spec _ _ _ _ _ _ _ _ Hmat Har Hwf)
      as (ar1 & new & Har1 & Hwf1 & Hx1 & Hg1 & -> & Htoks).
    apply bind_Some in Hrun as ([a|] & m2 & Hmal & Hrun).
    2:{ apply ret_Some in Hrun as [[= <- <- <-] <-].
        pose proof (malloc_None_grows pa _ _ _ Hmal) as Hg2.
        destruct (grows_arena _ _ _ Hg2 _ Har1 Hwf1) as (ar2 & Har2 & Hwf2 & Hx2).
        assert (Hg : grows pa m m2) by eauto using grows_trans.
        exists ar2, [], (s :: next.*1). rewrite app_nil_r.
        split; [done|]. split; [done|]. split; [done|].
        split.
        { eapply Forall2_impl; [done|]. intros sv s0.
          apply (sentence_in_grows pl pa m m2); eauto using arena_extends_trans.
          apply (grows_next _ _ _ Hg). }
        split; [done|]. split; [done|]. right. split; [done|]. by left. }
    apply bind_Some in Hrun as (u & m3 & Hcpy & Hrun).
    destruct (malloc_memcpy_spec pa (token_array ([] ++ new)) _ _ _ _ _ Hmal Hcpy)
      as (-> & Hn3 & Hb3 & Hg3).
    destruct (grows_arena _ _ _ Hg3 _ Har1 Hwf1) as (ar3 & Har3 & Hwf3 & Hx3).
    assert (Hg : grows pa m m3) by eauto using grows_trans.
    pose proof (grows_next _ _ _ Hg1) as Hn1.
    destruct (IH _ _ _ (done0 ++ [s1]) Hrun Har3 Hwf3) as
      (ar' & done & rest & Har' & Hwf' & Hg' & Hall & Hnd' & Hnext & Hexit).
    { lia. }
    { apply Forall2_app.
      - eapply Forall2_impl; [done|]. intros sv s0.
        apply (sentence_in_grows pl pa m m3); eauto using arena_extends_trans.
        lia.
      - constructor; [|constructor].
        exists (mem_next m1), new. simpl. split; [done|]. split; [lia|].
        split; [done|]. split; [done|].
        eapply Forall2_impl; [done|]. eauto using token_of_extends. }
    { rewrite omap_app. apply NoDup_app. split; [done|].
      split; [|apply NoDup_singleton].
      intros x Hx. apply (sentence_in_addresses _ _ _ _ _ _ _ _ Hold) in Hx.
      simpl. rewrite list_elem_of_singleton. lia. }
    exists ar', (s :: done), rest.
    split; [done|]. split; [done|]. split; [eauto using grows_trans|].
    split.
    { rewrite fmap_cons. unfold engine_sentence at 1. rewrite Heng. simpl.
      by rewrite <- app_assoc in Hall. }
    split; [done|]. split; [by rewrite fmap_cons, Hnext|]. done.
Qed.

(** ** Release *)

Lemma free_doc_zero m :
  udpipe_free_doc (Some zero_doc) m = Some (Some zero_doc, m).
Proof. reflexivity. Qed.

Lemma free_doc_result d m r m' :
  udpipe_free_doc (Some d) m = Some (r, m') → r = Some zero_doc.
Proof.
  unfold udpipe_free_doc. intros Hrun.
  apply bind_Some in Hrun as (? & ? & _ & Hrun).
  apply bind_Some in Hrun as (? & ? & _ & Hrun).
  by apply ret_Some in Hrun as [<- _].
Qed.

(** Releasing the temporary built over the local vector [sentences]
    (lines 178-179, 271-272, 366-367, 376-377) is defined only when the
    vector is empty; otherwise it frees the vector's storage. *)
Lemma free_doc_vector svs m r m' :
  udpipe_free_doc (Some (mkDoc (vector_data svs) (length svs) None)) m
  = Some (r, m') →
  svs = [] ∧ m' = m.
Proof.
  unfold udpipe_free_doc. simpl. intros Hrun.
  apply bind_Some in Hrun as (? & m1 & Hr1 & Hrun).
  apply ret_Some in Hr1 as [_ <-].
  apply bind_Some in Hrun as (? & m2 & Hr2 & Hrun).
  apply ret_Some in Hrun as [_ <-].
  destruct svs as [|sv svs]; simpl in Hr2.
  - by apply ret_Some in Hr2 as [_ <-].
  - apply bind_Some in Hr2 as (? & ? & _ & Hr2). discriminate.
Qed.

(** What a failed call leaves behind can be released, and only the
    arena goes. *)
Lemma free_doc_arena_only pa m ar :
  mem_arenas m !! pa = Some ar →
  udpipe_free_doc (Some (mkDoc sentences_null 0 (Some pa))) m
  = Some (Some zero_doc,
          mkMem (mem_oracle m) (delete pa (mem_arenas m)) (mem_blocks m) (mem_next m)).
Proof.
  intros Har. unfold udpipe_free_doc. simpl.
  unfold mbind, M_bind, delete_arena. by rewrite Har.
Qed.

Lemma free_Some a m c :
  mem_blocks m !! a = Some c →
  free (Some a) m
  = Some (tt, mkMem (mem_oracle m) (mem_arenas m) (delete a (mem_blocks m)) (mem_next m)).
Proof. intros Ha. unfold free. by rewrite Ha. Qed.

Lemma omap_tokens_cons sv svs a :
  sv_tokens sv = Some a → omap sv_tokens (sv :: svs) = a :: omap sv_tokens svs.
Proof. intros Ha. simpl. by rewrite Ha. Qed.

(** The loop of lines 203-208 over views that own distinct live arrays. *)
Lemma free_sentence_tokens_ok svs m :
  NoDup (omap sv_tokens svs) →
  Forall (λ sv, ∃ a, sv_tokens sv = Some a ∧ is_Some (mem_blocks m !! a)) svs →
  ∃ m', free_sentence_tokens svs (length svs) m = Some (tt, m')
    ∧ mem_arenas m' = mem_arenas m
    ∧ ∀ a, a ∉ omap sv_tokens svs → mem_blocks m' !! a = mem_blocks m !! a.
Proof.
  revert m. induction svs as [|sv svs IH]; intros m Hnd Hlive.
  - by exists m.
  - apply Forall_cons in Hlive as [(a & Ha & [c Hc]) Hlive].
    rewrite (omap_tokens_cons _ _ _ Ha) in Hnd.
    apply NoDup_cons in Hnd as [Hnotin Hnd].
    destruct (IH (mkMem (mem_oracle m) (mem_arenas m) (delete a (mem_blocks m))
                        (mem_next m)) Hnd) as (m' & Hrun & Har & Hbl).
    { rewrite Forall_forall in Hlive. apply Forall_forall.
      intros sv' Hin. destruct (Hlive sv' Hin) as (a' & Ha' & Hc').
      exists a'. split; [done|]. simpl.
      rewrite lookup_delete_ne; [done|]. intros ->. apply Hnotin.
      apply list_elem_of_omap. eauto. }
    exists m'. split; [|split; [done|]].
    { simpl. unfold mbind, M_bind. by rewrite Ha, (free_Some _ _ _ Hc). }
    intros a' Ha'. rewrite (omap_tokens_cons _ _ _ Ha) in Ha'.
    apply not_elem_of_cons in Ha' as [Hne Ha'].
    rewrite Hbl by done. simpl. by rewrite lookup_delete_ne.
Qed.

(** A populated document can be released: the call is defined, takes
    the arena and the arrays of the document, and zeroes the structure. *)
Lemma free_doc_populated pl m lo hi d ss :
  doc_in pl m lo hi d ss →
  ∃ m', udpipe_free_doc (Some d) m = Some (Some zero_doc, m')
    ∧ ∀ a, a < lo →
        mem_blocks m' !! a = mem_blocks m !! a
        ∧ mem_arenas m' !! a = mem_arenas m !! a.
Proof.
  intros (pa & ar & sa & svs & Hpa & Hpab & Har & _ & Hsa & Hsab & Hb & Hc & Hall & Hnd).
  apply NoDup_cons in Hnd as [Hsa_notin Hnd].
  set (m1 := mkMem (mem_oracle m) (delete pa (mem_arenas m)) (mem_blocks m) (mem_next m)).
  destruct (free_sentence_tokens_ok svs m1 Hnd) as (m2 & Hrun & Har2 & Hbl2).
  { eapply Forall2_Forall_l; [exact Hall|]. apply Forall_true.
    intros sv s (a & toks & Ha & _ & Hba & _). exists a. split; [done|].
    unfold m1. simpl. by rewrite Hba. }
  assert (Hsa2 : mem_blocks m2 !! sa = Some (sentence_array svs)).
  { by rewrite Hbl2. }
  eexists. split.
  { unfold udpipe_free_doc. rewrite Hpa, Hsa, Hc.
    unfold mbind at 1 2, M_bind at 1 2, delete_arena. rewrite Har. fold m1.
    unfold mbind at 1, M_bind at 1. simpl sentences_of. unfold m1 at 1. simpl mem_blocks.
    rewrite Hb. fold m1. rewrite Hrun, (free_Some _ _ _ Hsa2). reflexivity. }
  intros a Ha. simpl. split.
  - rewrite lookup_delete_ne by lia. apply Hbl2.
    intros Hin. apply (sentence_in_addresses _ _ _ _ _ _ _ _ Hall) in Hin. lia.
  - rewrite Har2. simpl. by rewrite lookup_delete_ne by lia.
Qed.

(** ** The structured entry points *)

Lemma tag_structured_unfold mdl text do_parse d :
  udpipe_tag_structured (Some mdl) (Some text) do_parse (Some d)
  = structured (tagging do_parse) mdl EmptyString text.
Proof. reflexivity. Qed.

Lemma tokenize_structured_unfold mdl text opts d :
  udpipe_tokenize_structured (Some mdl) (Some text) opts (Some d)
  = structured tokenizing mdl (default EmptyString opts) text.
Proof. by destruct opts. Qed.

Lemma new_arena_spec m pa m1 :
  new_arena m = Some (pa, m1) →
  pa = mem_next m ∧ mem_next m1 = S pa
  ∧ mem_arenas m1 !! pa = Some (new_StringArena DEFAULT_BLOCK_SIZE)
  ∧ frame m m1.
Proof.
  unfold new_arena. intros [= <- <-]. simpl.
  split; [done|]. split; [done|]. split; [by rewrite lookup_insert_eq|].
  split; simpl; [lia|]. intros a Ha. by rewrite lookup_insert_ne by lia.
Qed.

Lemma frame_grows pa m m1 m2 :
  frame m m1 → pa = mem_next m → grows pa m1 m2 → frame m m2.
Proof.
  intros [Hn Hf] -> Hg. split; [pose proof (grows_next _ _ _ Hg); lia|].
  intros a Ha. destruct (Hf a Ha) as [<- <-].
  split; [apply (grows_blocks _ _ _ Hg); lia|].
  apply (grows_arenas _ _ _ Hg); lia.
Qed.

(** What a call of [structured] that returns has done. *)
Lemma structured_spec pl mdl opts text m r out m' :
  structured pl mdl opts text m = Some ((r, out), m') →
  ∃ ar,
    mem_arenas m' !! mem_next m = Some ar ∧ arena_wf ar ∧ frame m m'
    ∧ ((r = 0%Z ∧ out = Some (mkDoc sentences_null 0 (Some (mem_next m))))
       ∨ (r = 1%Z
          ∧ ∃ reader d done rest ok,
              new_tokenizer mdl opts = Some reader
              ∧ out = Some d
              ∧ doc_in pl m' (mem_next m) (mem_next m') d
                  (engine_sentence pl mdl <$> done)
              ∧ (yields (reader text)).*1 = done ++ rest
              ∧ loop_exit pl mdl (final_error (reader text)) rest EmptyString ok)).
Proof.
  unfold structured. intros Hrun.
  apply bind_Some in Hrun as (pa & m1 & Hnew & Hrun).
  apply new_arena_spec in Hnew as (-> & Hn1 & Har1 & Hf1).
  pose proof (new_StringArena_wf DEFAULT_BLOCK_SIZE) as Hwf1.
  destruct (new_tokenizer mdl opts) as [reader|] eqn:Htok.
  2:{ apply ret_Some in Hrun as [[= <- <-] <-]. eauto 10. }
  apply bind_Some in Hrun as ([[svs error] ok] & m2 & Hloop & Hrun).
  destruct (sentence_loop_spec _ _ _ _ _ _ _ _ _ _ _ _ (mem_next m) [] Hloop Har1 Hwf1)
    as (ar2 & done & rest & Har2 & Hwf2 & Hg2 & Hall & Hnd & Hnext & Hexit);
    [lia|constructor|constructor|].
  simpl in Hall. case_decide as He.
  2:{ apply bind_Some in Hrun as (? & m3 & Hfree & Hrun).
      apply free_doc_vector in Hfree as [_ ->].
      apply ret_Some in Hrun as [[= <- <-] <-].
      exists ar2. eauto 10 using frame_grows. }
  subst error.
  apply bind_Some in Hrun as ([a|] & m3 & Hmal & Hrun).
  2:{ apply ret_Some in Hrun as [[= <- <-] <-].
      pose proof (malloc_None_grows (mem_next m) _ _ _ Hmal) as Hg3.
      destruct (grows_arena _ _ _ Hg3 _ Har2 Hwf2) as (ar3 & Har3 & Hwf3 & _).
      exists ar3. eauto 10 using frame_grows, grows_trans. }
  apply bind_Some in Hrun as (u & m4 & Hcpy & Hrun).
  apply ret_Some in Hrun as [[= <- <-] <-].
  destruct (malloc_memcpy_spec (mem_next m) (sentence_array svs) _ _ _ _ _ Hmal Hcpy)
    as (-> & Hn4 & Hb4 & Hg4).
  destruct (grows_arena _ _ _ Hg4 _ Har2 Hwf2) as (ar4 & Har4 & Hwf4 & Hx4).
  pose proof (grows_next _ _ _ Hg2) as Hn2.
  exists ar4. split; [done|]. split; [done|].
  split; [eauto using frame_grows, grows_trans|].
  right. split; [done|]. eexists reader, _, done, rest, ok.
  do 2 (split; [done|]). split; [|done].
  exists (mem_next m), ar4, (mem_next m2), svs. simpl.
  split; [done|]. split; [lia|]. split; [done|]. split; [done|].
  split; [done|]. split; [lia|]. split; [done|]. split; [done|].
  split.
  { eapply Forall2_impl; [done|]. intros sv s.
    apply (sentence_in_grows pl (mem_next m) m2 m4); eauto; lia. }
  apply NoDup_cons. split; [|done].
  intros Hx. apply (sentence_in_addresses _ _ _ _ _ _ _ _ Hall) in Hx. lia.
Qed.

Lemma filter_word_id (ws : list word) :
  filter (λ i, (0 < i)%Z) (word_id <$> ws)
  = word_id <$> filter (λ w, (0 < word_id w)%Z) ws.
Proof.
  induction ws as [|w ws IH]; [done|]. rewrite fmap_cons.
  destruct (decide (0 < word_id w)%Z).
  - rewrite !filter_cons_True by done. by rewrite fmap_cons, IH.
  - by rewrite !filter_cons_False by done.
Qed.

Lemma token_ids pl ar toks ws :
  Forall2 (token_of pl ar) toks ws → tok_id <$> toks = word_id <$> ws.
Proof.
  induction 1 as [|t w toks ws Ht _ IH]; [done|].
  rewrite !fmap_cons, IH. by destruct Ht as [-> _].
Qed.

Lemma run_engine_reports pl mdl s :
  reports_errors mdl →
  (run_engine pl mdl s).1.1 = false → (run_engine pl mdl s).2 ≠ EmptyString.
Proof.
  intros [Htag Hparse]. destruct pl as [|do_parse]; simpl; [done|].
  specialize (Htag s). destruct (tag mdl s) as [[[] s1] e1]; simpl in *.
  - destruct (do_parse =? 0)%Z; [done|]. apply Hparse.
  - intros _. by apply Htag.
Qed.

Lemma loop_exit_no_error pl mdl final rest ok :
  reports_errors mdl →
  loop_exit pl mdl final rest EmptyString ok → rest = [].
Proof.
  intros Hrep [(_ & -> & _)|(_ & [Hne|(s & Hf & He)])]; [done..|].
  by destruct (run_engine_reports pl mdl s Hrep Hf).
Qed.

(** C3, as amended.  When [udpipe_tag_structured] returns 1 on an engine
    that reports its failures (it leaves a message in [error] whenever
    [tag] or [parse] returns false), the document has one sentence view per
    sentence the engine produced for the text, in order; the token
    array of the i-th view holds exactly the words of the i-th sentence
    whose identifier is above 0, in their order (those at or below 0 are
    left out), so its count is the number of such words. *)
Theorem tag_structured_keeps_positive_ids
    (mdl : model) (text : string) (do_parse : Z) (d0 : udpipe_doc_view)
    (m : mem) (out : option udpipe_doc_view) (m' : mem) :
  reports_errors mdl →
  udpipe_tag_structured (Some mdl) (Some text) do_parse (Some d0) m
  = Some ((1%Z, out), m') →
  holds_engine_output (tagging do_parse) mdl EmptyString text m' out.
Proof.
  intros Hrep Hrun. rewrite tag_structured_unfold in Hrun.
  destruct (structured_spec _ _ _ _ _ _ _ _ Hrun)
    as (ar & _ & _ & _ & [[? _]|(_ & reader & d & seen & rest & ok
                                   & Htok & -> & Hdoc & Hnext & Hexit)]);
    [done|].
  apply (loop_exit_no_error _ _ _ _ _ Hrep) in Hexit as ->.
  rewrite app_nil_r in Hnext. subst seen.
  pose proof Hdoc as (pa & ar' & sa & svs & _ & _ & _ & _ & Hsa & _ & Hb & Hc & Hall & _).
  exists d, (engine_sentence (tagging do_parse) mdl <$> (yields (reader text)).*1), sa, svs.
  pose proof (Forall2_length _ _ _ Hall) as Hlen.
  split; [done|]. split.
  { unfold engine_output. rewrite Htok. simpl. by rewrite <- list_fmap_compose. }
  split; [done|]. split; [done|]. split; [congruence|]. split; [done|].
  split; [|by exists (mem_next m), (mem_next m')].
  eapply Forall2_impl; [done|].
  intros sv s (a & toks & Hsv & _ & Hba & Hcount & Htoks).
  exists a, toks. split; [done|]. split; [done|].
  apply token_ids in Htoks. unfold output_words in Htoks.
  rewrite filter_word_id, <- Htoks, length_fmap. done.
Qed.

(** C3 on a run: "Dogs run." on the sample engine. *)
Lemma tag_structured_keeps_positive_ids_witness :
  ∃ out m',
    udpipe_tag_structured (Some sample_model) (Some "Dogs run."%string) 0
      (Some zero_doc) (empty_mem []) = Some ((1%Z, out), m')
    ∧ holds_engine_output (tagging 0) sample_model EmptyString "Dogs run." m' out.
Proof.
  assert (Hrun : ∃ out m',
    udpipe_tag_structured (Some sample_model) (Some "Dogs run."%string) 0
      (Some zero_doc) (empty_mem []) = Some ((1%Z, out), m')).
  { eexists _, _. vm_compute. reflexivity. }
  destruct Hrun as (out & m' & Hrun). exists out, m'. split; [exact Hrun|].
  apply (tag_structured_keeps_positive_ids sample_model "Dogs run." 0 zero_doc
           (empty_mem []) out m'); [|exact Hrun].
  split; intros s; discriminate.
Defined.

(** C3, as stated, fails: on an engine whose tagger returns false on the
    second sentence and leaves [error] empty, line 142 leaves the loop,
    line 176 finds no message, and the call returns 1 with a document of
    one sentence, while the engine produced two sentences for the text. *)
Lemma tag_structured_keeps_positive_ids_counterexample :
  ∃ out m',
    udpipe_tag_structured (Some silent_fail_model)
      (Some "Dogs run. Cats sleep."%string) 0 (Some zero_doc) (empty_mem [])
    = Some ((1%Z, out), m')
    ∧ doc_count <$> out = Some 1
    ∧ length <$> engine_output (tagging 0) silent_fail_model EmptyString
                   "Dogs run. Cats sleep."
      = Some 2
    ∧ ¬ holds_engine_output (tagging 0) silent_fail_model EmptyString
          "Dogs run. Cats sleep." m' out.
Proof.
  eexists _, _. split; [vm_compute; reflexivity|].
  split; [reflexivity|]. split; [reflexivity|].
  intros (d & ss & sa & svs & Hout & Heng & _ & _ & Hc & _).
  injection Hout as <-. vm_compute in Heng. injection Heng as <-.
  discriminate Hc.
Qed.

Lemma token_of_untagged ar t w : token_of tokenizing ar t w → untagged ar t.
Proof.
  intros (_ & Hh & _ & _ & F1 & F2 & F3 & F4 & F5).
  split; [done|].
  repeat split;
    match goal with
    | H : field_at _ ?p _ |- read_cstr _ ?p = _ =>
        destruct H as [_ ->]; by destruct p
    end.
Qed.

(** C4.  When [udpipe_tokenize_structured] returns 1, whatever the text
    and the tokenizer options, every token of every sentence of the
    document has head -1, and its lemma, upos, xpostag, feats and deprel
    pointers each read as the empty string. *)
Theorem tokenize_structured_fields_empty
    (mdl : model) (text : string) (tokenizer_options : option string)
    (d0 : udpipe_doc_view) (m : mem) (out : option udpipe_doc_view) (m' : mem) :
  udpipe_tokenize_structured (Some mdl) (Some text) tokenizer_options (Some d0) m
  = Some ((1%Z, out), m') →
  all_untagged m' out.
Proof.
  intros Hrun. rewrite tokenize_structured_unfold in Hrun.
  destruct (structured_spec _ _ _ _ _ _ _ _ Hrun)
    as (ar0 & _ & _ & _ & [[? _]|(_ & reader & d & seen & rest & ok
                                    & Htok & -> & Hdoc & _)]);
    [done|].
  destruct Hdoc as (pa & ar & sa & svs & Hpa & _ & Har & _ & Hsa & _ & Hb & Hc & Hall & _).
  exists d, pa, ar, sa, svs. do 6 (split; [done|]).
  eapply Forall2_Forall_l; [exact Hall|].
  apply Forall_true.
  intros sv s (a & toks & Hsv & _ & Hba & Hcount & Htoks).
  exists a, toks. do 3 (split; [done|]).
  eapply Forall2_Forall_l; [exact Htoks|].
  apply Forall_true. eauto using token_of_untagged.
Qed.

(** C4 on a run: two sentences, null options. *)
Lemma tokenize_structured_fields_empty_witness :
  ∃ out m',
    udpipe_tokenize_structured (Some sample_model) (Some "Dogs run. Cats sleep."%string)
      None (Some zero_doc) (empty_mem []) = Some ((1%Z, out), m')
    ∧ all_untagged m' out.
Proof.
  assert (Hrun : ∃ out m',
    udpipe_tokenize_structured (Some sample_model) (Some "Dogs run. Cats sleep."%string)
      None (Some zero_doc) (empty_mem []) = Some ((1%Z, out), m')).
  { eexists _, _. vm_compute. reflexivity. }
  destruct Hrun as (out & m' & Hrun). exists out, m'. split; [exact Hrun|].
  exact (tokenize_structured_fields_empty sample_model "Dogs run. Cats sleep." None
           zero_doc (empty_mem []) out m' Hrun).
Defined.

(** C10.  A null [tokenizer_options] is read as the empty string: the
    call does, and returns, what the call with "" does. *)
Theorem tokenize_structured_null_options
    (handle : option model) (utf8_text : option string)
    (out_doc : option udpipe_doc_view) (m : mem) :
  udpipe_tokenize_structured handle utf8_text None out_doc m
  = udpipe_tokenize_structured handle utf8_text (Some EmptyString) out_doc m.
Proof. reflexivity. Qed.




(** With a null handle or text the output structure is not written. *)
Lemma structured_null_arguments handle utf8_text do_parse opts out_doc m :
  handle = None ∨ utf8_text = None →
  udpipe_tag_structured handle utf8_text do_parse out_doc m = Some ((0%Z, out_doc), m)
  ∧ udpipe_tokenize_structured handle utf8_text opts out_doc m
    = Some ((0%Z, out_doc), m).
Proof. intros [-> | ->]; [done | by destruct handle]. Qed.

(** C9.  On a zeroed document the release does nothing and leaves it
    zeroed; whenever a release of a document returns, the document is
    zeroed, so that releasing it once more changes nothing, in the
    document or in memory; and the release of a populated document does
    return. *)
Theorem free_doc_idempotent (d : udpipe_doc_view) (m : mem) :
  udpipe_free_doc (Some zero_doc) m = Some (Some zero_doc, m)
  ∧ (∀ r m', udpipe_free_doc (Some d) m = Some (r, m') →
       r = Some zero_doc ∧ udpipe_free_doc r m' = Some (r, m'))
  ∧ (∀ pl lo hi ss, doc_in pl m lo hi d ss →
       is_Some (udpipe_free_doc (Some d) m)).
Proof.
  split; [done|]. split.
  - intros r m' Hrun. by apply free_doc_result in Hrun as ->.
  - intros pl lo hi ss Hdoc.
    destruct (free_doc_populated _ _ _ _ _ _ Hdoc) as (m' & -> & _). done.
Qed.

(** ** The batch *)

Lemma frame_refl m : frame m m.
Proof. by split. Qed.

Lemma frame_trans m1 m2 m3 : frame m1 m2 → frame m2 m3 → frame m1 m3.
Proof.
  intros [N1 F1] [N2 F2]. split; [lia|]. intros a Ha.
  destruct (F1 a Ha) as [<- <-]. apply F2. lia.
Qed.

Lemma doc_in_frame pl m m' lo hi d ss :
  frame m m' → hi ≤ mem_next m → doc_in pl m lo hi d ss → doc_in pl m' lo hi d ss.
Proof.
  intros [Hn Hf] Hhi
    (pa & ar & sa & svs & Hpa & Hpab & Har & Hwf & Hsa & Hsab & Hb & Hc & Hall & Hnd).
  exists pa, ar, sa, svs. split; [done|]. split; [done|].
  split; [by rewrite (proj2 (Hf pa ltac:(lia)))|]. split; [done|].
  split; [done|]. split; [done|].
  split; [by rewrite (proj1 (Hf sa ltac:(lia)))|]. split; [done|].
  split; [|done].
  eapply Forall2_impl; [done|].
  intros sv s (a & toks & Hsv & Hab & Hba & Hrest).
  exists a, toks. split; [done|]. split; [done|].
  split; [by rewrite (proj1 (Hf a ltac:(lia)))|]. done.
Qed.

(** What the body of the worker loop has done when it returns. *)
Lemma process_text_spec mdl do_parse text m doc ok m' :
  process_text mdl do_parse text m = Some ((doc, ok), m') →
  frame m m'
  ∧ (ok = true →
     ∃ ss, engine_output (tagging do_parse) mdl EmptyString text = Some ss
       ∧ doc_in (tagging do_parse) m' (mem_next m) (mem_next m') doc ss).
Proof.
  unfold process_text. intros Hrun.
  apply bind_Some in Hrun as (pa & m1 & Hnew & Hrun).
  apply new_arena_spec in Hnew as (-> & Hn1 & Har1 & Hf1).
  pose proof (new_StringArena_wf DEFAULT_BLOCK_SIZE) as Hwf1.
  destruct (new_tokenizer mdl EmptyString) as [reader|] eqn:Htok.
  2:{ apply ret_Some in Hrun as [[= <- <-] <-]. done. }
  apply bind_Some in Hrun as ([[svs error] ok1] & m2 & Hloop & Hrun).
  destruct (sentence_loop_spec _ _ _ _ _ _ _ _ _ _ _ _ (mem_next m) [] Hloop Har1 Hwf1)
    as (ar2 & seen & rest & Har2 & Hwf2 & Hg2 & Hall & Hnd & Hnext & Hexit);
    [lia|constructor|constructor|].
  simpl in Hall.
  destruct (negb (if decide (error = EmptyString) then ok1 else false)) eqn:Hok.
  { apply bind_Some in Hrun as (? & m3 & Hfree & Hrun).
    apply free_doc_vector in Hfree as [_ ->].
    apply ret_Some in Hrun as [[= <- <-] <-].
    split; [eauto using frame_grows|done]. }
  case_decide as He; [|done]. apply negb_false_iff in Hok. subst error ok1.
  destruct Hexit as [(_ & -> & _)|[? _]]; [|done].
  rewrite app_nil_r in Hnext. subst seen.
  apply bind_Some in Hrun as ([a|] & m3 & Hmal & Hrun).
  2:{ apply bind_Some in Hrun as (? & m4 & Hfree & Hrun).
      apply free_doc_vector in Hfree as [_ ->].
      apply ret_Some in Hrun as [[= <- <-] <-].
      pose proof (malloc_None_grows (mem_next m) _ _ _ Hmal) as Hg3.
      split; [eauto using frame_grows, grows_trans|done]. }
  apply bind_Some in Hrun as (u & m4 & Hcpy & Hrun).
  apply ret_Some in Hrun as [[= <- <-] <-].
  destruct (malloc_memcpy_spec (mem_next m) (sentence_array svs) _ _ _ _ _ Hmal Hcpy)
    as (-> & Hn4 & Hb4 & Hg4).
  destruct (grows_arena _ _ _ Hg4 _ Har2 Hwf2) as (ar4 & Har4 & Hwf4 & Hx4).
  pose proof (grows_next _ _ _ Hg2) as Hn2.
  split; [eauto using frame_grows, grows_trans|]. intros _.
  exists (engine_sentence (tagging do_parse) mdl <$> (yields (reader text)).*1).
  split.
  { unfold engine_output. rewrite Htok. simpl. by rewrite <- list_fmap_compose. }
  exists (mem_next m), ar4, (mem_next m2), svs. simpl.
  split; [done|]. split; [lia|]. split; [done|]. split; [done|].
  split; [done|]. split; [lia|]. split; [done|]. split; [done|].
  split.
  { eapply Forall2_impl; [done|]. intros sv s.
    apply (sentence_in_grows _ (mem_next m) m2 m4); eauto; lia. }
  apply NoDup_cons. split; [|done].
  intros Hx. apply (sentence_in_addresses _ _ _ _ _ _ _ _ Hall) in Hx. lia.
Qed.

Lemma slot_ok_frame mdl do_parse texts m m' rs i :
  frame m m' → slot_ok mdl do_parse texts m rs i → slot_ok mdl do_parse texts m' rs i.
Proof.
  intros Hf (text & ss & d & lo & hi & Ht & He & Hr & Hhi & Hd).
  exists text, ss, d, lo, hi. do 3 (split; [done|]).
  split; [destruct Hf; lia|]. eauto using doc_in_frame.
Qed.

Lemma grows_frame m m' : grows (mem_next m) m m' → frame m m'.
Proof.
  intros Hg. split; [apply (grows_next _ _ _ Hg)|]. intros a Ha.
  split; [by apply (grows_blocks _ _ _ Hg)|].
  apply (grows_arenas _ _ _ Hg); lia.
Qed.

Section batch.
Variables (mdl : model) (do_parse : Z) (texts : list string).

Lemma batch_inv_init num_threads m :
  batch_inv mdl do_parse texts m
    (mkBatch 0 true (replicate (length texts) zero_doc)
             (replicate num_threads at_loop_test)).
Proof.
  split; simpl.
  - by rewrite length_replicate.
  - intros _ i Hi. lia.
  - intros tid Hw. by apply lookup_replicate_1 in Hw as [? _].
Qed.

(** Every step keeps the invariant and leaves allocated memory alone. *)
Lemma worker_step_inv tid st m st' m' :
  batch_inv mdl do_parse texts m st →
  worker_step mdl texts do_parse tid st m = Some (st', m') →
  batch_inv mdl do_parse texts m' st' ∧ frame m m'.
Proof.
  intros [Hres Hslots Hret] Hstep. unfold worker_step in Hstep.
  destruct (workers st !! tid) as [[| |i0|]|] eqn:Hw.
  - (* the test of the flag *)
    apply ret_Some in Hstep as [<- <-]. split; [|apply frame_refl].
    split; simpl; [done| |].
    + intros Hf i Hi Hi'. destruct (Hslots Hf i Hi Hi') as [[t Ht]|Hok]; [|by right].
      left. exists t. rewrite list_lookup_insert_ne; [done|]. congruence.
    + intros t Ht. destruct (decide (t = tid)) as [->|Hne].
      * apply lookup_lt_Some in Hw as Hlt.
        rewrite list_lookup_insert_eq in Ht by done.
        left. by destruct (success_flag st).
      * rewrite list_lookup_insert_ne in Ht by done. eauto.
  - (* the claim *)
    apply ret_Some in Hstep as [<- <-]. split; [|apply frame_refl].
    apply lookup_lt_Some in Hw as Hlt.
    split; simpl; [done| |].
    + intros Hf i Hi Hi'. destruct (decide (i = next_index st)) as [->|Hne].
      * left. exists tid. rewrite list_lookup_insert_eq by done.
        destruct (Nat.leb_spec (length texts) (next_index st)); [lia|done].
      * destruct (Hslots Hf i ltac:(lia) Hi') as [[t Ht]|Hok]; [|by right].
        left. exists t. rewrite list_lookup_insert_ne; [done|]. congruence.
    + intros t Ht. destruct (decide (t = tid)) as [->|Hne].
      * rewrite list_lookup_insert_eq in Ht by done.
        destruct (Nat.leb_spec (length texts) (next_index st)); [|done].
        right. lia.
      * rewrite list_lookup_insert_ne in Ht by done.
        destruct (Hret t Ht); [by left|right; lia].
  - (* the body *)
    destruct (texts !! i0) as [text|] eqn:Htext; [|done].
    apply bind_Some in Hstep as ([doc ok] & m1 & Hproc & Hstep).
    apply ret_Some in Hstep as [<- <-].
    apply process_text_spec in Hproc as [Hf Hdoc]. split; [|done].
    apply lookup_lt_Some in Hw as Hlt.
    apply lookup_lt_Some in Htext as Hi0.
    split; simpl; [by rewrite length_insert| |].
    + intros Hflag i Hi Hi'. destruct ok; [|done].
      destruct (Hdoc eq_refl) as (ss & Hss & Hin).
      destruct (decide (i = i0)) as [->|Hne].
      { right. exists text, ss, doc, (mem_next m), (mem_next m1).
        do 2 (split; [done|]).
        split; [apply list_lookup_insert_eq; lia|]. done. }
      destruct (Hslots Hflag i Hi Hi') as [[t Ht]|Hok].
      * left. exists t. rewrite list_lookup_insert_ne; [done|]. congruence.
      * right. apply (slot_ok_frame _ _ _ _ _ _ _ Hf) in Hok.
        destruct Hok as (text' & ss' & d' & lo & hi & H1 & H2 & H3 & H4).
        exists text', ss', d', lo, hi. do 2 (split; [done|]).
        split; [by rewrite list_lookup_insert_ne|done].
    + intros t Ht. destruct (decide (t = tid)) as [->|Hne].
      * by rewrite list_lookup_insert_eq in Ht.
      * rewrite list_lookup_insert_ne in Ht by done.
        destruct (Hret t Ht) as [Hfl|]; [left|by right].
        rewrite Hfl. by destruct ok.
  - apply ret_Some in Hstep as [<- <-]. split; [done|apply frame_refl].
  - apply ret_Some in Hstep as [<- <-]. split; [done|apply frame_refl].
Qed.

(** A claim is never shared: [fetch_add] hands out each index once. *)
Lemma worker_step_exclusive tid st m st' m' :
  claims_exclusive st →
  worker_step mdl texts do_parse tid st m = Some (st', m') →
  claims_exclusive st'.
Proof.
  intros Hex Hstep. unfold worker_step in Hstep.
  destruct (workers st !! tid) as [[| |i0|]|] eqn:Hw.
  - apply ret_Some in Hstep as [<- <-]. apply lookup_lt_Some in Hw as Hlt.
    intros t1 i Ht1. simpl in *.
    destruct (decide (t1 = tid)) as [->|Hne].
    { rewrite list_lookup_insert_eq in Ht1 by done. by destruct (success_flag st). }
    rewrite list_lookup_insert_ne in Ht1 by done.
    destruct (Hex t1 i Ht1) as [Hi Huniq]. split; [done|]. intros t2 Ht2.
    destruct (decide (t2 = tid)) as [->|Hne2].
    { rewrite list_lookup_insert_eq in Ht2 by done. by destruct (success_flag st). }
    rewrite list_lookup_insert_ne in Ht2 by done. eauto.
  - apply ret_Some in Hstep as [<- <-]. apply lookup_lt_Some in Hw as Hlt.
    intros t1 i Ht1. simpl in *.
    destruct (decide (t1 = tid)) as [->|Hne].
    + rewrite list_lookup_insert_eq in Ht1 by done.
      destruct (length texts <=? next_index st); [done|]. injection Ht1 as <-.
      split; [lia|]. intros t2 Ht2.
      destruct (decide (t2 = tid)) as [->|Hne2]; [done|].
      rewrite list_lookup_insert_ne in Ht2 by done.
      destruct (Hex t2 _ Ht2) as [Hi _]. lia.
    + rewrite list_lookup_insert_ne in Ht1 by done.
      destruct (Hex t1 i Ht1) as [Hi Huniq]. split; [lia|]. intros t2 Ht2.
      destruct (decide (t2 = tid)) as [->|Hne2].
      * rewrite list_lookup_insert_eq in Ht2 by done.
        destruct (length texts <=? next_index st); [done|]. injection Ht2 as <-. lia.
      * rewrite list_lookup_insert_ne in Ht2 by done. eauto.
  - destruct (texts !! i0) as [text|]; [|done].
    apply bind_Some in Hstep as ([doc ok] & m1 & _ & Hstep).
    apply ret_Some in Hstep as [<- <-]. apply lookup_lt_Some in Hw as Hlt.
    intros t1 i Ht1. simpl in *.
    destruct (decide (t1 = tid)) as [->|Hne].
    { by rewrite list_lookup_insert_eq in Ht1. }
    rewrite list_lookup_insert_ne in Ht1 by done.
    destruct (Hex t1 i Ht1) as [Hi Huniq]. split; [done|]. intros t2 Ht2.
    destruct (decide (t2 = tid)) as [->|Hne2].
    { by rewrite list_lookup_insert_eq in Ht2. }
    rewrite list_lookup_insert_ne in Ht2 by done. eauto.
  - by apply ret_Some in Hstep as [<- <-].
  - by apply ret_Some in Hstep as [<- <-].
Qed.

Lemma run_workers_exclusive num_threads schedule m st' m' :
  run_workers mdl texts do_parse schedule
    (mkBatch 0 true (replicate (length texts) zero_doc)
             (replicate num_threads at_loop_test)) m
  = Some (st', m') →
  claims_exclusive st'.
Proof.
  assert (Hgen : ∀ st m, claims_exclusive st →
    run_workers mdl texts do_parse schedule st m = Some (st', m') →
    claims_exclusive st').
  { induction schedule as [|tid schedule IH]; intros st m0 Hex Hrun.
    - by apply ret_Some in Hrun as [<- <-].
    - simpl in Hrun. apply bind_Some in Hrun as (st1 & m1 & Hstep & Hrun).
      eauto using worker_step_exclusive. }
  apply Hgen. intros t1 i Ht1. simpl in Ht1.
  by apply lookup_replicate_1 in Ht1 as [? _].
Qed.

(** Every step of a thread uses up one of the steps it has left, and
    costs the other threads none. *)
Lemma worker_step_progress tid st m st' m' :
  worker_step mdl texts do_parse tid st m = Some (st', m') →
  length (workers st') = length (workers st)
  ∧ (steps_left (length texts) st tid = 0
     ∨ steps_left (length texts) st' tid < steps_left (length texts) st tid)
  ∧ ∀ t, steps_left (length texts) st' t ≤ steps_left (length texts) st t.
Proof.
  intros Hstep. unfold worker_step in Hstep.
  assert (Hother : ∀ ws n w t,
    workers st !! tid = Some w → t ≠ tid → next_index st ≤ n →
    steps_left (length texts) (mkBatch n (success_flag st) (results st)
                             (<[tid := ws]> (workers st))) t
    ≤ steps_left (length texts) st t).
  { intros ws n w t Hw Hne Hn. unfold steps_left. simpl.
    rewrite list_lookup_insert_ne by done.
    destruct (workers st !! t) as [[]|]; lia. }
  unfold steps_left at 1 2 3.
  destruct (workers st !! tid) as [[| |i0|]|] eqn:Hw.
  - apply ret_Some in Hstep as [<- <-]. apply lookup_lt_Some in Hw as Hlt.
    simpl. rewrite length_insert, list_lookup_insert_eq by done.
    split; [done|]. split; [right; destruct (success_flag st); lia|].
    intros t. destruct (decide (t = tid)) as [->|Hne]; [|by eapply Hother].
    unfold steps_left. simpl. rewrite list_lookup_insert_eq, Hw by done.
    destruct (success_flag st); lia.
  - apply ret_Some in Hstep as [<- <-]. apply lookup_lt_Some in Hw as Hlt.
    simpl. rewrite length_insert, list_lookup_insert_eq by done.
    split; [done|].
    split; [right; destruct (Nat.leb_spec (length texts) (next_index st)); lia|].
    intros t. destruct (decide (t = tid)) as [->|Hne].
    + unfold steps_left. simpl. rewrite list_lookup_insert_eq, Hw by done.
      destruct (Nat.leb_spec (length texts) (next_index st)); lia.
    + unfold steps_left. simpl. rewrite list_lookup_insert_ne by done.
      destruct (workers st !! t) as [[]|]; lia.
  - destruct (texts !! i0) as [text|]; [|done].
    apply bind_Some in Hstep as ([doc ok] & m1 & _ & Hstep).
    apply ret_Some in Hstep as [<- <-]. apply lookup_lt_Some in Hw as Hlt.
    simpl. rewrite length_insert, list_lookup_insert_eq by done.
    split; [done|]. split; [right; lia|].
    intros t. unfold steps_left. simpl.
    destruct (decide (t = tid)) as [->|Hne].
    + rewrite list_lookup_insert_eq, Hw by done. lia.
    + rewrite list_lookup_insert_ne by done. done.
  - apply ret_Some in Hstep as [<- <-]. rewrite Hw. eauto.
  - apply ret_Some in Hstep as [<- <-]. rewrite Hw. eauto.
Qed.

Lemma run_workers_app s1 s2 st m :
  run_workers mdl texts do_parse (s1 ++ s2) st m
  = (run_workers mdl texts do_parse s1 st
       ≫= run_workers mdl texts do_parse s2) m.
Proof.
  revert st m. induction s1 as [|tid s1 IH]; intros st m; [done|].
  simpl. unfold mbind, M_bind in *.
  destruct (worker_step mdl texts do_parse tid st m) as [[st1 m1]|]; [|done].
  apply IH.
Qed.

Lemma run_workers_inv schedule st m st' m' :
  batch_inv mdl do_parse texts m st →
  run_workers mdl texts do_parse schedule st m = Some (st', m') →
  batch_inv mdl do_parse texts m' st' ∧ frame m m'
  ∧ length (workers st') = length (workers st)
  ∧ ∀ t, steps_left (length texts) st' t ≤ steps_left (length texts) st t.
Proof.
  revert st m. induction schedule as [|tid schedule IH]; intros st m Hinv Hrun.
  - apply ret_Some in Hrun as [<- <-]. eauto using frame_refl.
  - simpl in Hrun. apply bind_Some in Hrun as (st1 & m1 & Hstep & Hrun).
    destruct (worker_step_inv _ _ _ _ _ Hinv Hstep) as [Hinv1 Hf1].
    destruct (worker_step_progress _ _ _ _ _ Hstep) as (Hl1 & _ & Hs1).
    destruct (IH _ _ Hinv1 Hrun) as (Hinv' & Hf' & Hl' & Hs').
    split; [done|]. split; [eauto using frame_trans|]. split; [congruence|].
    intros t. specialize (Hs1 t). specialize (Hs' t). lia.
Qed.

(** [k] steps in a row take [k] off the steps a thread has left. *)
Lemma run_workers_replicate k tid st m st' m' :
  run_workers mdl texts do_parse (replicate k tid) st m = Some (st', m') →
  steps_left (length texts) st' tid = 0
  ∨ steps_left (length texts) st' tid + k ≤ steps_left (length texts) st tid.
Proof.
  revert st m. induction k as [|k IH]; intros st m Hrun.
  - apply ret_Some in Hrun as [<- <-]. right. lia.
  - simpl in Hrun. apply bind_Some in Hrun as (st1 & m1 & Hstep & Hrun).
    destruct (worker_step_progress _ _ _ _ _ Hstep) as (_ & Hdec & Hle).
    pose proof (run_workers_inv_steps := IH _ _ Hrun).
    destruct run_workers_inv_steps as [H0|Hk]; [by left|].
    destruct Hdec as [H0|Hlt]; [|right; lia].
    left. specialize (Hle tid). lia.
Qed.

Lemma steps_left_bound st tid : steps_left (length texts) st tid ≤ 3 * (length texts) + 3.
Proof. unfold steps_left. destruct (workers st !! tid) as [[]|]; lia. Qed.

Lemma steps_left_mono schedule st m st' m' t :
  run_workers mdl texts do_parse schedule st m = Some (st', m') →
  steps_left (length texts) st t = 0 → steps_left (length texts) st' t = 0.
Proof.
  revert st m. induction schedule as [|tid schedule IH]; intros st m Hrun H0.
  - by apply ret_Some in Hrun as [<- <-].
  - simpl in Hrun. apply bind_Some in Hrun as (st1 & m1 & Hstep & Hrun).
    destruct (worker_step_progress _ _ _ _ _ Hstep) as (_ & _ & Hle).
    apply (IH _ _ Hrun). specialize (Hle t). lia.
Qed.

(** After the joins every thread has returned. *)
Lemma run_workers_join num_threads st m st' m' :
  run_workers mdl texts do_parse (join_schedule num_threads (length texts)) st m
  = Some (st', m') →
  ∀ t, t < num_threads → steps_left (length texts) st' t = 0.
Proof.
  revert st' m'. induction num_threads as [|n IH]; intros st' m' Hrun t Ht; [lia|].
  unfold join_schedule in Hrun. rewrite seq_S, bind_app in Hrun. simpl in Hrun.
  rewrite app_nil_r, run_workers_app in Hrun.
  apply bind_Some in Hrun as (st1 & m1 & Hrun1 & Hrun2).
  destruct (decide (t = n)) as [->|Hne].
  - destruct (run_workers_replicate _ _ _ _ _ _ Hrun2) as [H0|Hk]; [done|].
    pose proof (steps_left_bound st1 n). lia.
  - eapply steps_left_mono; [exact Hrun2|].
    apply (IH _ _ Hrun1). lia.
Qed.

Lemma steps_left_returned st t :
  t < length (workers st) → steps_left (length texts) st t = 0 →
  workers st !! t = Some returned.
Proof.
  intros Hlt. unfold steps_left.
  destruct (lookup_lt_is_Some_2 _ _ Hlt) as [w ->].
  destruct w; (done || lia).
Qed.
End batch.

(** What a call of the batch entry point that returns has done: it
    returned 1 with the aligned array, or 0 with the out-parameters at
    null and 0. *)
Lemma tag_batch_returns
    (mdl : model) (texts : list string) (do_parse : Z)
    (docs0 : option nat) (size0 : nat) (hardware_concurrency : nat)
    (schedule : list nat) (m : mem) (r : Z)
    (out_docs : option (option nat)) (out_size : option nat) (m' : mem) :
  udpipe_tag_batch (Some mdl) (Some texts) do_parse (Some docs0) (Some size0)
    hardware_concurrency schedule m
  = Some ((r, out_docs, out_size), m') →
  (r = 1%Z ∧ batch_aligned mdl do_parse texts m' out_docs out_size)
  ∨ (r = 0%Z ∧ out_docs = Some None ∧ out_size = Some 0).
Proof.
  unfold udpipe_tag_batch.
  set (n := if length texts <? _ then _ else _).
  intros Hcall. apply bind_Some in Hcall as (st & m1 & Hrun & Hcall).
  destruct (run_workers_inv _ _ _ _ _ _ _ _ (batch_inv_init mdl do_parse texts n m) Hrun)
    as ([Hres Hslots Hret] & Hf & Hlen & _).
  simpl in Hlen. rewrite length_replicate in Hlen.
  rewrite run_workers_app in Hrun.
  apply bind_Some in Hrun as (st1 & m2 & _ & Hjoin).
  pose proof (run_workers_join _ _ _ _ _ _ _ _ Hjoin) as Hdone.
  assert (Hall : ∀ t w, workers st !! t = Some w → w = returned).
  { intros t w Hw. apply lookup_lt_Some in Hw as Hlt.
    rewrite (steps_left_returned texts st t Hlt) in Hw; [congruence|].
    apply Hdone. lia. }
  destruct (success_flag st) eqn:Hflag; simpl in Hcall.
  2:{ apply bind_Some in Hcall as (? & ? & _ & Hcall).
      apply ret_Some in Hcall as [[= <- <- <-] _]. by right. }
  apply bind_Some in Hcall as ([a|] & m3 & Hmal & Hcall).
  2:{ apply bind_Some in Hcall as (? & ? & _ & Hcall).
      apply ret_Some in Hcall as [[= <- <- <-] _]. by right. }
  apply bind_Some in Hcall as (u & m4 & Hcpy & Hcall).
  apply ret_Some in Hcall as [[= <- <- <-] <-]. left. split; [done|].
  destruct (malloc_memcpy_spec (mem_next m1) (doc_array (results st)) _ _ _ _ _ Hmal Hcpy)
    as (-> & Hn4 & Hb4 & Hg4).
  apply grows_frame in Hg4.
  exists (mem_next m1), (results st).
  split; [done|]. split; [by rewrite Hres|]. split; [done|]. split; [done|].
  intros i text Htext. apply lookup_lt_Some in Htext as Hi.
  assert (Hclaimed : length texts ≤ next_index st).
  { destruct (decide (n = 0)) as [Hn0|Hn0].
    - subst n. destruct (Nat.ltb_spec (length texts)
                           (if hardware_concurrency =? 0 then 1 else hardware_concurrency));
        [lia|]. destruct (hardware_concurrency =? 0) eqn:Hhw; [lia|].
      apply Nat.eqb_neq in Hhw. lia.
    - destruct (lookup_lt_is_Some_2 (workers st) 0) as [w Hw]; [lia|].
      pose proof (Hall _ _ Hw) as ->.
      destruct (Hret 0 Hw); [congruence|done]. }
  destruct (Hslots eq_refl i ltac:(lia) Hi) as [[t Ht]|Hok].
  { by pose proof (Hall _ _ Ht). }
  apply (slot_ok_frame _ _ _ _ _ _ _ Hg4) in Hok.
  destruct Hok as (text' & ss & d & lo & hi & Ht' & Hss & Hd & _ & Hin).
  rewrite Htext in Ht'. injection Ht' as <-.
  exists d, ss. split; [done|]. split; [done|]. by exists lo, hi.
Qed.

(** C5.  When [udpipe_tag_batch] returns 1, whatever the number of
    threads and whatever the order in which they took their steps, the
    array it returns has one document per text, and the document at
    index [i] is the populated document of the text at index [i]: it
    represents the sentences the engine produces for that text. *)
Theorem tag_batch_index_aligned
    (mdl : model) (texts : list string) (do_parse : Z)
    (docs0 : option nat) (size0 : nat) (hardware_concurrency : nat)
    (schedule : list nat) (m : mem)
    (out_docs : option (option nat)) (out_size : option nat) (m' : mem) :
  udpipe_tag_batch (Some mdl) (Some texts) do_parse (Some docs0) (Some size0)
    hardware_concurrency schedule m
  = Some ((1%Z, out_docs, out_size), m') →
  batch_aligned mdl do_parse texts m' out_docs out_size.
Proof.
  intros Hcall.
  by destruct (tag_batch_returns _ _ _ _ _ _ _ _ _ _ _ _ Hcall) as [[_ ?]|[? _]].
Qed.

(** C5 on a run: three texts, two threads, thread 1 claims index 0
    and thread 0 claims index 1, which it processes first. *)
Lemma tag_batch_index_aligned_witness :
  ∃ out_docs out_size m',
    udpipe_tag_batch (Some sample_model)
      (Some ["Dogs run."; "Dogs run. Cats sleep."; ""]%string) 1
      (Some None) (Some 0) 2 [0; 1; 1; 0; 0; 1] (empty_mem [])
    = Some ((1%Z, out_docs, out_size), m')
    ∧ batch_aligned sample_model 1
        ["Dogs run."; "Dogs run. Cats sleep."; ""]%string m' out_docs out_size.
Proof.
  assert (Hrun : ∃ out_docs out_size m',
    udpipe_tag_batch (Some sample_model)
      (Some ["Dogs run."; "Dogs run. Cats sleep."; ""]%string) 1
      (Some None) (Some 0) 2 [0; 1; 1; 0; 0; 1] (empty_mem [])
    = Some ((1%Z, out_docs, out_size), m')).
  { eexists _, _, _. vm_compute. reflexivity. }
  destruct Hrun as (out_docs & out_size & m' & Hrun).
  exists out_docs, out_size, m'. split; [exact Hrun|].
  exact (tag_batch_index_aligned _ _ _ _ _ _ _ _ _ _ _ Hrun).
Defined.

(** C1, at a batch of one text whose second sentence the tagger
    rejects: whatever the number of threads and their schedule, the
    worker releases the temporary built over its local vector, which
    frees storage the vector owns; the call does not return 0, it is
    undefined. *)
Theorem tag_batch_failure_frees_vector_storage
    (hardware_concurrency : nat) (schedule : list nat) :
  udpipe_tag_batch (Some cats_fail_model) (Some ["Dogs run. Cats sleep."%string]) 0
    (Some None) (Some 0) hardware_concurrency schedule (empty_mem [])
  = None.
Proof.
  unfold udpipe_tag_batch.
  set (n := if _ <? _ then _ else _).
  assert (n = 1) as ->.
  { subst n. by destruct hardware_concurrency as [|[|hw]]. }
  change (join_schedule 1 _) with (replicate 6 0).
  set (texts := ["Dogs run. Cats sleep."%string]).
  assert (Hrun : ∀ st,
    st = mkBatch 0 true [zero_doc] [at_loop_test]
    ∨ st = mkBatch 0 true [zero_doc] [at_fetch_add]
    ∨ st = mkBatch 1 true [zero_doc] [at_body 0] →
    run_workers cats_fail_model texts 0 (schedule ++ replicate 6 0) st (empty_mem [])
    = None).
  { induction schedule as [|tid schedule IH]; intros st Hst.
    - destruct Hst as [->|[->| ->]]; vm_compute; reflexivity.
    - destruct tid as [|tid].
      + destruct Hst as [->|[->| ->]].
        * apply (IH (mkBatch 0 true [zero_doc] [at_fetch_add])). auto.
        * apply (IH (mkBatch 1 true [zero_doc] [at_body 0])). auto.
        * vm_compute. reflexivity.
      + replace (run_workers cats_fail_model texts 0
                   ((S tid :: schedule) ++ replicate 6 0) st (empty_mem []))
          with (run_workers cats_fail_model texts 0
                  (schedule ++ replicate 6 0) st (empty_mem [])); [auto|].
        by destruct Hst as [->|[->| ->]]. }
  unfold mbind at 1, M_bind at 1. simpl length. simpl replicate. rewrite Hrun; auto.
Qed.

(** The same defect on the single-text path (lines 176-181). *)
Example tag_structured_failure_frees_vector_storage :
  udpipe_tag_structured (Some cats_fail_model) (Some "Dogs run. Cats sleep."%string) 0
    (Some zero_doc) (empty_mem [])
  = None.
Proof. vm_compute. reflexivity. Qed.

(** An engine failure on the first sentence leaves the vector empty,
    and the batch call returns 0 with every slot released. *)
Example tag_batch_no_tagger :
  (udpipe_tag_batch (Some no_tagger_model) (Some ["Dogs run."; "Dogs run."]%string) 0
     (Some None) (Some 0) 2 [0; 1; 0; 1] (empty_mem []) ≫= λ '(r, m'),
   Some (r, dom (mem_arenas m'), dom (mem_blocks m')))
  = Some ((0%Z, Some None, Some 0), ∅, ∅).
Proof. vm_compute. reflexivity. Qed.

(** C9 on a run: a populated document, released twice. *)
Lemma free_doc_idempotent_witness :
  ∃ d m r m',
    udpipe_tag_structured (Some sample_model) (Some "Dogs run."%string) 1
      (Some zero_doc) (empty_mem []) = Some ((1%Z, Some d), m)
    ∧ udpipe_free_doc (Some d) m = Some (r, m')
    ∧ r = Some zero_doc
    ∧ udpipe_free_doc r m' = Some (r, m').
Proof.
  assert (Hrun : ∃ d m r m',
    udpipe_tag_structured (Some sample_model) (Some "Dogs run."%string) 1
      (Some zero_doc) (empty_mem []) = Some ((1%Z, Some d), m)
    ∧ udpipe_free_doc (Some d) m = Some (r, m')).
  { eexists _, _, _, _. split; vm_compute; reflexivity. }
  destruct Hrun as (d & m & r & m' & Hrun & Hfree).
  exists d, m, r, m'. split; [exact Hrun|]. split; [exact Hfree|].
  exact (proj1 (proj2 (free_doc_idempotent d m)) r m' Hfree).
Defined.

(** Tagging a text and releasing the document leaves no arena and no
    array behind. *)
Example tag_then_free_leaves_nothing :
  (udpipe_tag_structured (Some sample_model) (Some "Dogs run. Cats sleep."%string) 1
     (Some zero_doc) (empty_mem []) ≫= λ '((_, out), m),
   udpipe_free_doc out m ≫= λ '(out, m),
   Some (out, dom (mem_arenas m), dom (mem_blocks m)))
  = Some (Some zero_doc, ∅, ∅).
Proof. vm_compute. reflexivity. Qed.

(** A batch, then [udpipe_free_batch], leaves no arena and no array. *)
Example tag_batch_then_free_leaves_nothing :
  (udpipe_tag_batch (Some sample_model)
     (Some ["Dogs run."; "Dogs run. Cats sleep."]%string) 1
     (Some None) (Some 0) 4 [1; 0; 1; 0] (empty_mem []) ≫= λ '((_, out_docs, out_size), m),
   udpipe_free_batch (default None out_docs) (default 0 out_size) m ≫= λ '(_, m),
   Some (dom (mem_arenas m), dom (mem_blocks m)))
  = Some (∅, ∅).
Proof. vm_compute. reflexivity. Qed.

(** Why C3 asks the engine to report its failures: when [tag] returns
    false and leaves [error] empty, line 142 leaves the loop, line 176
    sees no message, and the call returns 1 with the sentences read
    before the failure; the batch path (lines 331 and 364) returns 0. *)
Example silent_failure_is_not_seen :
  match udpipe_tag_structured (Some silent_fail_model)
          (Some "Dogs run. Cats sleep."%string) 0 (Some zero_doc) (empty_mem []) with
  | Some ((r, Some d), _) => Some (r, doc_count d)
  | _ => None
  end = Some (1%Z, 1).
Proof. vm_compute. reflexivity. Qed.

(** The same fault without any engine failure: [malloc] refuses the
    token array of the second sentence (lines 355-356), or the sentence
    array of the text (lines 372-378). *)
Example tag_batch_alloc_failure_frees_vector_storage :
  udpipe_tag_batch (Some sample_model) (Some ["Dogs run. Cats sleep."%string]) 0
    (Some None) (Some 0) 1 [] (empty_mem [true; true; false]) = None
  ∧ udpipe_tag_batch (Some sample_model) (Some ["Dogs run. Cats sleep."%string]) 0
      (Some None) (Some 0) 1 [] (empty_mem [true; true; true; false]) = None.
Proof. split; vm_compute; reflexivity. Qed.

(** When [malloc] refuses the array of documents itself (lines 397-404)
    every slot is released and the call returns 0. *)
Example tag_batch_array_failure_releases_all :
  (udpipe_tag_batch (Some sample_model) (Some ["Dogs run. Cats sleep."%string]) 0
     (Some None) (Some 0) 1 [] (empty_mem [true; true; true; true; false])
   ≫= λ '(r, m'), Some (r, dom (mem_arenas m'), dom (mem_blocks m')))
  = Some ((0%Z, Some None, Some 0), ∅, ∅).
Proof. vm_compute. reflexivity. Qed.

(** On the single-text path a refused sentence array (lines 185-188)
    returns 0 with the arena on the output; the token arrays built so
    far stay allocated and nothing points to them any more. *)
Example tag_structured_array_failure_keeps_tokens :
  (udpipe_tag_structured (Some sample_model) (Some "Dogs run. Cats sleep."%string) 0
     (Some zero_doc) (empty_mem [true; true; true; false])
   ≫= λ '(r, m'), Some (r, dom (mem_arenas m'), dom (mem_blocks m')))
  = Some ((0%Z, Some (mkDoc sentences_null 0 (Some 0))), {[0]}, {[1; 2]}).
Proof. vm_compute. reflexivity. Qed.

(* ================================================================== *)
(** * Further properties of the code *)

(** ** The arena: alignment, separation, economy *)

Lemma align_up_aligned off : align_up off mod sizeof_ptr = 0.
Proof.
  unfold align_up, sizeof_ptr. destruct (Nat.eqb_spec (off mod 8) 0) as [H0|Hne]; [done|].
  pose proof (Nat.mod_upper_bound off 8 ltac:(lia)) as Hlt.
  pose proof (Nat.div_mod_eq off 8) as Hdiv.
  replace (off + (8 - off mod 8)) with ((off / 8 + 1) * 8) by lia.
  apply Nat.Div0.mod_mul.
Qed.

Lemma align_up_ge off : off ≤ align_up off.
Proof. unfold align_up. destruct (_ =? _); lia. Qed.

Lemma align_up_fixed off : off mod sizeof_ptr = 0 → align_up off = off.
Proof. unfold align_up. intros ->. done. Qed.

Lemma align_up_add x r : x mod sizeof_ptr = 0 → align_up (x + r) = x + align_up r.
Proof.
  unfold align_up, sizeof_ptr. intros Hx.
  assert (Hmod : (x + r) mod 8 = r mod 8).
  { by rewrite Nat.Div0.add_mod, Hx, Nat.add_0_l, Nat.Div0.mod_mod. }
  rewrite Hmod. destruct (r mod 8 =? 0); lia.
Qed.

(** The three ways a call of [allocate] returns. *)
Lemma allocate_inv s a o p a' o' :
  allocate s a o = Some (p, a', o') →
  (p = empty_str ∧ blocks_ a' = blocks_ a ∧ current_block_ a' = None
   ∧ needs_new_block s a = true ∧ malloc_succeeds o = (false, o'))
  ∨ (p = block_ptr (length (blocks_ a)) 0
     ∧ length (blocks_ a') = S (length (blocks_ a))
     ∧ current_block_ a' = Some (length (blocks_ a))
     ∧ current_offset_ a' = String.length s + 1
     ∧ needs_new_block s a = true ∧ malloc_succeeds o = (true, o'))
  ∨ (∃ b, current_block_ a = Some b ∧ b < length (blocks_ a)
       ∧ p = block_ptr b (align_up (current_offset_ a))
       ∧ current_block_ a' = Some b
       ∧ length (blocks_ a') = length (blocks_ a)
       ∧ current_offset_ a' = align_up (current_offset_ a) + (String.length s + 1)
       ∧ block_size_ a' = block_size_ a
       ∧ needs_new_block s a = false ∧ o' = o).
Proof.
  unfold allocate, needs_new_block.
  cbn [blocks_ current_block_ current_offset_ block_size_].
  destruct (_ || _) eqn:Hneed.
  - destruct (malloc_succeeds o) as [[] o1] eqn:Hok.
    + unfold store_string. cbn [blocks_ current_block_ current_offset_ block_size_].
      simpl. rewrite lookup_app_r by lia. rewrite Nat.sub_diag. simpl.
      destruct (memcpy _ 0 (c_str s)) as [blk'|]; [|done]. simpl.
      intros [= <- <- <-]. right. left. simpl.
      rewrite length_insert, length_app. simpl. repeat split; try done. lia.
    + intros [= <- <- <-]. by left.
  - unfold store_string. cbn [blocks_ current_block_ current_offset_ block_size_].
    destruct (current_block_ a) as [b|] eqn:Hcur; [|done]. simpl.
    destruct (blocks_ a !! b) as [blk|] eqn:Hblk; [|done]. simpl.
    destruct (memcpy blk _ (c_str s)) as [blk'|]; [|done]. simpl.
    intros [= <- <- <-]. right. right. exists b. simpl.
    rewrite length_insert. apply lookup_lt_Some in Hblk. repeat split; try done.
Qed.

(** X1.  Every pointer [allocate] returns into a block is aligned to
    the pointer size. *)
Theorem allocate_pointer_aligned
    (s : string) (a : StringArena) (o : oracle)
    (b off : nat) (a' : StringArena) (o' : oracle) :
  allocate s a o = Some (block_ptr b off, a', o') →
  off mod sizeof_ptr = 0.
Proof.
  intros Hal. apply allocate_inv in Hal
    as [(? & _)|[([= _ ->] & _)|(b' & _ & _ & [= _ ->] & _)]];
    [done|reflexivity|].
  apply align_up_aligned.
Qed.

(** X1 on a run: "run" after "Dogs" lands at offset 8. *)
Lemma allocate_pointer_aligned_witness :
  ∃ a o a' o',
    allocate "run" a o = Some (block_ptr 0 8, a', o') ∧ 8 mod sizeof_ptr = 0.
Proof.
  assert (Hrun : ∃ a o a' o',
    allocate "Dogs" (new_StringArena 16) [] = Some (block_ptr 0 0, a, o)
    ∧ allocate "run" a o = Some (block_ptr 0 8, a', o')).
  { eexists _, _, _, _. split; vm_compute; reflexivity. }
  destruct Hrun as (a & o & a' & o' & _ & Hrun).
  exists a, o, a', o'. split; [exact Hrun|].
  exact (allocate_pointer_aligned "run" a o 0 8 a' o' Hrun).
Defined.

Lemma allocate_below_cursor_own s a o b off a' o' :
  allocate s a o = Some (block_ptr b off, a', o') →
  below_cursor a' b off (String.length s + 1).
Proof.
  intros Hal. apply allocate_inv in Hal
    as [(? & _)|[([= -> ->] & Hlen & Hcur & Hoff & _)
                |(b' & _ & Hb & [= -> ->] & Hcur & Hlen & Hoff & _)]]; [done| |].
  - split; [lia|]. intros _. lia.
  - split; [lia|]. intros _. lia.
Qed.

Lemma allocate_below_cursor_keep s a o p a' o' b off len :
  allocate s a o = Some (p, a', o') →
  below_cursor a b off len → below_cursor a' b off len.
Proof.
  intros Hal [Hb Hcur]. apply allocate_inv in Hal
    as [(_ & Hbl & Hc & _)|[(_ & Hlen & Hc & _)
                           |(b' & Hcb & _ & _ & Hc & Hlen & Hoff & _)]].
  - split; [by rewrite Hbl|]. by rewrite Hc.
  - split; [lia|]. rewrite Hc. intros [= <-]. lia.
  - split; [lia|]. rewrite Hc. intros [= ->].
    pose proof (align_up_ge (current_offset_ a)). specialize (Hcur Hcb). lia.
Qed.

Lemma allocate_all_below_cursor_keep ss a o ps a' o' b off len :
  allocate_all ss a o = Some (ps, a', o') →
  below_cursor a b off len → below_cursor a' b off len.
Proof.
  revert a o ps a' o'.
  induction ss as [|s ss IH]; intros a o ps a' o' Hall Hbelow; simpl in Hall.
  - by injection Hall as _ <- _.
  - destruct (allocate s a o) as [[[p a1] o1]|] eqn:Hal; [|done]. simpl in Hall.
    destruct (allocate_all ss a1 o1) as [[[ps1 a2] o2]|] eqn:Hall1; [|done].
    injection Hall as _ <- _. eauto using allocate_below_cursor_keep.
Qed.

(** X2.  Two strings allocated in one arena never share a byte: when
    both pointers lie in the same block, the later string starts at or
    after the end of the earlier one, terminator included. *)
Theorem allocations_do_not_overlap
    (s1 : string) (a : StringArena) (o : oracle) (b1 off1 : nat)
    (a1 : StringArena) (o1 : oracle) (ss : list string) (ps : list char_ptr)
    (a2 : StringArena) (o2 : oracle) (s2 : string) (b2 off2 : nat)
    (a3 : StringArena) (o3 : oracle) :
  allocate s1 a o = Some (block_ptr b1 off1, a1, o1) →
  allocate_all ss a1 o1 = Some (ps, a2, o2) →
  allocate s2 a2 o2 = Some (block_ptr b2 off2, a3, o3) →
  b1 ≠ b2 ∨ off1 + (String.length s1 + 1) ≤ off2.
Proof.
  intros H1 Hall H2.
  pose proof (allocate_below_cursor_own _ _ _ _ _ _ _ H1) as Hbelow.
  apply (allocate_all_below_cursor_keep _ _ _ _ _ _ _ _ _ Hall) in Hbelow
    as [Hb Hcur].
  apply allocate_inv in H2
    as [(? & _)|[([= -> ->] & _)|(b' & Hcb & _ & [= -> ->] & _)]]; [done| |].
  - left. lia.
  - destruct (decide (b1 = b')) as [->|]; [right|by left].
    pose proof (align_up_ge (current_offset_ a2)). specialize (Hcur Hcb). lia.
Qed.

(** X2 on a run: "Dogs", then "run", then "." in 16-byte blocks. *)
Lemma allocations_do_not_overlap_witness :
  ∃ a1 o1 ps a2 o2 a3 o3,
    allocate "Dogs" (new_StringArena 16) [] = Some (block_ptr 0 0, a1, o1)
    ∧ allocate_all ["run"%string] a1 o1 = Some (ps, a2, o2)
    ∧ allocate "." a2 o2 = Some (block_ptr 1 0, a3, o3)
    ∧ (0 ≠ 1 ∨ 0 + (String.length "Dogs" + 1) ≤ 0).
Proof.
  assert (Hrun : ∃ a1 o1 ps a2 o2 a3 o3,
    allocate "Dogs" (new_StringArena 16) [] = Some (block_ptr 0 0, a1, o1)
    ∧ allocate_all ["run"%string] a1 o1 = Some (ps, a2, o2)
    ∧ allocate "." a2 o2 = Some (block_ptr 1 0, a3, o3)).
  { eexists _, _, _, _, _, _, _. repeat split; vm_compute; reflexivity. }
  destruct Hrun as (a1 & o1 & ps & a2 & o2 & a3 & o3 & H1 & Hall & H2).
  exists a1, o1, ps, a2, o2, a3, o3. do 3 (split; [assumption|]).
  exact (allocations_do_not_overlap _ _ _ _ _ _ _ _ _ _ _ _ _ _ _ _ H1 Hall H2).
Defined.

Lemma until_nul_nul_free s : until_nul s = s ↔ nul_free s.
Proof.
  unfold nul_free. induction s as [|c s IH]; simpl.
  - split; [constructor|done].
  - destruct (Ascii.eqb_spec c zero) as [->|Hne].
    + split; [done|]. intros H. by apply Forall_cons in H as [? _].
    + rewrite Forall_cons. split.
      * intros [= Heq]. split; [done|]. by apply IH.
      * intros [_ H]. f_equal. by apply IH.
Qed.

(** X3.  The copy in the arena reads back as the very string that was
    passed exactly when that string holds no NUL byte; a string with
    one reads back cut at it. *)
Theorem allocate_reads_back
    (s : string) (a : StringArena) (o : oracle)
    (p : char_ptr) (a' : StringArena) (o' : oracle) :
  arena_wf a →
  allocate s a o = Some (p, a', o') →
  p ≠ empty_str →
  read_cstr a' p = Some (until_nul s)
  ∧ (read_cstr a' p = Some s ↔ nul_free s).
Proof.
  intros Hwf Hal Hp.
  destruct (allocate_spec s a o Hwf) as (p0 & a0 & o0 & Hal0 & _ & _ & _ & Hrd & _).
  rewrite Hal in Hal0. injection Hal0 as <- <- <-.
  assert (Hread : read_cstr a' p = Some (until_nul s)) by (by destruct p).
  split; [done|]. rewrite Hread, <- until_nul_nul_free.
  split; [by intros [= ->]|by intros ->].
Qed.

(** X3 on a run. *)
Lemma allocate_reads_back_witness :
  ∃ p a' o',
    allocate "Dogs" (new_StringArena 16) [] = Some (p, a', o')
    ∧ read_cstr a' p = Some (until_nul "Dogs")
    ∧ (read_cstr a' p = Some "Dogs"%string ↔ nul_free "Dogs").
Proof.
  assert (Hrun : ∃ a' o',
    allocate "Dogs" (new_StringArena 16) [] = Some (block_ptr 0 0, a', o')).
  { eexists _, _. vm_compute. reflexivity. }
  destruct Hrun as (a' & o' & Hrun). exists (block_ptr 0 0), a', o'.
  split; [exact Hrun|].
  apply (allocate_reads_back "Dogs" (new_StringArena 16) [] (block_ptr 0 0) a' o');
    [apply new_StringArena_wf | exact Hrun | discriminate].
Defined.

Lemma padded_size_ge s : String.length s + 1 ≤ padded_size s.
Proof. apply align_up_ge. Qed.

(** Strings that fit after the cursor of the current block go there,
    one after the other, without a call of [malloc]. *)
Lemma allocate_all_fits ss a o :
  arena_wf a → current_block_ a = Some 0 → length (blocks_ a) = 1 →
  align_up (current_offset_ a) + sum_list (padded_size <$> ss) ≤ block_size_ a →
  ∃ ps a',
    allocate_all ss a o = Some (ps, a', o)
    ∧ length (blocks_ a') = 1
    ∧ Forall (λ p, ∃ off, p = block_ptr 0 off) ps.
Proof.
  revert a. induction ss as [|s ss IH]; intros a Hwf Hcur Hlen Hroom.
  - exists [], a. by repeat split.
  - rewrite fmap_cons in Hroom. simpl in Hroom.
    pose proof (padded_size_ge s) as Hpad.
    assert (Hneed : needs_new_block s a = false).
    { unfold needs_new_block. rewrite Hcur. simpl. apply Nat.ltb_ge. lia. }
    destruct (allocate_fits s a o Hwf Hneed)
      as (b & a1 & Hal & Hb & Hcur1 & Hlen1 & Hsz1 & Hwf1 & _).
    rewrite Hcur in Hb. injection Hb as <-.
    pose proof Hal as Hinv. apply allocate_inv in Hinv
      as [(? & _)|[(_ & _ & _ & _ & Hn & _)|(b' & _ & _ & _ & _ & _ & Hoff1 & _)]];
      [done|congruence|].
    destruct (IH a1 Hwf1 Hcur1 ltac:(lia)) as (ps & a2 & Hall & Hlen2 & Hps).
    { rewrite Hoff1, align_up_add by apply align_up_aligned.
      rewrite Hsz1. unfold padded_size in *. lia. }
    exists (block_ptr 0 (align_up (current_offset_ a)) :: ps), a2.
    simpl. rewrite Hal. simpl. rewrite Hall. simpl.
    split; [done|]. split; [done|]. constructor; [eauto|done].
Qed.

(** X4.  Economy: strings whose padded sizes add up to no more than the
    block size of a fresh arena all go into one block, so that the
    whole run calls [malloc] once. *)
Theorem small_strings_share_one_block
    (bs : nat) (ss : list string) (o o1 : oracle) :
  ss ≠ [] →
  malloc_succeeds o = (true, o1) →
  sum_list (padded_size <$> ss) ≤ bs →
  ∃ ps a',
    allocate_all ss (new_StringArena bs) o = Some (ps, a', o1)
    ∧ length (blocks_ a') = 1
    ∧ Forall (λ p, ∃ off, p = block_ptr 0 off) ps.
Proof.
  intros Hne Hok Hsum. destruct ss as [|s ss]; [done|].
  rewrite fmap_cons in Hsum. simpl in Hsum.
  pose proof (padded_size_ge s) as Hpad.
  destruct (allocate_new_block s (new_StringArena bs) o o1 eq_refl Hok)
    as (blk & a1 & Hal & Hbl & _ & Hcur & Hsz & Hoff & Hwf & _).
  simpl in *.
  destruct (allocate_all_fits ss a1 o1 Hwf Hcur) as (ps & a2 & Hall & Hlen & Hps).
  { by rewrite Hbl. }
  { rewrite Hoff, Hsz. unfold padded_size in *. lia. }
  exists (block_ptr 0 0 :: ps), a2. rewrite Hal. simpl. rewrite Hall. simpl.
  split; [done|]. split; [done|]. constructor; [eauto|done].
Qed.

(** X4 on a run: the six fields of a token in a default arena. *)
Lemma small_strings_share_one_block_witness :
  ∃ ps a',
    allocate_all ["Dogs"; "dog"; "NOUN"; "NNS"; "Number=Plur"; "nsubj"]%string
      (new_StringArena DEFAULT_BLOCK_SIZE) [true; false] = Some (ps, a', [false])
    ∧ length (blocks_ a') = 1
    ∧ Forall (λ p, ∃ off, p = block_ptr 0 off) ps.
Proof.
  apply (small_strings_share_one_block DEFAULT_BLOCK_SIZE
           ["Dogs"; "dog"; "NOUN"; "NNS"; "Number=Plur"; "nsubj"]%string
           [true; false] [false]).
  - discriminate.
  - reflexivity.
  - vm_compute. lia.
Defined.

(** ** The structured entry points: what they hold, what they leave *)

(** Every test the body of a structured call makes, in order. *)
Lemma structured_inv pl mdl opts text m r out m' :
  structured pl mdl opts text m = Some ((r, out), m') →
  let pa := mem_next m in
  let m1 := mkMem (mem_oracle m)
                  (<[pa := new_StringArena DEFAULT_BLOCK_SIZE]> (mem_arenas m))
                  (mem_blocks m) (S pa) in
  (new_tokenizer mdl opts = None ∧ r = 0%Z
   ∧ out = Some (mkDoc sentences_null 0 (Some pa)) ∧ m' = m1)
  ∨ ∃ reader svs error ok m2,
      new_tokenizer mdl opts = Some reader
      ∧ sentence_loop pl mdl pa (yields (reader text)) (final_error (reader text)) [] m1
        = Some ((svs, error, ok), m2)
      ∧ ((error ≠ EmptyString ∧ svs = [] ∧ r = 0%Z
          ∧ out = Some (mkDoc sentences_null 0 (Some pa)) ∧ m' = m2)
         ∨ (error = EmptyString ∧ malloc (length svs) m2 = Some (None, m')
            ∧ r = 0%Z ∧ out = Some (mkDoc sentences_null 0 (Some pa)))
         ∨ (error = EmptyString
            ∧ (∃ m3, malloc (length svs) m2 = Some (Some (mem_next m2), m3)
                 ∧ memcpy_cells (mem_next m2) (sentence_array svs) m3 = Some (tt, m'))
            ∧ r = 1%Z
            ∧ out = Some (mkDoc (sentences_at (mem_next m2)) (length svs) (Some pa)))).
Proof.
  intros Hrun pa m1. unfold structured in Hrun.
  apply bind_Some in Hrun as (pa' & m1' & Hnew & Hrun).
  assert (pa' = pa ∧ m1' = m1) as [-> ->] by (by injection Hnew as <- <-).
  destruct (new_tokenizer mdl opts) as [reader|] eqn:Htok.
  2:{ apply ret_Some in Hrun as [[= <- <-] <-]. by left. }
  right. apply bind_Some in Hrun as ([[svs error] ok] & m2 & Hloop & Hrun).
  exists reader, svs, error, ok, m2. split; [done|]. split; [done|].
  case_decide as He.
  - right. subst error.
    apply bind_Some in Hrun as ([a|] & m3 & Hmal & Hrun).
    + right. apply bind_Some in Hrun as ([] & m4 & Hcpy & Hrun).
      apply ret_Some in Hrun as [[= <- <-] <-].
      pose proof (malloc_spec _ _ _ _ Hmal) as (_ & -> & _). eauto 10.
    + left. apply ret_Some in Hrun as [[= <- <-] <-]. done.
  - left. apply bind_Some in Hrun as (? & m3 & Hfree & Hrun).
    apply free_doc_vector in Hfree as [-> ->].
    by apply ret_Some in Hrun as [[= <- <-] <-].
Qed.

(** A structured call that returns 1 holds the whole output of the
    engine whenever a silent failure of the engine is excluded. *)
Lemma structured_success_output pl mdl opts text m out m' :
  (∀ final rest ok, loop_exit pl mdl final rest EmptyString ok → rest = []) →
  structured pl mdl opts text m = Some ((1%Z, out), m') →
  holds_engine_output pl mdl opts text m' out.
Proof.
  intros Hexits Hrun.
  destruct (structured_spec _ _ _ _ _ _ _ _ Hrun)
    as (ar & _ & _ & _ & [[? _]|(_ & reader & d & seen & rest & ok
                                   & Htok & -> & Hdoc & Hnext & Hexit)]);
    [done|].
  apply Hexits in Hexit as ->. rewrite app_nil_r in Hnext. subst seen.
  pose proof Hdoc as (pa & ar' & sa & svs & _ & _ & _ & _ & Hsa & _ & Hb & Hc & Hall & _).
  exists d, (engine_sentence pl mdl <$> (yields (reader text)).*1), sa, svs.
  pose proof (Forall2_length _ _ _ Hall) as Hlen.
  split; [done|]. split.
  { unfold engine_output. rewrite Htok. simpl. by rewrite <- list_fmap_compose. }
  split; [done|]. split; [done|]. split; [congruence|]. split; [done|].
  split; [|by exists (mem_next m), (mem_next m')].
  eapply Forall2_impl; [exact Hall|].
  intros sv s (a & toks & Hsv & _ & Hba & Hcount & Htoks).
  exists a, toks. split; [done|]. split; [done|].
  apply token_ids in Htoks. unfold output_words in Htoks.
  rewrite filter_word_id, <- Htoks, length_fmap. done.
Qed.

Lemma loop_exit_tokenizing mdl final rest ok :
  loop_exit tokenizing mdl final rest EmptyString ok → rest = [].
Proof. by intros [(_ & -> & _)|(_ & [?|(s & ? & _)])]. Qed.

(** X5.  When [udpipe_tokenize_structured] returns 1, the document has
    one sentence view per sentence of the tokenizer, in order, each
    with the words whose identifier is above 0, in order, their forms
    copied into the arena and their byte ranges (0 and 0 where the
    tokenizer gives none); no word is dropped besides those at or below
    0 and no sentence is. *)
Theorem tokenize_structured_keeps_tokenizer_output
    (mdl : model) (text : string) (tokenizer_options : option string)
    (d0 : udpipe_doc_view) (m : mem) (out : option udpipe_doc_view) (m' : mem) :
  udpipe_tokenize_structured (Some mdl) (Some text) tokenizer_options (Some d0) m
  = Some ((1%Z, out), m') →
  holds_engine_output tokenizing mdl (default EmptyString tokenizer_options) text m' out
  ∧ engine_output tokenizing mdl (default EmptyString tokenizer_options) text
    = (λ reader, (yields (reader text)).*1)
        <$> new_tokenizer mdl (default EmptyString tokenizer_options).
Proof.
  intros Hrun. rewrite tokenize_structured_unfold in Hrun. split.
  - eapply structured_success_output; [|exact Hrun].
    eauto using loop_exit_tokenizing.
  - unfold engine_output. destruct (new_tokenizer mdl _) as [reader|]; [|done].
    done.
Qed.

(** X5 on a run. *)
Lemma tokenize_structured_keeps_tokenizer_output_witness :
  ∃ out m',
    udpipe_tokenize_structured (Some no_tagger_model) (Some "Dogs run. Cats sleep."%string)
      (Some "ranges"%string) (Some zero_doc) (empty_mem []) = Some ((1%Z, out), m')
    ∧ holds_engine_output tokenizing no_tagger_model "ranges" "Dogs run. Cats sleep."
        m' out
    ∧ engine_output tokenizing no_tagger_model "ranges" "Dogs run. Cats sleep."
      = (λ reader, (yields (reader "Dogs run. Cats sleep."%string)).*1)
          <$> new_tokenizer no_tagger_model "ranges".
Proof.
  assert (Hrun : ∃ out m',
    udpipe_tokenize_structured (Some no_tagger_model) (Some "Dogs run. Cats sleep."%string)
      (Some "ranges"%string) (Some zero_doc) (empty_mem []) = Some ((1%Z, out), m')).
  { eexists _, _. vm_compute. reflexivity. }
  destruct Hrun as (out & m' & Hrun). exists out, m'. split; [exact Hrun|].
  exact (tokenize_structured_keeps_tokenizer_output no_tagger_model
           "Dogs run. Cats sleep." (Some "ranges"%string) zero_doc (empty_mem [])
           out m' Hrun).
Defined.

(** The loop stops at the first answer it does not accept, or at the
    first token array it cannot allocate, with the message of that
    answer; it has pushed one view for each answer before. *)
Lemma sentence_loop_trace pl mdl pa next final svs0 m svs error ok m' :
  sentence_loop pl mdl pa next final svs0 m = Some ((svs, error, ok), m') →
  ∃ seen rest new,
    next = seen ++ rest ∧ Forall (accepted pl mdl) seen
    ∧ svs = svs0 ++ new ∧ length new = length seen
    ∧ ((ok = true ∧ rest = [] ∧ error = final)
       ∨ (ok = false
          ∧ ∃ y rest', rest = y :: rest'
              ∧ ((y.2 ≠ EmptyString ∧ error = y.2)
                 ∨ (y.2 = EmptyString ∧ (run_engine pl mdl y.1).1.1 = false
                    ∧ error = (run_engine pl mdl y.1).2)
                 ∨ (accepted pl mdl y ∧ error = "alloc failure"%string)))).
Proof.
  revert svs0 m. induction next as [|[s e] next IH]; intros svs0 m Hrun.
  - apply ret_Some in Hrun as [[= <- <- <-] <-]. exists [], [], [].
    do 4 (split; [by rewrite ?app_nil_r || constructor|]). by left.
  - simpl in Hrun. case_decide as He.
    2:{ apply ret_Some in Hrun as [[= <- <- <-] <-]. exists [], ((s, e) :: next), [].
        do 4 (split; [by rewrite ?app_nil_r || constructor|]). right. split; [done|].
        exists (s, e), next. split; [done|]. by left. }
    destruct (run_engine pl mdl s) as [[ok1 s1] e1] eqn:Heng.
    destruct ok1; simpl in Hrun.
    2:{ apply ret_Some in Hrun as [[= <- <- <-] <-]. exists [], ((s, e) :: next), [].
        do 4 (split; [by rewrite ?app_nil_r || constructor|]). right. split; [done|].
        exists (s, e), next. split; [done|]. right. left. simpl. by rewrite Heng. }
    assert (Hacc : accepted pl mdl (s, e)) by (split; simpl; [done|by rewrite Heng]).
    apply bind_Some in Hrun as (toks & m1 & Hmat & Hrun).
    apply bind_Some in Hrun as ([a|] & m2 & Hmal & Hrun).
    + apply bind_Some in Hrun as ([] & m3 & Hcpy & Hrun).
      apply IH in Hrun as (seen & rest & new & -> & Hseen & -> & Hlen & Hend).
      exists ((s, e) :: seen), rest, (mkSentenceView (Some a) (length toks) :: new).
      split; [done|]. split; [by constructor|].
      split; [by rewrite <- app_assoc|]. split; [simpl; lia|]. done.
    + apply ret_Some in Hrun as [[= <- <- <-] <-]. exists [], ((s, e) :: next), [].
      do 4 (split; [by rewrite ?app_nil_r || constructor|]). right. split; [done|].
      exists (s, e), next. split; [done|]. by right; right.
Qed.

(** A structured call returns 1 only after the loop has accepted every
    answer of the reader and the reader has ended without a message,
    unless an engine call failed and left no message. *)
Lemma structured_success_all_accepted pl mdl opts text m out m' :
  (∀ s, (run_engine pl mdl s).1.1 = false → (run_engine pl mdl s).2 ≠ EmptyString) →
  structured pl mdl opts text m = Some ((1%Z, out), m') →
  ∃ reader d,
    new_tokenizer mdl opts = Some reader ∧ out = Some d
    ∧ final_error (reader text) = EmptyString
    ∧ Forall (accepted pl mdl) (yields (reader text))
    ∧ doc_count d = length (yields (reader text)).
Proof.
  intros Hrep Hrun. apply structured_inv in Hrun.
  destruct Hrun as [(_ & ? & _)|(reader & svs & error & ok & m2 & Htok & Hloop & Hend)];
    [done|].
  destruct Hend as [(_ & _ & ? & _)|[(_ & _ & ? & _)|(-> & _ & _ & ->)]]; [done..|].
  apply sentence_loop_trace in Hloop
    as (seen & rest & new & Hnext & Hseen & -> & Hlen & Hend).
  exists reader, (mkDoc (sentences_at (mem_next m2)) (length ([] ++ new))
                        (Some (mem_next m))).
  split; [done|]. split; [done|].
  destruct Hend as [(_ & -> & Hfinal)|(_ & y & rest' & -> & Hy)].
  - rewrite app_nil_r in Hnext. subst seen. simpl. by rewrite Hlen.
  - destruct Hy as [[Hne Hy]|[(_ & Hfail & Hy)|[_ ?]]]; [congruence| |done].
    apply Hrep in Hfail. congruence.
Qed.

(** X6.  [udpipe_tag_structured] does not swallow an error: with an
    engine that leaves a message whenever a call of it fails, the call
    returns 1 only if the model has a tokenizer, [next_sentence] never
    came with a message, the tagger (and with [do_parse] not 0 the
    parser) returned true on every sentence, and the reader ended
    without a message; the document then counts one sentence for each
    answer of the reader. *)
Theorem tag_structured_success_means_no_error
    (mdl : model) (text : string) (do_parse : Z) (d0 : udpipe_doc_view)
    (m : mem) (out : option udpipe_doc_view) (m' : mem) :
  reports_errors mdl →
  udpipe_tag_structured (Some mdl) (Some text) do_parse (Some d0) m
  = Some ((1%Z, out), m') →
  ∃ reader d,
    new_tokenizer mdl EmptyString = Some reader ∧ out = Some d
    ∧ final_error (reader text) = EmptyString
    ∧ Forall (accepted (tagging do_parse) mdl) (yields (reader text))
    ∧ doc_count d = length (yields (reader text)).
Proof.
  intros Hrep Hrun. rewrite tag_structured_unfold in Hrun.
  eapply structured_success_all_accepted; [|exact Hrun].
  intros s. by apply run_engine_reports.
Qed.

(** X6 on a run. *)
Lemma tag_structured_success_means_no_error_witness :
  reports_errors sample_model
  ∧ ∃ out m',
      udpipe_tag_structured (Some sample_model) (Some "Dogs run. Cats sleep."%string) 1
        (Some zero_doc) (empty_mem []) = Some ((1%Z, out), m')
      ∧ ∃ reader d,
          new_tokenizer sample_model EmptyString = Some reader ∧ out = Some d
          ∧ final_error (reader "Dogs run. Cats sleep."%string) = EmptyString
          ∧ Forall (accepted (tagging 1) sample_model)
              (yields (reader "Dogs run. Cats sleep."%string))
          ∧ doc_count d = length (yields (reader "Dogs run. Cats sleep."%string)).
Proof.
  assert (Hrep : reports_errors sample_model) by (split; intros s; simpl; done).
  assert (Hrun : ∃ out m',
    udpipe_tag_structured (Some sample_model) (Some "Dogs run. Cats sleep."%string) 1
      (Some zero_doc) (empty_mem []) = Some ((1%Z, out), m')).
  { eexists _, _. vm_compute. reflexivity. }
  split; [exact Hrep|].
  destruct Hrun as (out & m' & Hrun). exists out, m'. split; [exact Hrun|].
  exact (tag_structured_success_means_no_error sample_model "Dogs run. Cats sleep."
           1 zero_doc (empty_mem []) out m' Hrep Hrun).
Defined.

(** X7.  [udpipe_tokenize_structured] returns 1 only if the model has
    a tokenizer for the options (the empty string for a null
    [tokenizer_options]), no answer of [next_sentence] came with a
    message and the reader ended without one; the document counts one
    sentence for each answer. *)
Theorem tokenize_structured_success_means_no_error
    (mdl : model) (text : string) (tokenizer_options : option string)
    (d0 : udpipe_doc_view) (m : mem) (out : option udpipe_doc_view) (m' : mem) :
  udpipe_tokenize_structured (Some mdl) (Some text) tokenizer_options (Some d0) m
  = Some ((1%Z, out), m') →
  ∃ reader d,
    new_tokenizer mdl (default EmptyString tokenizer_options) = Some reader
    ∧ out = Some d
    ∧ final_error (reader text) = EmptyString
    ∧ Forall (λ y, y.2 = EmptyString) (yields (reader text))
    ∧ doc_count d = length (yields (reader text)).
Proof.
  intros Hrun. rewrite tokenize_structured_unfold in Hrun.
  apply structured_success_all_accepted in Hrun
    as (reader & d & Htok & -> & Hfinal & Hall & Hcount); [|done].
  exists reader, d. do 3 (split; [done|]). split; [|done].
  eapply Forall_impl; [exact Hall|]. by intros y [? _].
Qed.

(** X7 on a run. *)
Lemma tokenize_structured_success_means_no_error_witness :
  ∃ out m',
    udpipe_tokenize_structured (Some no_tagger_model) (Some "Dogs run. Cats sleep."%string)
      None (Some zero_doc) (empty_mem []) = Some ((1%Z, out), m')
    ∧ ∃ reader d,
        new_tokenizer no_tagger_model (default EmptyString None) = Some reader
        ∧ out = Some d
        ∧ final_error (reader "Dogs run. Cats sleep."%string) = EmptyString
        ∧ Forall (λ y, y.2 = EmptyString) (yields (reader "Dogs run. Cats sleep."%string))
        ∧ doc_count d = length (yields (reader "Dogs run. Cats sleep."%string)).
Proof.
  assert (Hrun : ∃ out m',
    udpipe_tokenize_structured (Some no_tagger_model) (Some "Dogs run. Cats sleep."%string)
      None (Some zero_doc) (empty_mem []) = Some ((1%Z, out), m')).
  { eexists _, _. vm_compute. reflexivity. }
  destruct Hrun as (out & m' & Hrun). exists out, m'. split; [exact Hrun|].
  exact (tokenize_structured_success_means_no_error no_tagger_model
           "Dogs run. Cats sleep." None zero_doc (empty_mem []) out m' Hrun).
Defined.

(** ** Which runs fault, and which succeed *)

Lemma malloc_succeeds_suffix o ok o' :
  malloc_succeeds o = (ok, o') → suffix o' o.
Proof.
  destruct o as [|b o]; intros [= <- <-]; [done|]. by apply suffix_cons_r.
Qed.

Lemma never_fails_suffix o o' : suffix o' o → never_fails o → never_fails o'.
Proof. intros [k ->] H. by apply Forall_app in H as [_ ?]. Qed.

Lemma never_fails_malloc o : never_fails o → ∃ o', malloc_succeeds o = (true, o').
Proof.
  destruct o as [|b o]; [by exists []|]. intros H.
  apply Forall_cons in H as [-> _]. by exists o.
Qed.

Lemma allocate_oracle s a o p a' o' :
  allocate s a o = Some (p, a', o') → suffix o' o.
Proof.
  intros H. apply allocate_inv in H
    as [(_ & _ & _ & _ & H)|[(_ & _ & _ & _ & _ & H)|(b & _ & _ & _ & _ & _ & _ & _ & _ & ->)]];
    [by eapply malloc_succeeds_suffix..|done].
Qed.

(** A call of [allocate] on a live arena never faults. *)
Lemma arena_allocate_total pa s m ar :
  mem_arenas m !! pa = Some ar → arena_wf ar →
  ∃ p m', arena_allocate pa s m = Some (p, m')
    ∧ suffix (mem_oracle m') (mem_oracle m).
Proof.
  intros Har Hwf.
  destruct (allocate_spec s ar (mem_oracle m) Hwf) as (p & a' & o' & Hal & _).
  exists p, (mkMem o' (<[pa := a']> (mem_arenas m)) (mem_blocks m) (mem_next m)).
  split; [|by eapply allocate_oracle].
  unfold arena_allocate. by rewrite Har; simpl; rewrite Hal.
Qed.

Lemma materialize_word_total pl pa w m ar :
  mem_arenas m !! pa = Some ar → arena_wf ar →
  ∃ t m', materialize_word pl pa w m = Some (t, m')
    ∧ suffix (mem_oracle m') (mem_oracle m).
Proof.
  intros Har Hwf.
  assert (Hsix : ∀ s1 s2 s3 s4 s5 s6,
    ∃ p1 p2 p3 p4 p5 p6 m1 m2 m3 m4 m5 m6,
      arena_allocate pa s1 m = Some (p1, m1)
      ∧ arena_allocate pa s2 m1 = Some (p2, m2)
      ∧ arena_allocate pa s3 m2 = Some (p3, m3)
      ∧ arena_allocate pa s4 m3 = Some (p4, m4)
      ∧ arena_allocate pa s5 m4 = Some (p5, m5)
      ∧ arena_allocate pa s6 m5 = Some (p6, m6)
      ∧ suffix (mem_oracle m6) (mem_oracle m)).
  { intros s1 s2 s3 s4 s5 s6.
    destruct (arena_allocate_total pa s1 m ar Har Hwf) as (p1 & m1 & H1 & S1).
    destruct (arena_allocate_spec _ _ _ _ _ _ H1 Har Hwf) as (a1 & Ha1 & Hw1 & _).
    destruct (arena_allocate_total pa s2 m1 a1 Ha1 Hw1) as (p2 & m2 & H2 & S2).
    destruct (arena_allocate_spec _ _ _ _ _ _ H2 Ha1 Hw1) as (a2 & Ha2 & Hw2 & _).
    destruct (arena_allocate_total pa s3 m2 a2 Ha2 Hw2) as (p3 & m3 & H3 & S3).
    destruct (arena_allocate_spec _ _ _ _ _ _ H3 Ha2 Hw2) as (a3 & Ha3 & Hw3 & _).
    destruct (arena_allocate_total pa s4 m3 a3 Ha3 Hw3) as (p4 & m4 & H4 & S4).
    destruct (arena_allocate_spec _ _ _ _ _ _ H4 Ha3 Hw3) as (a4 & Ha4 & Hw4 & _).
    destruct (arena_allocate_total pa s5 m4 a4 Ha4 Hw4) as (p5 & m5 & H5 & S5).
    destruct (arena_allocate_spec _ _ _ _ _ _ H5 Ha4 Hw4) as (a5 & Ha5 & Hw5 & _).
    destruct (arena_allocate_total pa s6 m5 a5 Ha5 Hw5) as (p6 & m6 & H6 & S6).
    exists p1, p2, p3, p4, p5, p6, m1, m2, m3, m4, m5, m6.
    do 6 (split; [done|]).
    repeat (etrans; [eassumption|]). done. }
  unfold materialize_word.
  destruct (match word_token_range w with Some (s, e) => (s, e) | None => (0, 0) end)
    as [start end_].
  destruct pl.
  - destruct (Hsix (word_form w) EmptyString EmptyString EmptyString EmptyString
                   EmptyString)
      as (p1 & p2 & p3 & p4 & p5 & p6 & m1 & m2 & m3 & m4 & m5 & m6
          & H1 & H2 & H3 & H4 & H5 & H6 & Hs).
    eexists _, m6. split; [|exact Hs].
    unfold mbind, M_bind. rewrite H1, H2, H3, H4, H5, H6. reflexivity.
  - destruct (Hsix (word_form w) (word_lemma w) (word_upostag w) (word_xpostag w)
                   (word_feats w) (word_deprel w))
      as (p1 & p2 & p3 & p4 & p5 & p6 & m1 & m2 & m3 & m4 & m5 & m6
          & H1 & H2 & H3 & H4 & H5 & H6 & Hs).
    eexists _, m6. split; [|exact Hs].
    unfold mbind, M_bind. rewrite H1, H2, H3, H4, H5, H6. reflexivity.
Qed.

Lemma materialize_total pl pa ws toks0 m ar :
  mem_arenas m !! pa = Some ar → arena_wf ar →
  ∃ toks m', materialize pl pa ws toks0 m = Some (toks, m')
    ∧ suffix (mem_oracle m') (mem_oracle m).
Proof.
  revert toks0 m ar. induction ws as [|w ws IH]; intros toks0 m ar Har Hwf.
  - by exists toks0, m.
  - simpl. destruct (word_id w <=? 0)%Z; [by eapply IH|].
    destruct (materialize_word_total pl pa w m ar Har Hwf) as (t & m1 & Hw & Hs1).
    destruct (materialize_word_spec _ _ _ _ _ _ _ Hw Har Hwf) as (a1 & Ha1 & Hw1 & _).
    destruct (IH (toks0 ++ [t]) m1 a1 Ha1 Hw1) as (toks & m2 & Hm & Hs2).
    exists toks, m2. split; [|by etrans].
    unfold mbind, M_bind. by rewrite Hw.
Qed.

Lemma malloc_total n m :
  ∃ p m', malloc n m = Some (p, m')
    ∧ suffix (mem_oracle m') (mem_oracle m)
    ∧ (never_fails (mem_oracle m) → p = Some (mem_next m)).
Proof.
  unfold malloc. destruct (malloc_succeeds (mem_oracle m)) as [ok o] eqn:Ho.
  pose proof (malloc_succeeds_suffix _ _ _ Ho) as Hs.
  destruct ok.
  - eexists _, _. split; [done|]. split; done.
  - eexists _, _. split; [done|]. split; [done|].
    intros Hn. apply never_fails_malloc in Hn as [o' Hn]. congruence.
Qed.

Lemma memcpy_after_malloc src m a m1 :
  malloc (cells_length src) m = Some (Some a, m1) →
  ∃ m2, memcpy_cells a src m1 = Some (tt, m2) ∧ mem_oracle m2 = mem_oracle m1.
Proof.
  intros Hmal. pose proof (malloc_spec _ _ _ _ Hmal) as (_ & -> & _ & Hb).
  unfold memcpy_cells. rewrite Hb, lookup_insert_eq. simpl.
  rewrite decide_True by done. by eexists.
Qed.

(** The loop never faults on a live arena; it runs to the end when
    every answer is accepted and no [malloc] fails. *)
Lemma sentence_loop_total pl mdl pa next final svs0 m ar :
  mem_arenas m !! pa = Some ar → arena_wf ar →
  ∃ svs error ok m',
    sentence_loop pl mdl pa next final svs0 m = Some ((svs, error, ok), m')
    ∧ suffix (mem_oracle m') (mem_oracle m)
    ∧ (never_fails (mem_oracle m) → Forall (accepted pl mdl) next → ok = true).
Proof.
  revert svs0 m ar. induction next as [|[s e] next IH]; intros svs0 m ar Har Hwf.
  - by exists svs0, final, true, m.
  - simpl. case_decide as He.
    2:{ exists svs0, e, false, m. split; [done|]. split; [done|].
        intros _ Hall. by apply Forall_cons in Hall as [[? _] _]. }
    destruct (run_engine pl mdl s) as [[ok1 s1] e1] eqn:Heng.
    destruct ok1; simpl.
    2:{ exists svs0, e1, false, m. split; [done|]. split; [done|].
        intros _ Hall. apply Forall_cons in Hall as [[_ Hok] _].
        simpl in Hok. by rewrite Heng in Hok. }
    destruct (materialize_total pl pa (words s1) [] m ar Har Hwf)
      as (toks & m1 & Hmat & Hs1).
    destruct (materialize_spec _ _ _ _ _ _ _ _ Hmat Har Hwf)
      as (ar1 & _ & Har1 & Hwf1 & _).
    destruct (malloc_total (length toks) m1) as (p & m2 & Hmal & Hs2 & Hnf).
    unfold mbind at 1, M_bind at 1. rewrite Hmat.
    unfold mbind at 1, M_bind at 1. rewrite Hmal.
    destruct p as [a|].
    + destruct (memcpy_after_malloc (token_array toks) m1 a m2 Hmal) as (m3 & Hcpy & Ho3).
      unfold mbind at 1, M_bind at 1. rewrite Hcpy.
      pose proof (malloc_spec _ _ _ _ Hmal) as (Ha2 & _).
      pose proof (memcpy_cells_spec _ _ _ _ _ Hcpy) as (Ha3 & _).
      destruct (IH (svs0 ++ [mkSentenceView (Some a) (length toks)]) m3 ar1)
        as (svs & error & ok & m' & Hrun & Hs & Hok); [congruence|done|].
      exists svs, error, ok, m'. split; [done|].
      split; [rewrite Ho3 in Hs; by do 2 (etrans; [eassumption|])|].
      intros Hn Hall. apply Forall_cons in Hall as [_ Hall]. apply Hok; [|done].
      rewrite Ho3. eapply never_fails_suffix; [|exact Hn]. by etrans.
    + exists svs0, "alloc failure"%string, false, m2. split; [done|].
      split; [by etrans|]. intros Hn _.
      by discriminate Hnf; eapply never_fails_suffix.
Qed.

Lemma free_doc_vector_faults svs m :
  svs ≠ [] →
  udpipe_free_doc (Some (mkDoc (vector_data svs) (length svs) None)) m = None.
Proof.
  intros Hne.
  destruct (udpipe_free_doc _ m) as [[r m']|] eqn:H; [|done].
  by apply free_doc_vector in H as [? _].
Qed.

(** The one way a structured call can fault. *)
Lemma structured_faults_iff pl mdl opts text m :
  structured pl mdl opts text m = None ↔ fails_after_a_sentence pl mdl opts text m.
Proof.
  unfold fails_after_a_sentence, structured.
  unfold mbind at 1, M_bind at 1.
  destruct (new_arena m) as [[pa m1]|] eqn:Hnew; [|done].
  pose proof (new_arena_spec _ _ _ Hnew) as (_ & _ & Har & _).
  destruct (new_tokenizer mdl opts) as [reader|].
  2:{ split; [done|]. by intros (? & ? & ? & ? & ? & ? & ? & _ & ? & _). }
  destruct (sentence_loop_total pl mdl pa (yields (reader text))
              (final_error (reader text)) [] m1 _ Har (new_StringArena_wf _))
    as (svs & error & ok & m2 & Hloop & _).
  unfold mbind at 1, M_bind at 1. rewrite Hloop.
  case_decide as He.
  - split.
    + destruct (malloc_total (length svs) m2) as ([a|] & m3 & Hmal & _).
      * unfold mbind at 1, M_bind at 1. rewrite Hmal.
        destruct (memcpy_after_malloc (sentence_array svs) m2 a m3 Hmal) as (m4 & Hcpy & _).
        unfold mbind at 1, M_bind at 1. by rewrite Hcpy.
      * unfold mbind at 1, M_bind at 1. by rewrite Hmal.
    + intros (? & ? & ? & ? & ? & ? & ? & [= <- <-] & [= <-] & Hl & Hne & _).
      rewrite Hloop in Hl. congruence.
  - unfold mbind at 1, M_bind at 1. split.
    + destruct svs as [|sv svs].
      * intros H. by cbv in H.
      * intros _. exists pa, m1, reader, (sv :: svs), error, ok, m2. done.
    + intros (? & ? & ? & ? & ? & ? & ? & [= <- <-] & [= <-] & Hl & _ & Hne).
      rewrite Hloop in Hl. injection Hl as <- <- <- <-.
      by rewrite free_doc_vector_faults.
Qed.

(** X8.  [udpipe_tag_structured] and [udpipe_tokenize_structured] have
    one way to fault: the loop ends with a message after it has pushed
    a sentence view, and the failure path passes the vector's storage
    to [udpipe_free_doc].  On every other input, with every answer of
    [malloc], they return; with a null argument they return at once. *)
Theorem structured_calls_fault_only_on_vector_free
    (mdl : model) (text : string) (do_parse : Z) (tokenizer_options : option string)
    (d0 : udpipe_doc_view) (m : mem) :
  (udpipe_tag_structured (Some mdl) (Some text) do_parse (Some d0) m = None
   ↔ fails_after_a_sentence (tagging do_parse) mdl EmptyString text m)
  ∧ (udpipe_tokenize_structured (Some mdl) (Some text) tokenizer_options (Some d0) m = None
     ↔ fails_after_a_sentence tokenizing mdl (default EmptyString tokenizer_options) text m).
Proof.
  rewrite tag_structured_unfold, tokenize_structured_unfold.
  split; apply structured_faults_iff.
Qed.

Lemma doc_in_holds_output pl mdl opts text reader m' lo hi d :
  new_tokenizer mdl opts = Some reader →
  doc_in pl m' lo hi d (engine_sentence pl mdl <$> (yields (reader text)).*1) →
  holds_engine_output pl mdl opts text m' (Some d).
Proof.
  intros Htok Hdoc.
  pose proof Hdoc as (pa & ar' & sa & svs & _ & _ & _ & _ & Hsa & _ & Hb & Hc & Hall & _).
  exists d, (engine_sentence pl mdl <$> (yields (reader text)).*1), sa, svs.
  pose proof (Forall2_length _ _ _ Hall) as Hlen.
  split; [done|]. split.
  { unfold engine_output. rewrite Htok. simpl. by rewrite <- list_fmap_compose. }
  split; [done|]. split; [done|]. split; [congruence|]. split; [done|].
  split; [|by exists lo, hi].
  eapply Forall2_impl; [exact Hall|].
  intros sv s (a & toks & Hsv & _ & Hba & Hcount & Htoks).
  exists a, toks. split; [done|]. split; [done|].
  apply token_ids in Htoks. unfold output_words in Htoks.
  rewrite filter_word_id, <- Htoks, length_fmap. done.
Qed.

(** With every answer of the reader accepted, no final message and no
    failing [malloc], a structured call returns 1 with the whole output
    of the engine. *)
Lemma structured_succeeds pl mdl opts text reader m :
  never_fails (mem_oracle m) →
  new_tokenizer mdl opts = Some reader →
  Forall (accepted pl mdl) (yields (reader text)) →
  final_error (reader text) = EmptyString →
  ∃ d m',
    structured pl mdl opts text m = Some ((1%Z, Some d), m')
    ∧ holds_engine_output pl mdl opts text m' (Some d).
Proof.
  intros Hnf Htok Hall Hfinal.
  destruct (new_arena m) as [[pa m1]|] eqn:Hnew; [|done].
  pose proof (new_arena_spec _ _ _ Hnew) as (Hpa & _ & Har & _).
  assert (Ho1 : mem_oracle m1 = mem_oracle m) by (by injection Hnew as _ <-).
  destruct (sentence_loop_total pl mdl pa (yields (reader text))
              (final_error (reader text)) [] m1 _ Har (new_StringArena_wf _))
    as (svs & error & ok & m2 & Hloop & Hs2 & Hok).
  rewrite Ho1 in Hs2, Hok. specialize (Hok Hnf Hall). subst ok.
  pose proof (sentence_loop_trace _ _ _ _ _ _ _ _ _ _ _ Hloop)
    as (seen & rest & new & Hnext & _ & Hsvs & Hlen & [(_ & -> & ->)|[? _]]); [|done].
  rewrite app_nil_r in Hnext. subst seen. simpl in Hsvs. subst new.
  destruct (malloc_total (length svs) m2) as (p & m3 & Hmal & _ & Hp).
  rewrite Hp in Hmal by (by eapply never_fails_suffix).
  destruct (memcpy_after_malloc (sentence_array svs) m2 _ m3 Hmal) as (m4 & Hcpy & _).
  assert (Hrun : structured pl mdl opts text m
                 = Some ((1%Z, Some (mkDoc (sentences_at (mem_next m2)) (length svs)
                                           (Some pa))), m4)).
  { unfold structured. unfold mbind at 1, M_bind at 1. rewrite Hnew, Htok.
    unfold mbind at 1, M_bind at 1. rewrite Hloop, Hfinal.
    rewrite decide_True by done.
    unfold mbind at 1, M_bind at 1. rewrite Hmal.
    unfold mbind at 1, M_bind at 1. by rewrite Hcpy. }
  eexists _, m4. split; [exact Hrun|].
  destruct (structured_spec _ _ _ _ _ _ _ _ Hrun)
    as (ar & _ & _ & _ & [[? _]|(_ & reader' & d & seen & rest & ok
                                   & Htok' & [= <-] & Hdoc & Hnext & _)]);
    [done|].
  assert (reader' = reader) as -> by congruence.
  pose proof Hdoc as (? & ? & ? & svs' & _ & _ & _ & _ & _ & _ & _ & Hc & Hf2 & _).
  apply Forall2_length in Hf2. rewrite length_fmap in Hf2. simpl in Hc.
  assert (rest = []) as ->.
  { apply (f_equal length) in Hnext. rewrite length_app, length_fmap in Hnext.
    destruct rest; [done|]. simpl in Hnext. lia. }
  rewrite app_nil_r in Hnext. subst seen.
  by eapply doc_in_holds_output.
Qed.

(** X9.  [udpipe_tag_structured] returns 1, with a document that holds
    every sentence of the text as the engine left it, whenever the
    model has a tokenizer, every answer of [next_sentence] comes
    without a message, the tagger (and the parser, with [do_parse] not
    0) returns true on each sentence, the reader ends without a message
    and no [malloc] fails. *)
Theorem tag_structured_succeeds
    (mdl : model) (reader : string → reader_run) (text : string) (do_parse : Z)
    (d0 : udpipe_doc_view) (m : mem) :
  never_fails (mem_oracle m) →
  new_tokenizer mdl EmptyString = Some reader →
  Forall (accepted (tagging do_parse) mdl) (yields (reader text)) →
  final_error (reader text) = EmptyString →
  ∃ d m',
    udpipe_tag_structured (Some mdl) (Some text) do_parse (Some d0) m
    = Some ((1%Z, Some d), m')
    ∧ holds_engine_output (tagging do_parse) mdl EmptyString text m' (Some d).
Proof.
  intros Hnf Htok Hall Hfinal. rewrite tag_structured_unfold.
  by eapply structured_succeeds.
Qed.

(** X9 on the sample engine. *)
Lemma tag_structured_succeeds_witness :
  ∃ d m',
    udpipe_tag_structured (Some sample_model) (Some "Dogs run. Cats sleep."%string) 1
      (Some zero_doc) (empty_mem [true; true; true]) = Some ((1%Z, Some d), m')
    ∧ holds_engine_output (tagging 1) sample_model EmptyString
        "Dogs run. Cats sleep." m' (Some d).
Proof.
  apply (tag_structured_succeeds sample_model sample_tokenizer
           "Dogs run. Cats sleep." 1 zero_doc (empty_mem [true; true; true])).
  - repeat constructor.
  - reflexivity.
  - repeat constructor.
  - reflexivity.
Defined.

(** X10.  [udpipe_tokenize_structured] returns 1, with a document that
    holds every sentence of the tokenizer, whenever the model has a
    tokenizer for the options, no answer of [next_sentence] comes with
    a message, the reader ends without one and no [malloc] fails. *)
Theorem tokenize_structured_succeeds
    (mdl : model) (reader : string → reader_run) (text : string)
    (tokenizer_options : option string) (d0 : udpipe_doc_view) (m : mem) :
  never_fails (mem_oracle m) →
  new_tokenizer mdl (default EmptyString tokenizer_options) = Some reader →
  Forall (λ y, y.2 = EmptyString) (yields (reader text)) →
  final_error (reader text) = EmptyString →
  ∃ d m',
    udpipe_tokenize_structured (Some mdl) (Some text) tokenizer_options (Some d0) m
    = Some ((1%Z, Some d), m')
    ∧ holds_engine_output tokenizing mdl (default EmptyString tokenizer_options)
        text m' (Some d).
Proof.
  intros Hnf Htok Hall Hfinal. rewrite tokenize_structured_unfold.
  eapply structured_succeeds; [done..| |done].
  eapply Forall_impl; [exact Hall|]. by intros y ?.
Qed.

(** X10 on the sample engine. *)
Lemma tokenize_structured_succeeds_witness :
  ∃ d m',
    udpipe_tokenize_structured (Some no_tagger_model) (Some "Dogs run."%string)
      None (Some zero_doc) (empty_mem []) = Some ((1%Z, Some d), m')
    ∧ holds_engine_output tokenizing no_tagger_model (default EmptyString None)
        "Dogs run." m' (Some d).
Proof.
  apply (tokenize_structured_succeeds no_tagger_model sample_tokenizer
           "Dogs run." None zero_doc (empty_mem [])).
  - constructor.
  - reflexivity.
  - repeat constructor.
  - reflexivity.
Defined.

(** ** What the calls do not depend on *)

Lemma bind_ext {A B} (c1 c2 : M A) (k1 k2 : A → M B) m :
  c1 m = c2 m → (∀ x m', k1 x m' = k2 x m') →
  (c1 ≫= k1) m = (c2 ≫= k2) m.
Proof.
  intros H1 H2. unfold mbind, M_bind. rewrite H1.
  destruct (c2 m) as [[x m']|]; [apply H2|done].
Qed.

Lemma materialize_do_parse d1 d2 pa ws toks m :
  materialize (tagging d1) pa ws toks m = materialize (tagging d2) pa ws toks m.
Proof.
  revert toks m. induction ws as [|w ws IH]; intros toks m; [done|].
  simpl. destruct (word_id w <=? 0)%Z; [apply IH|].
  apply bind_ext; [done|]. intros t m1. apply IH.
Qed.

(** The loop sees the engine through [run_engine] alone. *)
Lemma sentence_loop_ext pl1 pl2 mdl1 mdl2 pa :
  (∀ s, run_engine pl1 mdl1 s = run_engine pl2 mdl2 s) →
  (∀ ws toks m, materialize pl1 pa ws toks m = materialize pl2 pa ws toks m) →
  ∀ next final svs0 m,
    sentence_loop pl1 mdl1 pa next final svs0 m
    = sentence_loop pl2 mdl2 pa next final svs0 m.
Proof.
  intros Heng Hmat next final. induction next as [|[s e] next IH]; intros svs0 m; [done|].
  simpl. case_decide; [|done]. rewrite Heng.
  destruct (run_engine pl2 mdl2 s) as [[ok s1] e1]. destruct ok; [|done]. simpl.
  apply bind_ext; [apply Hmat|]. intros toks m1.
  apply bind_ext; [done|]. intros [a|] m2; [|done].
  apply bind_ext; [done|]. intros [] m3. apply IH.
Qed.

Lemma structured_ext pl1 pl2 mdl1 mdl2 opts text m :
  new_tokenizer mdl1 opts = new_tokenizer mdl2 opts →
  (∀ s, run_engine pl1 mdl1 s = run_engine pl2 mdl2 s) →
  (∀ pa ws toks m, materialize pl1 pa ws toks m = materialize pl2 pa ws toks m) →
  structured pl1 mdl1 opts text m = structured pl2 mdl2 opts text m.
Proof.
  intros Htok Heng Hmat. unfold structured.
  apply bind_ext; [done|]. intros pa m1.
  rewrite Htok. destruct (new_tokenizer mdl2 opts) as [reader|]; [|done].
  apply bind_ext; [|done].
  by apply sentence_loop_ext.
Qed.

Lemma process_text_ext d1 d2 mdl1 mdl2 text m :
  new_tokenizer mdl1 EmptyString = new_tokenizer mdl2 EmptyString →
  (∀ s, run_engine (tagging d1) mdl1 s = run_engine (tagging d2) mdl2 s) →
  process_text mdl1 d1 text m = process_text mdl2 d2 text m.
Proof.
  intros Htok Heng. unfold process_text.
  apply bind_ext; [done|]. intros pa m1.
  rewrite Htok. destruct (new_tokenizer mdl2 EmptyString) as [reader|]; [|done].
  apply bind_ext; [|done].
  apply sentence_loop_ext; [done|]. intros. apply materialize_do_parse.
Qed.

Lemma run_workers_ext d1 d2 mdl1 mdl2 texts schedule st m :
  new_tokenizer mdl1 EmptyString = new_tokenizer mdl2 EmptyString →
  (∀ s, run_engine (tagging d1) mdl1 s = run_engine (tagging d2) mdl2 s) →
  run_workers mdl1 texts d1 schedule st m = run_workers mdl2 texts d2 schedule st m.
Proof.
  intros Htok Heng. revert st m.
  induction schedule as [|tid schedule IH]; intros st m; [done|].
  simpl. apply bind_ext; [|intros; apply IH].
  unfold worker_step. destruct (workers st !! tid) as [[| |i|]|]; try done.
  destruct (texts !! i) as [text|]; [|done].
  apply bind_ext; [|done]. by apply process_text_ext.
Qed.

Lemma tag_batch_ext d1 d2 mdl1 mdl2 texts od os hc schedule m :
  new_tokenizer mdl1 EmptyString = new_tokenizer mdl2 EmptyString →
  (∀ s, run_engine (tagging d1) mdl1 s = run_engine (tagging d2) mdl2 s) →
  udpipe_tag_batch (Some mdl1) (Some texts) d1 (Some od) (Some os) hc schedule m
  = udpipe_tag_batch (Some mdl2) (Some texts) d2 (Some od) (Some os) hc schedule m.
Proof.
  intros Htok Heng. unfold udpipe_tag_batch.
  apply bind_ext; [|done]. by apply run_workers_ext.
Qed.

Lemma run_engine_without_parse mdl parse' s :
  run_engine (tagging 0) mdl s
  = run_engine (tagging 0) (mkModel (new_tokenizer mdl) (tag mdl) parse') s.
Proof. unfold run_engine. simpl. by destruct (tag mdl s) as [[[] ?] ?]. Qed.

Lemma run_engine_flag mdl do_parse s :
  do_parse ≠ 0%Z → run_engine (tagging do_parse) mdl s = run_engine (tagging 1) mdl s.
Proof.
  intros Hne. unfold run_engine. destruct (tag mdl s) as [[[] ?] ?]; simpl; [|done].
  by apply Z.eqb_neq in Hne as ->.
Qed.

(** X11.  Engine calls that are never made: with [do_parse] 0 the
    parser is not called by [udpipe_tag_structured] nor by
    [udpipe_tag_batch], and [udpipe_tokenize_structured] calls neither
    the tagger nor the parser; replacing these functions of the model
    by any others changes nothing in the result or in the memory the
    call leaves, faults included. *)
Theorem unused_engine_calls
    (mdl : model) (tag' parse' : sentence → bool * sentence * string)
    (text : string) (texts : list string) (tokenizer_options : option string)
    (d0 : udpipe_doc_view) (od : option nat) (os : nat)
    (hardware_concurrency : nat) (schedule : list nat) (m : mem) :
  udpipe_tag_structured (Some mdl) (Some text) 0 (Some d0) m
  = udpipe_tag_structured (Some (mkModel (new_tokenizer mdl) (tag mdl) parse'))
      (Some text) 0 (Some d0) m
  ∧ udpipe_tag_batch (Some mdl) (Some texts) 0 (Some od) (Some os)
      hardware_concurrency schedule m
    = udpipe_tag_batch (Some (mkModel (new_tokenizer mdl) (tag mdl) parse'))
        (Some texts) 0 (Some od) (Some os) hardware_concurrency schedule m
  ∧ udpipe_tokenize_structured (Some mdl) (Some text) tokenizer_options (Some d0) m
    = udpipe_tokenize_structured (Some (mkModel (new_tokenizer mdl) tag' parse'))
        (Some text) tokenizer_options (Some d0) m.
Proof.
  split; [|split].
  - rewrite !tag_structured_unfold.
    apply structured_ext; [done|apply run_engine_without_parse|].
    intros. apply materialize_do_parse.
  - apply tag_batch_ext; [done|apply run_engine_without_parse].
  - rewrite !tokenize_structured_unfold. by apply structured_ext.
Qed.

(** X12.  [do_parse] is read as a flag: every value other than 0 gives
    what 1 gives, in [udpipe_tag_structured] and in [udpipe_tag_batch]. *)
Theorem do_parse_is_a_flag
    (mdl : model) (do_parse : Z) (text : string) (texts : list string)
    (d0 : udpipe_doc_view) (od : option nat) (os : nat)
    (hardware_concurrency : nat) (schedule : list nat) (m : mem) :
  do_parse ≠ 0%Z →
  udpipe_tag_structured (Some mdl) (Some text) do_parse (Some d0) m
  = udpipe_tag_structured (Some mdl) (Some text) 1 (Some d0) m
  ∧ udpipe_tag_batch (Some mdl) (Some texts) do_parse (Some od) (Some os)
      hardware_concurrency schedule m
    = udpipe_tag_batch (Some mdl) (Some texts) 1 (Some od) (Some os)
        hardware_concurrency schedule m.
Proof.
  intros Hne. split.
  - rewrite !tag_structured_unfold.
    apply structured_ext; [done|intros; by apply run_engine_flag|].
    intros. apply materialize_do_parse.
  - apply tag_batch_ext; [done|intros; by apply run_engine_flag].
Qed.

(** X12 with [do_parse] -7. *)
Lemma do_parse_is_a_flag_witness :
  udpipe_tag_structured (Some sample_model) (Some "Dogs run."%string) (-7)
    (Some zero_doc) (empty_mem [])
  = udpipe_tag_structured (Some sample_model) (Some "Dogs run."%string) 1
      (Some zero_doc) (empty_mem [])
  ∧ udpipe_tag_batch (Some sample_model) (Some ["Dogs run."%string]) (-7)
      (Some None) (Some 0) 2 [] (empty_mem [])
    = udpipe_tag_batch (Some sample_model) (Some ["Dogs run."%string]) 1
        (Some None) (Some 0) 2 [] (empty_mem []).
Proof.
  apply (do_parse_is_a_flag sample_model (-7) "Dogs run." ["Dogs run."%string]
           zero_doc None 0 2 [] (empty_mem [])).
  lia.
Defined.

(** ** What a call leaves in memory, exactly *)

Lemma arena_allocate_exact pa s m p m' :
  arena_allocate pa s m = Some (p, m') →
  mem_blocks m' = mem_blocks m ∧ mem_next m' = mem_next m
  ∧ ∀ a, a ≠ pa → mem_arenas m' !! a = mem_arenas m !! a.
Proof.
  unfold arena_allocate. intros H.
  destruct (mem_arenas m !! pa) as [ar|]; [|done]. simpl in H.
  destruct (allocate s ar (mem_oracle m)) as [[[p' a'] o']|]; [|done].
  injection H as <- <-. simpl. do 2 (split; [done|]).
  intros a Ha. by rewrite lookup_insert_ne.
Qed.

Lemma materialize_word_exact pl pa w m t m' :
  materialize_word pl pa w m = Some (t, m') →
  mem_blocks m' = mem_blocks m ∧ mem_next m' = mem_next m
  ∧ ∀ a, a ≠ pa → mem_arenas m' !! a = mem_arenas m !! a.
Proof.
  unfold materialize_word.
  destruct (match word_token_range w with Some (s, e) => (s, e) | None => (0, 0) end)
    as [start end_].
  intros H.
  assert (H6 : ∃ s1 s2 s3 s4 s5 s6 p1 p2 p3 p4 p5 p6 m1 m2 m3 m4 m5,
    arena_allocate pa s1 m = Some (p1, m1)
    ∧ arena_allocate pa s2 m1 = Some (p2, m2)
    ∧ arena_allocate pa s3 m2 = Some (p3, m3)
    ∧ arena_allocate pa s4 m3 = Some (p4, m4)
    ∧ arena_allocate pa s5 m4 = Some (p5, m5)
    ∧ arena_allocate pa s6 m5 = Some (p6, m')).
  { destruct pl;
      apply bind_Some in H as (p1 & m1 & H1 & H);
      apply bind_Some in H as (p2 & m2 & H2 & H);
      apply bind_Some in H as (p3 & m3 & H3 & H);
      apply bind_Some in H as (p4 & m4 & H4 & H);
      apply bind_Some in H as (p5 & m5 & H5 & H);
      apply bind_Some in H as (p6 & m6 & H6 & H);
      apply ret_Some in H as [_ <-];
      do 17 eexists; repeat (split; [eassumption|]); eassumption. }
  destruct H6 as (s1 & s2 & s3 & s4 & s5 & s6 & p1 & p2 & p3 & p4 & p5 & p6
                  & m1 & m2 & m3 & m4 & m5 & H1 & H2 & H3 & H4 & H5 & H6).
  apply arena_allocate_exact in H1 as (B1 & N1 & A1).
  apply arena_allocate_exact in H2 as (B2 & N2 & A2).
  apply arena_allocate_exact in H3 as (B3 & N3 & A3).
  apply arena_allocate_exact in H4 as (B4 & N4 & A4).
  apply arena_allocate_exact in H5 as (B5 & N5 & A5).
  apply arena_allocate_exact in H6 as (B6 & N6 & A6).
  split; [congruence|]. split; [congruence|].
  intros a Ha. by rewrite A6, A5, A4, A3, A2, A1.
Qed.

Lemma materialize_exact pl pa ws toks0 m toks m' :
  materialize pl pa ws toks0 m = Some (toks, m') →
  mem_blocks m' = mem_blocks m ∧ mem_next m' = mem_next m
  ∧ ∀ a, a ≠ pa → mem_arenas m' !! a = mem_arenas m !! a.
Proof.
  revert toks0 m. induction ws as [|w ws IH]; intros toks0 m H.
  - by apply ret_Some in H as [_ <-].
  - simpl in H. destruct (word_id w <=? 0)%Z; [by eapply IH|].
    apply bind_Some in H as (t & m1 & Hw & H).
    apply materialize_word_exact in Hw as (B1 & N1 & A1).
    apply IH in H as (B2 & N2 & A2).
    split; [congruence|]. split; [congruence|].
    intros a Ha. by rewrite A2, A1.
Qed.

(** The loop touches the arena at [pa] and the token arrays it pushes,
    which are new, and nothing else. *)
Lemma sentence_loop_exact pl mdl pa next final svs0 m svs error ok m' :
  sentence_loop pl mdl pa next final svs0 m = Some ((svs, error, ok), m') →
  mem_next m ≤ mem_next m'
  ∧ (∀ a, a ≠ pa → mem_arenas m' !! a = mem_arenas m !! a)
  ∧ ∃ new, svs = svs0 ++ new
      ∧ Forall (λ sv, ∃ a, sv_tokens sv = Some a ∧ mem_next m ≤ a < mem_next m') new
      ∧ ∀ a, a ∉ omap sv_tokens new → mem_blocks m' !! a = mem_blocks m !! a.
Proof.
  revert svs0 m. induction next as [|[s e] next IH]; intros svs0 m Hrun.
  - apply ret_Some in Hrun as [[= <- <- <-] <-].
    do 2 (split; [done|]). exists []. by rewrite app_nil_r.
  - simpl in Hrun. case_decide as He.
    2:{ apply ret_Some in Hrun as [[= <- <- <-] <-].
        do 2 (split; [done|]). exists []. by rewrite app_nil_r. }
    destruct (run_engine pl mdl s) as [[ok1 s1] e1] eqn:Heng.
    destruct ok1; simpl in Hrun.
    2:{ apply ret_Some in Hrun as [[= <- <- <-] <-].
        do 2 (split; [done|]). exists []. by rewrite app_nil_r. }
    apply bind_Some in Hrun as (toks & m1 & Hmat & Hrun).
    apply materialize_exact in Hmat as (B1 & N1 & A1).
    apply bind_Some in Hrun as ([a|] & m2 & Hmal & Hrun).
    + apply bind_Some in Hrun as ([] & m3 & Hcpy & Hrun).
      apply malloc_spec in Hmal as (A2 & -> & N2 & B2).
      apply memcpy_cells_spec in Hcpy as (A3 & N3 & B3).
      apply IH in Hrun as (Hn & A4 & new & -> & Hnew & B4).
      split; [lia|]. split.
      { intros a Ha. rewrite A4, A3, A2, A1; done. }
      exists (mkSentenceView (Some (mem_next m1)) (length toks) :: new).
      split; [by rewrite <- app_assoc|]. split.
      * constructor.
        { exists (mem_next m1). simpl. split; [done|]. lia. }
        eapply Forall_impl; [exact Hnew|].
        intros sv (a & Ha & Hr). exists a. split; [done|]. lia.
      * intros a Ha. simpl in Ha. apply not_elem_of_cons in Ha as [Hne Ha].
        rewrite B4, B3, B2, B1 by done. by rewrite !lookup_insert_ne.
    + apply ret_Some in Hrun as [[= <- <- <-] <-].
      apply malloc_spec in Hmal as (A2 & N2 & B2).
      split; [lia|]. split.
      { intros a Ha. rewrite A2, A1; done. }
      exists []. rewrite app_nil_r. split; [done|]. split; [done|].
      intros a _. by rewrite B2, B1.
Qed.

(** The loop of lines 203-208 frees the token arrays and nothing else. *)
Lemma free_sentence_tokens_exact svs m :
  NoDup (omap sv_tokens svs) →
  Forall (λ sv, ∃ a, sv_tokens sv = Some a ∧ is_Some (mem_blocks m !! a)) svs →
  ∃ m', free_sentence_tokens svs (length svs) m = Some (tt, m')
    ∧ mem_arenas m' = mem_arenas m ∧ mem_next m' = mem_next m
    ∧ mem_oracle m' = mem_oracle m
    ∧ ∀ a, mem_blocks m' !! a
           = if decide (a ∈ omap sv_tokens svs) then None else mem_blocks m !! a.
Proof.
  revert m. induction svs as [|sv svs IH]; intros m Hnd Hlive.
  - exists m. do 4 (split; [done|]). intros a. rewrite decide_False; [done|].
    simpl. apply not_elem_of_nil.
  - apply Forall_cons in Hlive as [(a & Ha & [c Hc]) Hlive].
    rewrite (omap_tokens_cons _ _ _ Ha) in Hnd |- *.
    apply NoDup_cons in Hnd as [Hnotin Hnd].
    destruct (IH (mkMem (mem_oracle m) (mem_arenas m) (delete a (mem_blocks m))
                        (mem_next m)) Hnd) as (m' & Hrun & Har & Hnx & Hor & Hbl).
    { rewrite Forall_forall in Hlive. apply Forall_forall.
      intros sv' Hin. destruct (Hlive sv' Hin) as (a' & Ha' & Hc').
      exists a'. split; [done|]. simpl.
      rewrite lookup_delete_ne; [done|]. intros ->. apply Hnotin.
      apply list_elem_of_omap. eauto. }
    exists m'. split.
    { simpl. unfold mbind, M_bind. by rewrite Ha, (free_Some _ _ _ Hc). }
    do 3 (split; [done|]).
    intros a'. rewrite Hbl. simpl.
    destruct (decide (a' = a)) as [->|Hne].
    + rewrite (decide_True (P := a ∈ a :: _)) by apply list_elem_of_here.
      case_decide; [done|]. by rewrite lookup_delete_eq.
    + rewrite lookup_delete_ne by done.
      case_decide as Hin.
      * rewrite decide_True; [done|]. by apply list_elem_of_further.
      * rewrite decide_False; [done|]. by apply not_elem_of_cons.
Qed.

(** [udpipe_free_doc] on a document that owns a live arena, a live
    sentence array and live token arrays, no two the same: it deletes
    the arena, frees these arrays and touches nothing else. *)
Lemma free_doc_exact m d pa ar sa svs :
  doc_arena d = Some pa → mem_arenas m !! pa = Some ar →
  doc_sentences d = sentences_at sa →
  mem_blocks m !! sa = Some (sentence_array svs) →
  doc_count d = length svs →
  Forall (λ sv, ∃ a, sv_tokens sv = Some a ∧ is_Some (mem_blocks m !! a)) svs →
  NoDup (doc_arrays sa svs) →
  ∃ m', udpipe_free_doc (Some d) m = Some (Some zero_doc, m')
    ∧ mem_arenas m' = delete pa (mem_arenas m)
    ∧ mem_next m' = mem_next m ∧ mem_oracle m' = mem_oracle m
    ∧ ∀ a, mem_blocks m' !! a
           = if decide (a ∈ doc_arrays sa svs) then None else mem_blocks m !! a.
Proof.
  intros Hpa Har Hsa Hb Hc Hlive Hnd. unfold doc_arrays in *.
  apply NoDup_cons in Hnd as [Hsa_notin Hnd].
  set (m1 := mkMem (mem_oracle m) (delete pa (mem_arenas m)) (mem_blocks m) (mem_next m)).
  destruct (free_sentence_tokens_exact svs m1 Hnd Hlive)
    as (m2 & Hrun & Har2 & Hnx2 & Hor2 & Hbl2).
  assert (Hsa2 : mem_blocks m2 !! sa = Some (sentence_array svs)).
  { by rewrite Hbl2, decide_False. }
  eexists. split.
  { unfold udpipe_free_doc. rewrite Hpa, Hsa, Hc.
    unfold mbind at 1 2, M_bind at 1 2, delete_arena. rewrite Har. fold m1.
    unfold mbind at 1, M_bind at 1. simpl sentences_of. unfold m1 at 1. simpl mem_blocks.
    rewrite Hb. fold m1. rewrite Hrun, (free_Some _ _ _ Hsa2). reflexivity. }
  simpl. split; [by rewrite Har2|]. split; [done|]. split; [done|].
  intros a. destruct (decide (a = sa)) as [->|Hne].
  - rewrite decide_True by apply list_elem_of_here. by rewrite lookup_delete_eq.
  - rewrite lookup_delete_ne, Hbl2 by done. simpl.
    case_decide as Hin.
    + rewrite decide_True; [done|]. by apply list_elem_of_further.
    + rewrite decide_False; [done|]. by apply not_elem_of_cons.
Qed.

Lemma malloc_memcpy_frame src m a m1 u m2 :
  malloc (cells_length src) m = Some (Some a, m1) →
  memcpy_cells a src m1 = Some (u, m2) → frame m m2.
Proof.
  intros Hmal Hcpy. apply grows_frame.
  by destruct (malloc_memcpy_spec (mem_next m) _ _ _ _ _ _ Hmal Hcpy) as (_ & _ & _ & ?).
Qed.

(** A batch call that returns 1 leaves what was allocated before it
    alone. *)
Lemma tag_batch_success_frame mdl texts do_parse docs0 size0 hc schedule m
    out_docs out_size m' :
  udpipe_tag_batch (Some mdl) (Some texts) do_parse (Some docs0) (Some size0)
    hc schedule m
  = Some ((1%Z, out_docs, out_size), m') →
  frame m m'.
Proof.
  unfold udpipe_tag_batch.
  set (n := if length texts <? _ then _ else _).
  intros Hcall. apply bind_Some in Hcall as (st & m1 & Hrun & Hcall).
  destruct (run_workers_inv _ _ _ _ _ _ _ _ (batch_inv_init mdl do_parse texts n m) Hrun)
    as (_ & Hf & _).
  destruct (success_flag st); simpl in Hcall.
  2:{ apply bind_Some in Hcall as (? & ? & _ & Hcall).
      by apply ret_Some in Hcall as [[=] _]. }
  apply bind_Some in Hcall as ([a|] & m3 & Hmal & Hcall).
  2:{ apply bind_Some in Hcall as (? & ? & _ & Hcall).
      by apply ret_Some in Hcall as [[=] _]. }
  apply bind_Some in Hcall as (u & m4 & Hcpy & Hcall).
  apply ret_Some in Hcall as [_ <-].
  eapply frame_trans; [exact Hf|].
  by eapply (malloc_memcpy_frame (doc_array (results st))).
Qed.

(** X13.  A document stays valid across later calls: when [d] is a
    populated document in memory, a later call of
    [udpipe_tag_structured] or [udpipe_tokenize_structured], whatever
    it returns, and a later call of [udpipe_tag_batch] that returns 1,
    leave its arena, its arrays and every string of it as they were. *)
Theorem later_calls_keep_documents
    (pl : pipeline) (lo hi : nat) (d : udpipe_doc_view) (ss : list sentence) (m : mem) :
  doc_in pl m lo hi d ss → hi ≤ mem_next m →
  (∀ mdl text do_parse d0 r out m',
     udpipe_tag_structured (Some mdl) (Some text) do_parse (Some d0) m
     = Some ((r, out), m') →
     doc_in pl m' lo hi d ss ∧ hi ≤ mem_next m')
  ∧ (∀ mdl text tokenizer_options d0 r out m',
       udpipe_tokenize_structured (Some mdl) (Some text) tokenizer_options (Some d0) m
       = Some ((r, out), m') →
       doc_in pl m' lo hi d ss ∧ hi ≤ mem_next m')
  ∧ (∀ mdl texts do_parse docs0 size0 hardware_concurrency schedule out_docs out_size m',
       udpipe_tag_batch (Some mdl) (Some texts) do_parse (Some docs0) (Some size0)
         hardware_concurrency schedule m
       = Some ((1%Z, out_docs, out_size), m') →
       doc_in pl m' lo hi d ss ∧ hi ≤ mem_next m').
Proof.
  intros Hdoc Hhi.
  assert (Hkeep : ∀ m', frame m m' → doc_in pl m' lo hi d ss ∧ hi ≤ mem_next m').
  { intros m' Hf. split; [by eapply doc_in_frame|]. destruct Hf as [? _]. lia. }
  split; [|split].
  - intros mdl text do_parse d0 r out m' Hrun. apply Hkeep.
    rewrite tag_structured_unfold in Hrun.
    by destruct (structured_spec _ _ _ _ _ _ _ _ Hrun) as (_ & _ & _ & ? & _).
  - intros mdl text opts d0 r out m' Hrun. apply Hkeep.
    rewrite tokenize_structured_unfold in Hrun.
    by destruct (structured_spec _ _ _ _ _ _ _ _ Hrun) as (_ & _ & _ & ? & _).
  - intros mdl texts do_parse docs0 size0 hc schedule out_docs out_size m' Hrun.
    apply Hkeep. by eapply tag_batch_success_frame.
Qed.

(** X13 for the document of a first call. *)
Lemma later_calls_keep_documents_witness :
  ∃ d m ss,
    doc_in (tagging 1) m 0 (mem_next m) d ss
    ∧ ∀ mdl text do_parse d0 r out m',
        udpipe_tag_structured (Some mdl) (Some text) do_parse (Some d0) m
        = Some ((r, out), m') →
        doc_in (tagging 1) m' 0 (mem_next m) d ss ∧ mem_next m ≤ mem_next m'.
Proof.
  assert (Hrun : ∃ out m,
    structured (tagging 1) sample_model EmptyString "Dogs run." (empty_mem [])
    = Some ((1%Z, out), m)).
  { eexists _, _. vm_compute. reflexivity. }
  destruct Hrun as (out & m & Hrun).
  destruct (structured_spec _ _ _ _ _ _ _ _ Hrun)
    as (_ & _ & _ & _ & [[Hr _]|(_ & _ & d & seen & _ & _ & _ & _ & Hdoc & _)]).
  { discriminate Hr. }
  exists d, m, (engine_sentence (tagging 1) sample_model <$> seen).
  split; [exact Hdoc|].
  exact (proj1 (later_calls_keep_documents (tagging 1) 0 (mem_next m) d _ m Hdoc
                  (le_n _))).
Defined.

(** A structured call that returns 1, then the release of its
    document: the heap is back where it was. *)
Lemma structured_then_free pl mdl opts text m out m' :
  mem_fresh m →
  structured pl mdl opts text m = Some ((1%Z, out), m') →
  frees_back_to m out m'.
Proof.
  intros Hfresh Hrun.
  destruct (structured_spec _ _ _ _ _ _ _ _ Hrun)
    as (ar & Har & _ & _ & [[? _]|(_ & _ & d & seen & _ & _ & _ & -> & Hdoc & _)]);
    [done|].
  apply structured_inv in Hrun.
  destruct Hrun as [(_ & ? & _)|(reader & svs & error & ok & m2 & Htok & Hloop & Hend)];
    [done|].
  destruct Hend as [(_ & _ & ? & _)|[(_ & _ & ? & _)|(-> & (m3 & Hmal & Hcpy) & _ & [= ->])]];
    [done..|].
  apply sentence_loop_exact in Hloop as (Hn2 & A2 & new & Hsvs & Hnew & B2).
  simpl in Hn2, A2, Hsvs, Hnew, B2. subst new.
  apply malloc_spec in Hmal as (A3 & _ & N3 & B3).
  apply memcpy_cells_spec in Hcpy as (A4 & N4 & B4).
  destruct Hdoc as (pa & ar' & sa & svs' & [= <-] & _ & _ & _ & [= <-] & _
                    & Hb & _ & Hall & Hnd).
  assert (svs' = svs) as ->.
  { rewrite B4, lookup_insert_eq in Hb. congruence. }
  destruct (free_doc_exact m'
              (mkDoc (sentences_at (mem_next m2)) (length svs) (Some (mem_next m)))
              (mem_next m) ar (mem_next m2) svs)
    as (m'' & Hfree & Afree & _ & _ & Bfree); try done.
  { eapply Forall2_Forall_l; [exact Hall|]. apply Forall_true.
    intros sv s (a & toks & Ha & _ & Hba & _). exists a. by rewrite Hba. }
  exists m''. split; [done|]. split.
  - apply map_eq. intros a. rewrite Afree.
    destruct (decide (a = mem_next m)) as [->|Hne].
    + rewrite lookup_delete_eq. symmetry. by apply Hfresh.
    + rewrite lookup_delete_ne, A4, A3, A2 by done. simpl. by rewrite lookup_insert_ne.
  - apply map_eq. intros a. rewrite Bfree. unfold doc_arrays. case_decide as Hin.
    + symmetry. apply Hfresh. apply elem_of_cons in Hin as [->|Hin]; [lia|].
      apply list_elem_of_omap in Hin as (sv & Hsv & Ha).
      rewrite Forall_forall in Hnew. destruct (Hnew sv Hsv) as (a' & Ha' & Hr).
      assert (a' = a) as -> by congruence. lia.
    + apply not_elem_of_cons in Hin as [Hne Hin].
      rewrite B4, B3, !lookup_insert_ne, B2 by done. done.
Qed.

(** X14.  Round trip: from a memory where nothing lives at or beyond
    the next fresh address, a call of [udpipe_tag_structured] or
    [udpipe_tokenize_structured] that returns 1, followed by
    [udpipe_free_doc] on the document, is defined and leaves exactly
    the arenas and arrays that were there before the call. *)
Theorem structured_then_free_restores_heap (m : mem) :
  mem_fresh m →
  (∀ mdl text do_parse d0 out m',
     udpipe_tag_structured (Some mdl) (Some text) do_parse (Some d0) m
     = Some ((1%Z, out), m') →
     frees_back_to m out m')
  ∧ (∀ mdl text tokenizer_options d0 out m',
       udpipe_tokenize_structured (Some mdl) (Some text) tokenizer_options (Some d0) m
       = Some ((1%Z, out), m') →
       frees_back_to m out m').
Proof.
  intros Hfresh. split.
  - intros mdl text do_parse d0 out m' Hrun. rewrite tag_structured_unfold in Hrun.
    by eapply structured_then_free.
  - intros mdl text opts d0 out m' Hrun. rewrite tokenize_structured_unfold in Hrun.
    by eapply structured_then_free.
Qed.

(** X14 from the empty memory. *)
Lemma structured_then_free_restores_heap_witness :
  mem_fresh (empty_mem [])
  ∧ ∃ out m',
      udpipe_tag_structured (Some sample_model) (Some "Dogs run. Cats sleep."%string) 1
        (Some zero_doc) (empty_mem []) = Some ((1%Z, out), m')
      ∧ frees_back_to (empty_mem []) out m'.
Proof.
  assert (Hfresh : mem_fresh (empty_mem [])).
  { intros a _. simpl. by rewrite !lookup_empty. }
  split; [exact Hfresh|].
  assert (Hrun : ∃ out m',
    udpipe_tag_structured (Some sample_model) (Some "Dogs run. Cats sleep."%string) 1
      (Some zero_doc) (empty_mem []) = Some ((1%Z, out), m')).
  { eexists _, _. vm_compute. reflexivity. }
  destruct Hrun as (out & m' & Hrun). exists out, m'. split; [exact Hrun|].
  exact (proj1 (structured_then_free_restores_heap (empty_mem []) Hfresh)
           sample_model _ 1%Z zero_doc out m' Hrun).
Defined.

(** A structured call that returns 0, then the release of what it left. *)
Lemma structured_failure_then_free pl mdl opts text m out m' :
  mem_fresh m →
  structured pl mdl opts text m = Some ((0%Z, out), m') →
  failure_released m out m'.
Proof.
  intros Hfresh Hrun.
  destruct (structured_spec _ _ _ _ _ _ _ _ Hrun)
    as (ar & Har & _ & _ & [[_ ->]|[? _]]); [|done].
  pose proof (free_doc_arena_only _ _ _ Har) as Hfree.
  eexists. split; [exact Hfree|]. simpl.
  assert (Harenas : (∀ a, a ≠ mem_next m → mem_arenas m' !! a = mem_arenas m !! a) →
                    delete (mem_next m) (mem_arenas m') = mem_arenas m).
  { intros Hoff. apply map_eq. intros a.
    destruct (decide (a = mem_next m)) as [->|Hne].
    - rewrite lookup_delete_eq. symmetry. by apply Hfresh.
    - rewrite lookup_delete_ne by done. by apply Hoff. }
  apply structured_inv in Hrun.
  destruct Hrun as [(_ & _ & _ & ->)|(reader & svs & error & ok & m2 & Htok & Hloop & Hend)].
  { split; [|done]. apply Harenas. intros a Ha. simpl. by rewrite lookup_insert_ne. }
  pose proof (new_StringArena_wf DEFAULT_BLOCK_SIZE) as Hwf.
  destruct (sentence_loop_total pl mdl (mem_next m) (yields (reader text))
              (final_error (reader text)) []
              (mkMem (mem_oracle m)
                     (<[mem_next m := new_StringArena DEFAULT_BLOCK_SIZE]> (mem_arenas m))
                     (mem_blocks m) (S (mem_next m)))
              (new_StringArena DEFAULT_BLOCK_SIZE))
    as (svs1 & error1 & ok1 & m21 & Hloop1 & Hsuf & _);
    [simpl; apply lookup_insert_eq|exact Hwf|].
  rewrite Hloop in Hloop1. injection Hloop1 as <- <- <- <-. simpl in Hsuf.
  apply sentence_loop_exact in Hloop as (Hn2 & A2 & new & Hsvs & Hnew & B2).
  simpl in Hn2, A2, Hsvs, Hnew, B2. subst new.
  destruct Hend as [(_ & -> & _ & _ & ->)|[(-> & Hmal & _)|(_ & _ & ? & _)]]; [| |done].
  - split.
    { apply Harenas. intros a Ha. rewrite A2 by done. by rewrite lookup_insert_ne. }
    assert (mem_blocks m2 = mem_blocks m) as ->; [|done].
    apply map_eq. intros a. apply B2. simpl. apply not_elem_of_nil.
  - pose proof (malloc_spec _ _ _ _ Hmal) as (A3 & _ & B3).
    split.
    { apply Harenas. intros a Ha. rewrite A3, A2 by done. by rewrite lookup_insert_ne. }
    split.
    + apply map_subseteq_spec. intros a c Hc. rewrite B3, B2; [done|].
      intros Hin. apply list_elem_of_omap in Hin as (sv & Hsv & Ha).
      rewrite Forall_forall in Hnew. destruct (Hnew sv Hsv) as (a' & Ha' & Hr).
      assert (a' = a) as -> by congruence.
      destruct (Hfresh a) as [Hnone _]; [lia|]. congruence.
    + intros Hnf.
      destruct (malloc_total (length svs) m2) as (p & m3 & Hmal' & _ & Hp).
      rewrite Hmal in Hmal'. injection Hmal' as <- <-.
      by discriminate Hp; eapply never_fails_suffix.
Qed.

(** X15.  After a failure, release restores the heap: from a memory
    where nothing lives at or beyond the next fresh address, when
    [udpipe_tag_structured] or [udpipe_tokenize_structured] returns 0
    on non-null arguments, [udpipe_free_doc] on the structure is
    defined and leaves the arenas that were there before the call and
    every array that was there; when no [malloc] failed it leaves no
    other array. *)
Theorem structured_failure_then_free_restores_heap (m : mem) :
  mem_fresh m →
  (∀ mdl text do_parse d0 out m',
     udpipe_tag_structured (Some mdl) (Some text) do_parse (Some d0) m
     = Some ((0%Z, out), m') →
     failure_released m out m')
  ∧ (∀ mdl text tokenizer_options d0 out m',
       udpipe_tokenize_structured (Some mdl) (Some text) tokenizer_options (Some d0) m
       = Some ((0%Z, out), m') →
       failure_released m out m').
Proof.
  intros Hfresh. split.
  - intros mdl text do_parse d0 out m' Hrun. rewrite tag_structured_unfold in Hrun.
    by eapply structured_failure_then_free.
  - intros mdl text opts d0 out m' Hrun. rewrite tokenize_structured_unfold in Hrun.
    by eapply structured_failure_then_free.
Qed.

(** X15 on a model without a tagger. *)
Lemma structured_failure_then_free_restores_heap_witness :
  mem_fresh (empty_mem [])
  ∧ ∃ out m',
      udpipe_tag_structured (Some no_tagger_model) (Some "Dogs run."%string) 0
        (Some zero_doc) (empty_mem []) = Some ((0%Z, out), m')
      ∧ failure_released (empty_mem []) out m'.
Proof.
  assert (Hfresh : mem_fresh (empty_mem [])).
  { intros a _. simpl. by rewrite !lookup_empty. }
  split; [exact Hfresh|].
  assert (Hrun : ∃ out m',
    udpipe_tag_structured (Some no_tagger_model) (Some "Dogs run."%string) 0
      (Some zero_doc) (empty_mem []) = Some ((0%Z, out), m')).
  { eexists _, _. vm_compute. reflexivity. }
  destruct Hrun as (out & m' & Hrun). exists out, m'. split; [exact Hrun|].
  exact (proj1 (structured_failure_then_free_restores_heap (empty_mem []) Hfresh)
           no_tagger_model _ 0%Z zero_doc out m' Hrun).
Defined.

(** ** The batch: the empty batch, the runs that succeed, what a failure stops *)

Lemma run_workers_no_workers mdl texts do_parse schedule st m :
  workers st = [] →
  run_workers mdl texts do_parse schedule st m = Some (st, m).
Proof.
  intros Hw. induction schedule as [|tid schedule IH]; [done|].
  simpl. unfold mbind, M_bind, worker_step. rewrite Hw, lookup_nil. exact IH.
Qed.

(** X16.  The empty batch: with [batch_size] 0 no thread is started and
    the engine is not called; the call returns 1 with an array of no
    document when [malloc] of 0 bytes gives a pointer, and 0 with
    [*out_docs] null when it gives null; [*out_size] is 0 either way. *)
Theorem tag_batch_empty
    (mdl : model) (do_parse : Z) (docs0 : option nat) (size0 : nat)
    (hardware_concurrency : nat) (schedule : list nat) (m : mem) :
  udpipe_tag_batch (Some mdl) (Some []) do_parse (Some docs0) (Some size0)
    hardware_concurrency schedule m
  = Some (if (malloc_succeeds (mem_oracle m)).1
          then ((1%Z, Some (Some (mem_next m)), Some 0),
                mkMem (malloc_succeeds (mem_oracle m)).2 (mem_arenas m)
                      (<[mem_next m := doc_array []]> (mem_blocks m))
                      (S (mem_next m)))
          else ((0%Z, Some None, Some 0),
                mkMem (malloc_succeeds (mem_oracle m)).2 (mem_arenas m)
                      (mem_blocks m) (mem_next m))).
Proof.
  unfold udpipe_tag_batch. simpl length.
  replace (if 0 <? (if hardware_concurrency =? 0 then 1 else hardware_concurrency)
           then 0 else if hardware_concurrency =? 0 then 1 else hardware_concurrency)
    with 0 by (by destruct hardware_concurrency).
  unfold mbind at 1, M_bind at 1.
  rewrite run_workers_no_workers by done. simpl.
  unfold mbind, M_bind, malloc.
  destruct (malloc_succeeds (mem_oracle m)) as [[] o]; simpl; [|done].
  unfold memcpy_cells. simpl. rewrite lookup_insert_eq. simpl.
  by rewrite insert_insert_eq.
Qed.

Lemma about_to_claim_insert ws tid w w' :
  ws !! tid = Some w →
  sum_list (about_to_claim <$> <[tid := w']> ws) + about_to_claim w
  = sum_list (about_to_claim <$> ws) + about_to_claim w'.
Proof.
  revert tid. induction ws as [|w0 ws IH]; intros [|tid] Hw; try done; simpl in *.
  - injection Hw as ->. lia.
  - specialize (IH _ Hw). unfold fmap in IH. lia.
Qed.

Lemma worker_step_after_failure mdl texts do_parse tid st m st' m' :
  worker_step mdl texts do_parse tid st m = Some (st', m') →
  success_flag st = false →
  success_flag st' = false
  ∧ next_index st' + pending_claims st' = next_index st + pending_claims st.
Proof.
  intros Hstep Hflag. unfold worker_step in Hstep. unfold pending_claims.
  destruct (workers st !! tid) as [[| |i|]|] eqn:Hw.
  - apply ret_Some in Hstep as [<- <-]. simpl. split; [done|].
    pose proof (about_to_claim_insert _ _ _ returned Hw) as H.
    rewrite Hflag. simpl in H. lia.
  - apply ret_Some in Hstep as [<- <-]. simpl. split; [done|].
    destruct (length texts <=? next_index st).
    + pose proof (about_to_claim_insert _ _ _ returned Hw) as H. simpl in H. lia.
    + pose proof (about_to_claim_insert _ _ _ (at_body (next_index st)) Hw) as H.
      simpl in H. lia.
  - destruct (texts !! i) as [text|]; [|done].
    apply bind_Some in Hstep as ([doc ok] & m1 & _ & Hstep).
    apply ret_Some in Hstep as [<- <-]. simpl.
    split; [by destruct ok|].
    pose proof (about_to_claim_insert _ _ _ at_loop_test Hw) as H. simpl in H. lia.
  - by apply ret_Some in Hstep as [<- <-].
  - by apply ret_Some in Hstep as [<- <-].
Qed.

(** X17.  A failure stops the batch: once [success_flag] is false it
    stays false, no thread starts a new round, and the only indices
    still claimed are those of the threads that had passed the test of
    the flag and not yet called [fetch_add]; so [next_index] grows by
    no more than the number of these threads, in every schedule. *)
Theorem failure_stops_the_batch
    (mdl : model) (texts : list string) (do_parse : Z) (schedule : list nat)
    (st : batch_state) (m : mem) (st' : batch_state) (m' : mem) :
  run_workers mdl texts do_parse schedule st m = Some (st', m') →
  success_flag st = false →
  success_flag st' = false
  ∧ next_index st' + pending_claims st' = next_index st + pending_claims st
  ∧ next_index st' ≤ next_index st + pending_claims st.
Proof.
  revert st m. induction schedule as [|tid schedule IH]; intros st m Hrun Hflag.
  - apply ret_Some in Hrun as [<- <-]. split; [done|]. split; lia.
  - simpl in Hrun. apply bind_Some in Hrun as (st1 & m1 & Hstep & Hrun).
    destruct (worker_step_after_failure _ _ _ _ _ _ _ _ Hstep Hflag) as [Hflag1 H1].
    destruct (IH _ _ Hrun Hflag1) as (Hflag' & H' & _).
    split; [done|]. split; lia.
Qed.

(** X17 on a state where thread 0 has stored false and thread 1 is
    about to claim: thread 1 claims index 1, thread 0 returns. *)
Lemma failure_stops_the_batch_witness :
  ∃ st' m',
    run_workers sample_model ["a"; "b"; "c"]%string 0 [1; 0; 1; 0]
      (mkBatch 1 false [zero_doc; zero_doc; zero_doc] [at_loop_test; at_fetch_add])
      (empty_mem [])
    = Some (st', m')
    ∧ success_flag st' = false
    ∧ next_index st' + pending_claims st' = 1 + 1
    ∧ next_index st' ≤ 1 + 1.
Proof.
  assert (Hrun : ∃ st' m',
    run_workers sample_model ["a"; "b"; "c"]%string 0 [1; 0; 1; 0]
      (mkBatch 1 false [zero_doc; zero_doc; zero_doc] [at_loop_test; at_fetch_add])
      (empty_mem [])
    = Some (st', m')).
  { eexists _, _. vm_compute. reflexivity. }
  destruct Hrun as (st' & m' & Hrun). exists st', m'. split; [exact Hrun|].
  exact (failure_stops_the_batch sample_model ["a"; "b"; "c"]%string 0 [1; 0; 1; 0]
           _ (empty_mem []) st' m' Hrun eq_refl).
Defined.

(** The body of a worker on a text the engine accepts, with no failing
    [malloc]: it completes and leaves [success_flag] alone. *)
Lemma process_text_succeeds mdl do_parse text m :
  never_fails (mem_oracle m) →
  engine_accepts (tagging do_parse) mdl EmptyString text →
  ∃ doc m',
    process_text mdl do_parse text m = Some ((doc, true), m')
    ∧ never_fails (mem_oracle m').
Proof.
  intros Hnf (reader & Htok & Hall & Hfinal).
  destruct (new_arena m) as [[pa m1]|] eqn:Hnew; [|done].
  pose proof (new_arena_spec _ _ _ Hnew) as (Hpa & _ & Har & _).
  assert (Ho1 : mem_oracle m1 = mem_oracle m) by (by injection Hnew as _ <-).
  destruct (sentence_loop_total (tagging do_parse) mdl pa (yields (reader text))
              (final_error (reader text)) [] m1 _ Har (new_StringArena_wf _))
    as (svs & error & ok & m2 & Hloop & Hs2 & Hok).
  rewrite Ho1 in Hs2, Hok. specialize (Hok Hnf Hall). subst ok.
  pose proof (sentence_loop_trace _ _ _ _ _ _ _ _ _ _ _ Hloop)
    as (_ & _ & _ & _ & _ & _ & _ & [(_ & _ & ->)|[? _]]); [|done].
  destruct (malloc_total (length svs) m2) as (p & m3 & Hmal & Hs3 & Hp).
  rewrite Hp in Hmal by (by eapply never_fails_suffix).
  destruct (memcpy_after_malloc (sentence_array svs) m2 _ m3 Hmal) as (m4 & Hcpy & Ho4).
  eexists _, m4. split.
  - unfold process_text. unfold mbind at 1, M_bind at 1. rewrite Hnew, Htok.
    unfold mbind at 1, M_bind at 1. rewrite Hloop, Hfinal.
    rewrite decide_True by done. change (negb true) with false. cbv iota.
    unfold mbind at 1, M_bind at 1. rewrite Hmal.
    unfold mbind at 1, M_bind at 1. by rewrite Hcpy.
  - rewrite Ho4. eapply never_fails_suffix; [|exact Hnf]. by etrans.
Qed.

Lemma run_workers_succeeds mdl texts do_parse schedule st m :
  never_fails (mem_oracle m) →
  Forall (engine_accepts (tagging do_parse) mdl EmptyString) texts →
  success_flag st = true →
  (∀ tid i, workers st !! tid = Some (at_body i) → i < length texts) →
  ∃ st' m',
    run_workers mdl texts do_parse schedule st m = Some (st', m')
    ∧ success_flag st' = true ∧ never_fails (mem_oracle m').
Proof.
  intros Hnf Hgood. revert st m Hnf.
  induction schedule as [|tid schedule IH]; intros st m Hnf Hflag Hbody.
  - by exists st, m.
  - assert (Hstep : ∃ st1 m1,
      worker_step mdl texts do_parse tid st m = Some (st1, m1)
      ∧ never_fails (mem_oracle m1) ∧ success_flag st1 = true
      ∧ ∀ t i, workers st1 !! t = Some (at_body i) → i < length texts).
    { unfold worker_step.
      assert (Hins : ∀ w, (∀ i, w = at_body i → i < length texts) →
        ∀ t i, <[tid := w]> (workers st) !! t = Some (at_body i) → i < length texts).
      { intros w Hw t i Ht. destruct (decide (t = tid)) as [->|Hne].
        - apply list_lookup_insert_Some in Ht as [(_ & Heq & _)|[? _]]; [|done].
          by apply Hw.
        - rewrite list_lookup_insert_ne in Ht by done. eauto. }
      destruct (workers st !! tid) as [[| |i|]|] eqn:Hw.
      - eexists _, m. split; [done|]. split; [done|]. split; [done|]. simpl.
        apply Hins. intros i. by destruct (success_flag st).
      - eexists _, m. split; [done|]. split; [done|]. split; [done|]. simpl.
        apply Hins. intros i. destruct (length texts <=? next_index st) eqn:Hle; [done|].
        intros [= <-]. by apply Nat.leb_gt in Hle.
      - destruct (lookup_lt_is_Some_2 texts i (Hbody _ _ Hw)) as [text Htext].
        rewrite Htext.
        rewrite Forall_forall in Hgood.
        destruct (process_text_succeeds mdl do_parse text m Hnf) as (doc & m1 & Hp & Hnf1).
        { apply Hgood. by eapply list_elem_of_lookup_2. }
        eexists _, m1. split.
        { unfold mbind, M_bind. rewrite Hp. reflexivity. }
        split; [done|]. split; [done|]. simpl. by apply Hins.
      - by exists st, m.
      - by exists st, m. }
    destruct Hstep as (st1 & m1 & Hstep & Hnf1 & Hflag1 & Hbody1).
    destruct (IH st1 m1 Hnf1 Hflag1 Hbody1) as (st' & m' & Hrun & Hflag' & Hnf').
    exists st', m'. split; [|done].
    simpl. unfold mbind, M_bind. by rewrite Hstep.
Qed.

(** X18.  The batch succeeds on every schedule: when the engine reads
    every text to the end and no [malloc] fails, [udpipe_tag_batch]
    returns 1, for every number of threads and every order in which
    they take their steps, with the array of documents aligned with the
    texts. *)
Theorem tag_batch_succeeds
    (mdl : model) (texts : list string) (do_parse : Z)
    (docs0 : option nat) (size0 : nat) (hardware_concurrency : nat)
    (schedule : list nat) (m : mem) :
  never_fails (mem_oracle m) →
  Forall (engine_accepts (tagging do_parse) mdl EmptyString) texts →
  ∃ out_docs out_size m',
    udpipe_tag_batch (Some mdl) (Some texts) do_parse (Some docs0) (Some size0)
      hardware_concurrency schedule m
    = Some ((1%Z, out_docs, out_size), m')
    ∧ batch_aligned mdl do_parse texts m' out_docs out_size.
Proof.
  intros Hnf Hgood.
  assert (Hcall : ∃ out_docs out_size m',
    udpipe_tag_batch (Some mdl) (Some texts) do_parse (Some docs0) (Some size0)
      hardware_concurrency schedule m
    = Some ((1%Z, out_docs, out_size), m')).
  { unfold udpipe_tag_batch.
    set (n := if length texts <? _ then _ else _).
    destruct (run_workers_succeeds mdl texts do_parse
                (schedule ++ join_schedule n (length texts))
                (mkBatch 0 true (replicate (length texts) zero_doc)
                         (replicate n at_loop_test)) m Hnf Hgood eq_refl)
      as (st & m1 & Hrun & Hflag & Hnf1).
    { intros tid i Hw. simpl in Hw. by apply lookup_replicate_1 in Hw as [? _]. }
    unfold mbind at 1, M_bind at 1. rewrite Hrun, Hflag.
    change (negb true) with false. cbv iota.
    destruct (malloc_total (length (results st)) m1) as (p & m3 & Hmal & _ & Hp).
    rewrite Hp in Hmal by done.
    destruct (memcpy_after_malloc (doc_array (results st)) m1 _ m3 Hmal)
      as (m4 & Hcpy & _).
    unfold mbind at 1, M_bind at 1. rewrite Hmal.
    unfold mbind at 1, M_bind at 1. rewrite Hcpy. by eexists _, _, _. }
  destruct Hcall as (out_docs & out_size & m' & Hcall).
  exists out_docs, out_size, m'. split; [done|].
  by destruct (tag_batch_returns _ _ _ _ _ _ _ _ _ _ _ _ Hcall) as [[_ ?]|[? _]].
Qed.

(** X18 on three texts, two threads and one of their schedules. *)
Lemma tag_batch_succeeds_witness :
  ∃ out_docs out_size m',
    udpipe_tag_batch (Some sample_model)
      (Some ["Dogs run."; "Dogs run. Cats sleep."; ""]%string) 1
      (Some None) (Some 0) 2 [1; 1; 0; 1; 1] (empty_mem [])
    = Some ((1%Z, out_docs, out_size), m')
    ∧ batch_aligned sample_model 1
        ["Dogs run."; "Dogs run. Cats sleep."; ""]%string m' out_docs out_size.
Proof.
  apply (tag_batch_succeeds sample_model
           ["Dogs run."; "Dogs run. Cats sleep."; ""]%string 1 None 0 2
           [1; 1; 0; 1; 1] (empty_mem [])).
  - constructor.
  - repeat constructor; exists sample_tokenizer; repeat constructor.
Defined.

(** ** The CoNLL-U entry point and the version string *)

Lemma until_nul_error_prefix error :
  until_nul ("ERROR: " +:+ error) = "ERROR: " +:+ until_nul error.
Proof. reflexivity. Qed.

(** X19.  [udpipe_tag_conllu] reports a failure of the pipeline in
    band: on a non-null handle and text it returns null exactly when
    [malloc] fails, never because [process] returned false; after a
    failed [process] the string at the returned pointer is "ERROR: "
    followed by the message (up to its first NUL), and after a
    successful one it is the output (up to its first NUL). *)
Theorem tag_conllu_reports_in_band
    (m : conllu_model) (text : string) (h : char_heap) :
  let r := udpipe_tag_conllu (Some m) (Some text) h in
  (r.1 = None ↔ (malloc_succeeds (ch_oracle h)).1 = false)
  ∧ ∀ p, r.1 = Some p →
      read_buffer r.2 p
      = Some (if (process m text).1.1 then until_nul (process m text).1.2
              else "ERROR: " +:+ until_nul (process m text).2).
Proof.
  unfold udpipe_tag_conllu, read_buffer.
  destruct (process m text) as [[ok os] error].
  destruct (malloc_succeeds (ch_oracle h)) as [got o]. simpl.
  destruct got; simpl; [|by split].
  split; [by split|]. intros p [= <-]. rewrite lookup_insert_eq. simpl.
  pose proof (cstr_of_cells_c_str (if ok then os else "ERROR: " +:+ error) []) as H.
  rewrite app_nil_r in H. rewrite H. by destruct ok.
Qed.

(** X20.  Round trip: on a heap with nothing live at or beyond the next
    fresh address, the buffer [udpipe_tag_conllu] returns is new, no
    other buffer changes, and [udpipe_string_free] on it is defined and
    leaves exactly the buffers that were live before; on null
    [udpipe_string_free] does nothing. *)
Theorem tag_conllu_then_string_free
    (handle : option conllu_model) (utf8_text : option string) (h : char_heap) :
  char_heap_fresh h →
  let r := udpipe_tag_conllu handle utf8_text h in
  (∀ p, r.1 = Some p →
     ch_bufs h !! p = None
     ∧ ∀ a, a ≠ p → ch_bufs r.2 !! a = ch_bufs h !! a)
  ∧ ∃ h', udpipe_string_free r.1 r.2 = Some h'
      ∧ ch_bufs h' = ch_bufs h ∧ char_heap_fresh h'.
Proof.
  intros Hfresh. unfold udpipe_tag_conllu.
  destruct handle as [m|], utf8_text as [text|]; simpl;
    try (split; [done|]; by exists h).
  destruct (process m text) as [[ok os] error].
  destruct (malloc_succeeds (ch_oracle h)) as [got o].
  destruct got; simpl.
  - split.
    { intros p [= <-]. split; [by apply Hfresh|].
      intros a Ha. by rewrite lookup_insert_ne. }
    rewrite lookup_insert_eq. eexists. split; [done|]. simpl. split.
    + apply map_eq. intros a. destruct (decide (a = ch_next h)) as [->|Hne].
      * rewrite lookup_delete_eq. symmetry. by apply Hfresh.
      * by rewrite lookup_delete_ne, lookup_insert_ne.
    + intros a Ha. simpl in Ha.
      destruct (decide (a = ch_next h)) as [->|Hne]; [lia|]. simpl.
      rewrite lookup_delete_ne, lookup_insert_ne by done. apply Hfresh. lia.
  - split; [done|]. eexists. split; [done|]. done.
Qed.

(** X20 on the empty heap. *)
Lemma tag_conllu_then_string_free_witness :
  let h := mkCharHeap [] ∅ 0 in
  let m := mkConlluModel (λ text, (false, EmptyString, "no tokenizer"%string)) in
  let r := udpipe_tag_conllu (Some m) (Some "Dogs run."%string) h in
  char_heap_fresh h
  ∧ read_buffer r.2 0 = Some "ERROR: no tokenizer"%string
  ∧ ∃ h', udpipe_string_free r.1 r.2 = Some h'
      ∧ ch_bufs h' = ch_bufs h ∧ char_heap_fresh h'.
Proof.
  intros h m r.
  assert (Hfresh : char_heap_fresh h) by (intros a _; apply lookup_empty).
  split; [exact Hfresh|]. split; [reflexivity|].
  exact (proj2 (tag_conllu_then_string_free (Some m) (Some "Dogs run."%string) h Hfresh)).
Defined.

Lemma version_string_not_empty (a b c : nat) rest :
  pretty a +:+ "." +:+ pretty b +:+ "." +:+ pretty c +:+ rest ≠ EmptyString.
Proof.
  by destruct (pretty a).
Qed.

(** X21.  [udpipe_version] computes the string once: whatever the
    static held before, a second call returns what the first returned
    and leaves the static as it is, even if [version::current()] were
    to answer differently; from the initial empty static the string is
    "major.minor.patch", followed by "-" and the prerelease when there
    is one. *)
Theorem udpipe_version_computed_once (current later : version) (v : string) :
  udpipe_version later (udpipe_version current v).2 = udpipe_version current v
  ∧ (udpipe_version current EmptyString).1
    = pretty (ver_major current) +:+ "." +:+ pretty (ver_minor current) +:+ "."
        +:+ pretty (ver_patch current)
        +:+ (if decide (ver_prerelease current = EmptyString) then EmptyString
             else "-" +:+ ver_prerelease current).
Proof.
  split; [|done]. unfold udpipe_version.
  destruct (decide (v = EmptyString)) as [->|Hne]; simpl.
  - rewrite decide_False; [done|]. apply version_string_not_empty.
  - by rewrite decide_False.
Qed.

(** ** Release through a copy *)

(** X22.  Release is idempotent through the structure it zeroes, not
    through a copy of it: after [udpipe_free_doc] has released a
    populated document, a second call on a copy of the structure as it
    was before (same arena, same arrays) deletes the arena a second
    time, which is undefined. *)
Theorem free_doc_of_stale_copy_faults
    (pl : pipeline) (m : mem) (lo hi : nat) (d : udpipe_doc_view) (ss : list sentence)
    (r : option udpipe_doc_view) (m' : mem) :
  doc_in pl m lo hi d ss →
  udpipe_free_doc (Some d) m = Some (r, m') →
  r = Some zero_doc
  ∧ udpipe_free_doc r m' = Some (Some zero_doc, m')
  ∧ udpipe_free_doc (Some d) m' = None.
Proof.
  intros (pa & ar & sa & svs & Hpa & _ & Har & _ & Hsa & _ & Hb & Hc & Hall & Hnd) Hfree.
  destruct (free_doc_exact m d pa ar sa svs) as (m'' & Hfree' & Afree & _); try done.
  { eapply Forall2_Forall_l; [exact Hall|]. apply Forall_true.
    intros sv s (a & toks & Ha & _ & Hba & _). exists a. by rewrite Hba. }
  rewrite Hfree in Hfree'. injection Hfree' as -> ->.
  split; [done|]. split; [apply free_doc_zero|].
  unfold udpipe_free_doc. rewrite Hpa.
  unfold mbind at 1 2, M_bind at 1 2, delete_arena.
  by rewrite Afree, lookup_delete_eq.
Qed.

(** X22 on the document of a run. *)
Lemma free_doc_of_stale_copy_faults_witness :
  ∃ d m m',
    udpipe_free_doc (Some d) m = Some (Some zero_doc, m')
    ∧ udpipe_free_doc (Some zero_doc) m' = Some (Some zero_doc, m')
    ∧ udpipe_free_doc (Some d) m' = None.
Proof.
  assert (Hrun : ∃ out m,
    structured (tagging 1) sample_model EmptyString "Dogs run." (empty_mem [])
    = Some ((1%Z, out), m)).
  { eexists _, _. vm_compute. reflexivity. }
  destruct Hrun as (out & m & Hrun).
  destruct (structured_spec _ _ _ _ _ _ _ _ Hrun)
    as (_ & _ & _ & _ & [[Hr _]|(_ & _ & d & seen & _ & _ & _ & _ & Hdoc & _)]).
  { discriminate Hr. }
  destruct (free_doc_populated _ _ _ _ _ _ Hdoc) as (m' & Hfree & _).
  exists d, m, m'. split; [exact Hfree|].
  exact (proj2 (free_doc_of_stale_copy_faults _ _ _ _ _ _ _ _ Hdoc Hfree)).
Defined.

(** ** Ownership in a batch, and what release gives back *)

Lemma slot_arrays_wf lo m d sa :
  slot_wf lo m d → doc_sentences d = sentences_at sa →
  ∃ svs, mem_blocks m !! sa = Some (sentence_array svs)
    ∧ slot_arrays m d = doc_arrays sa svs.
Proof.
  intros [_ Hwf] Hsa. rewrite Hsa in Hwf. destruct Hwf as (svs & Hb & _).
  exists svs. split; [done|]. unfold slot_arrays. rewrite Hsa. simpl. by rewrite Hb.
Qed.

Lemma slot_arrays_bounds lo m d a :
  slot_wf lo m d → a ∈ slot_arrays m d → lo ≤ a ∧ is_Some (mem_blocks m !! a).
Proof.
  intros Hwf Ha. unfold slot_arrays in Ha.
  destruct (doc_sentences d) as [|sa|buf] eqn:Hsa; [by apply elem_of_nil in Ha| |
    by apply elem_of_nil in Ha].
  destruct (slot_arrays_wf lo m d sa Hwf Hsa) as (svs & Hb & _).
  destruct Hwf as [_ Hwf]. rewrite Hsa in Hwf.
  destruct Hwf as (svs' & Hb' & _ & Hlo & Hall & _).
  assert (svs' = svs) as -> by congruence.
  simpl in Ha. rewrite Hb in Ha. unfold doc_arrays in Ha.
  apply elem_of_cons in Ha as [->|Ha]; [by rewrite Hb|].
  apply list_elem_of_omap in Ha as (sv & Hsv & Ha).
  rewrite Forall_forall in Hall. destruct (Hall sv Hsv) as (a' & Ha' & ? & ?).
  by assert (a' = a) as -> by congruence.
Qed.

(** [udpipe_free_doc] on a slot: the arena and the arrays of the slot
    go, and nothing else. *)
Lemma free_doc_slot lo m d :
  slot_wf lo m d →
  ∃ m', udpipe_free_doc (Some d) m = Some (Some zero_doc, m')
    ∧ mem_next m' = mem_next m ∧ mem_oracle m' = mem_oracle m
    ∧ (∀ a, mem_arenas m' !! a
            = if decide (a ∈ slot_arenas d) then None else mem_arenas m !! a)
    ∧ (∀ a, mem_blocks m' !! a
            = if decide (a ∈ slot_arrays m d) then None else mem_blocks m !! a).
Proof.
  intros Hwf. pose proof Hwf as [Harena Hsent].
  set (m1 := match doc_arena d with
             | Some pa => mkMem (mem_oracle m) (delete pa (mem_arenas m))
                                (mem_blocks m) (mem_next m)
             | None => m
             end).
  assert (H1 : match doc_arena d with
               | Some pa => delete_arena pa
               | None => mret tt
               end m = Some (tt, m1)
               ∧ mem_blocks m1 = mem_blocks m ∧ mem_next m1 = mem_next m
               ∧ mem_oracle m1 = mem_oracle m
               ∧ ∀ a, mem_arenas m1 !! a
                      = if decide (a ∈ slot_arenas d) then None else mem_arenas m !! a).
  { unfold m1, slot_arenas. destruct (doc_arena d) as [pa|].
    - destruct (Harena pa eq_refl) as [_ [ar Har]].
      unfold delete_arena. rewrite Har. simpl. do 4 (split; [done|]).
      intros a. destruct (decide (a = pa)) as [->|Hne].
      + rewrite decide_True by apply list_elem_of_here. by rewrite lookup_delete_eq.
      + rewrite decide_False by (by intros ?%list_elem_of_singleton).
        by rewrite lookup_delete_ne.
    - do 4 (split; [done|]). intros a. rewrite decide_False; [done|]. apply not_elem_of_nil. }
  destruct H1 as (Hdel & B1 & N1 & O1 & A1).
  unfold udpipe_free_doc. unfold mbind at 1 2, M_bind at 1 2. rewrite Hdel.
  unfold slot_arrays. destruct (doc_sentences d) as [|sa|buf] eqn:Hsa; [| |done].
  - exists m1. split; [done|]. do 3 (split; [done|]).
    intros a. rewrite decide_False by apply not_elem_of_nil. by rewrite B1.
  - destruct Hsent as (svs & Hb & Hc & _ & Hall & Hnd).
    unfold doc_arrays in Hnd. apply NoDup_cons in Hnd as [Hsa_notin Hnd].
    destruct (free_sentence_tokens_exact svs m1 Hnd) as (m2 & Hrun & A2 & N2 & O2 & B2).
    { eapply Forall_impl; [exact Hall|]. intros sv (a & Ha & _ & Hlive).
      exists a. by rewrite B1. }
    assert (Hsa2 : mem_blocks m2 !! sa = Some (sentence_array svs)).
    { by rewrite B2, decide_False, B1. }
    eexists. split.
    { unfold mbind at 1, M_bind at 1. simpl sentences_of. rewrite B1, Hb, Hc, Hrun.
      rewrite (free_Some _ _ _ Hsa2). reflexivity. }
    simpl. split; [congruence|]. split; [congruence|]. split.
    { intros a. by rewrite A2. }
    intros a. rewrite Hb. unfold doc_arrays.
    destruct (decide (a = sa)) as [->|Hne].
    + rewrite decide_True by apply list_elem_of_here. by rewrite lookup_delete_eq.
    + rewrite lookup_delete_ne, B2, B1 by done.
      case_decide as Hin.
      * rewrite decide_True; [done|]. by apply list_elem_of_further.
      * rewrite decide_False; [done|]. by apply not_elem_of_cons.
Qed.

Lemma slot_arrays_same lo m m' d :
  slot_wf lo m d →
  (∀ a, a ∈ slot_arrays m d → mem_blocks m' !! a = mem_blocks m !! a) →
  slot_arrays m' d = slot_arrays m d.
Proof.
  intros Hwf Hsame. unfold slot_arrays in *.
  destruct (doc_sentences d) as [|sa|buf] eqn:Hsa; [done| |done].
  simpl in *. rewrite Hsame; [done|]. apply list_elem_of_here.
Qed.

Lemma slot_wf_same lo m m' d :
  slot_wf lo m d →
  (∀ a, a ∈ slot_arenas d → mem_arenas m' !! a = mem_arenas m !! a) →
  (∀ a, a ∈ slot_arrays m d → mem_blocks m' !! a = mem_blocks m !! a) →
  slot_wf lo m' d.
Proof.
  intros Hwf HA HB. pose proof Hwf as [Harena Hsent]. split.
  - intros pa Hpa. destruct (Harena pa Hpa) as [? Hlive]. split; [done|].
    rewrite HA; [done|]. unfold slot_arenas. rewrite Hpa. apply list_elem_of_here.
  - destruct (doc_sentences d) as [|sa|buf] eqn:Hsa; [done| |done].
    destruct (slot_arrays_wf lo m d sa Hwf Hsa) as (svs & Hb & Harr).
    destruct Hsent as (svs' & Hb' & Hc & Hlo & Hall & Hnd).
    assert (svs' = svs) as -> by congruence.
    exists svs. rewrite Harr in HB.
    split; [rewrite HB; [done|apply list_elem_of_here]|].
    do 2 (split; [done|]). split; [|done].
    rewrite Forall_forall in Hall. apply Forall_forall. intros sv Hsv.
    destruct (Hall sv Hsv) as (a & Ha & ? & Hlive). exists a. do 2 (split; [done|]).
    rewrite HB; [done|]. apply list_elem_of_further, list_elem_of_omap. eauto.
Qed.

Lemma free_results_cons r rs m :
  free_results (r :: rs) m
  = (r' ← udpipe_free_doc (Some r); rs' ← free_results rs;
     mret (default zero_doc r' :: rs')) m.
Proof. reflexivity. Qed.

(** Lines 390-392 and 399-401: releasing every slot of a heap that the
    slots own leaves what was there below [lo] and the arrays [keep]. *)
Lemma free_results_all lo keep rs m :
  batch_heap lo keep m rs →
  ∃ rs' m', free_results rs m = Some (rs', m')
    ∧ mem_next m' = mem_next m
    ∧ (∀ a, a < lo → mem_arenas m' !! a = mem_arenas m !! a
                     ∧ mem_blocks m' !! a = mem_blocks m !! a)
    ∧ (∀ a, lo ≤ a → mem_arenas m' !! a = None)
    ∧ (∀ a, lo ≤ a → a ∉ keep → mem_blocks m' !! a = None)
    ∧ (∀ a, a ∈ keep → mem_blocks m' !! a = mem_blocks m !! a).
Proof.
  revert m. induction rs as [|r rs IH]; intros m [Hwf HdA HdB Hkeep HcA HcB].
  - exists [], m. split; [done|]. split; [done|]. split; [done|]. split.
    { intros a Ha. destruct (mem_arenas m !! a) eqn:E; [|done].
      by destruct (HcA a Ha) as (d & ?%elem_of_nil & _). }
    split; [|done]. intros a Ha Hk. destruct (mem_blocks m !! a) eqn:E; [|done].
    by destruct (HcB a Ha) as [?|(d & ?%elem_of_nil & _)].
  - destruct (free_doc_slot lo m r) as (m1 & Hfree & N1 & _ & A1 & B1).
    { apply Hwf, list_elem_of_here. }
    assert (HoffA : ∀ d, d ∈ rs → ∀ a, a ∈ slot_arenas d →
              mem_arenas m1 !! a = mem_arenas m !! a).
    { intros d Hd a Ha. rewrite A1, decide_False; [done|]. intros Hr.
      apply list_elem_of_lookup in Hd as [j Hj].
      by pose proof (HdA 0 (S j) r d a eq_refl Hj Hr Ha). }
    assert (HoffB : ∀ d, d ∈ rs → ∀ a, a ∈ slot_arrays m d →
              mem_blocks m1 !! a = mem_blocks m !! a).
    { intros d Hd a Ha. rewrite B1, decide_False; [done|]. intros Hr.
      apply list_elem_of_lookup in Hd as [j Hj].
      by pose proof (HdB 0 (S j) r d a eq_refl Hj Hr Ha). }
    assert (Hsame : ∀ d, d ∈ rs → slot_arrays m1 d = slot_arrays m d).
    { intros d Hd. eapply slot_arrays_same; [by apply Hwf, list_elem_of_further|].
      by apply HoffB. }
    destruct (IH m1) as (rs' & m' & Hrun & N' & Hlow & HhiA & HhiB & Hk').
    { split.
      - intros d Hd. eapply slot_wf_same; [by apply Hwf, list_elem_of_further|..].
        + by apply HoffA.
        + by apply HoffB.
      - intros i j d d' a Hi Hj Ha Ha'.
        by pose proof (HdA (S i) (S j) d d' a Hi Hj Ha Ha') as [= ->].
      - intros i j d d' a Hi Hj Ha Ha'.
        rewrite Hsame in Ha by (by eapply list_elem_of_lookup_2).
        rewrite Hsame in Ha' by (by eapply list_elem_of_lookup_2).
        by pose proof (HdB (S i) (S j) d d' a Hi Hj Ha Ha') as [= ->].
      - intros a d Ha Hd. rewrite Hsame by done. apply Hkeep; [done|].
        by apply list_elem_of_further.
      - intros a Ha Hlive. rewrite A1 in Hlive. case_decide as Hr; [by destruct Hlive|].
        destruct (HcA a Ha Hlive) as (d & Hd & Had).
        apply elem_of_cons in Hd as [->|Hd]; [done|]. eauto.
      - intros a Ha Hlive. rewrite B1 in Hlive. case_decide as Hr; [by destruct Hlive|].
        destruct (HcB a Ha Hlive) as [?|(d & Hd & Had)]; [by left|].
        apply elem_of_cons in Hd as [->|Hd]; [done|].
        right. exists d. by rewrite Hsame. }
    eexists _, m'. split.
    { rewrite free_results_cons. unfold mbind at 1, M_bind at 1. rewrite Hfree.
      unfold mbind at 1, M_bind at 1. rewrite Hrun. reflexivity. }
    split; [congruence|]. split; [|split; [done|split; [done|]]].
    + intros a Ha. destruct (Hlow a Ha) as [-> ->]. rewrite A1, B1.
      assert (Hr : slot_wf lo m r) by apply Hwf, list_elem_of_here.
      rewrite !decide_False; [done|..].
      * intros Hin. apply (slot_arrays_bounds lo m r a Hr) in Hin as [? _]. lia.
      * intros Hin. unfold slot_arenas in Hin. destruct Hr as [Hr _].
        destruct (doc_arena r) as [pa|]; [|by apply elem_of_nil in Hin].
        apply list_elem_of_singleton in Hin as ->. destruct (Hr pa eq_refl). lia.
    + intros a Ha. rewrite Hk' by done. rewrite B1, decide_False; [done|].
      apply Hkeep; [done|apply list_elem_of_here].
Qed.

(** What the loop leaves, from a memory with nothing at or beyond the
    next fresh address: the arena, and one new live token array for
    each view it pushed. *)
Lemma sentence_loop_owned pl mdl pa next final m svs error ok m' ar :
  sentence_loop pl mdl pa next final [] m = Some ((svs, error, ok), m') →
  mem_arenas m !! pa = Some ar → arena_wf ar →
  mem_next m ≤ mem_next m'
  ∧ is_Some (mem_arenas m' !! pa)
  ∧ (∀ a, a ≠ pa → mem_arenas m' !! a = mem_arenas m !! a)
  ∧ Forall (λ sv, ∃ a, sv_tokens sv = Some a ∧ mem_next m ≤ a < mem_next m'
                    ∧ is_Some (mem_blocks m' !! a)) svs
  ∧ NoDup (omap sv_tokens svs)
  ∧ ∀ a, a ∉ omap sv_tokens svs → mem_blocks m' !! a = mem_blocks m !! a.
Proof.
  intros Hloop Har Hwf.
  destruct (sentence_loop_spec _ _ _ _ _ _ _ _ _ _ _ ar (mem_next m) [] Hloop Har Hwf)
    as (ar' & seen & rest & Har' & _ & _ & Hall & Hnd & _); [done|constructor|constructor|].
  apply sentence_loop_exact in Hloop as (Hn & A & new & Hsvs & Hnew & B).
  simpl in Hsvs. subst new.
  split; [done|]. split; [by rewrite Har'|]. split; [done|]. split; [|done].
  apply Forall_forall. intros sv Hsv.
  rewrite Forall_forall in Hnew. destruct (Hnew sv Hsv) as (a & Ha & Hr).
  exists a. do 2 (split; [done|]).
  apply list_elem_of_lookup in Hsv as [i Hi].
  destruct (Forall2_lookup_l _ _ _ _ _ Hall Hi) as (s & _ & (a' & toks & Ha' & _ & Hb & _)).
  assert (a' = a) as -> by congruence. by rewrite Hb.
Qed.

(** The body of a worker, from such a memory: the structure it leaves
    in its slot owns everything the body has left in memory. *)
Lemma process_text_owned mdl do_parse text m doc ok m' :
  mem_fresh m →
  process_text mdl do_parse text m = Some ((doc, ok), m') →
  mem_fresh m'
  ∧ slot_wf (mem_next m) m' doc
  ∧ (∀ a, mem_next m ≤ a → is_Some (mem_arenas m' !! a) → a ∈ slot_arenas doc)
  ∧ (∀ a, mem_next m ≤ a → is_Some (mem_blocks m' !! a) → a ∈ slot_arrays m' doc).
Proof.
  intros Hfresh Hrun. unfold process_text in Hrun.
  apply bind_Some in Hrun as (pa & m1 & Hnew & Hrun).
  pose proof (new_arena_spec _ _ _ Hnew) as (-> & N1 & Har1 & _).
  assert (B1 : mem_blocks m1 = mem_blocks m) by (by injection Hnew as <-).
  assert (A1 : ∀ a, a ≠ mem_next m → mem_arenas m1 !! a = mem_arenas m !! a).
  { intros a Ha. injection Hnew as <-. simpl. by rewrite lookup_insert_ne. }
  assert (Honly : ∀ mX,
    mem_next m1 ≤ mem_next mX →
    is_Some (mem_arenas mX !! mem_next m) →
    (∀ a, a ≠ mem_next m → mem_arenas mX !! a = mem_arenas m1 !! a) →
    (∀ a, mem_blocks mX !! a = mem_blocks m1 !! a) →
    let d := mkDoc sentences_null 0 (Some (mem_next m)) in
    mem_fresh mX ∧ slot_wf (mem_next m) mX d
    ∧ (∀ a, mem_next m ≤ a → is_Some (mem_arenas mX !! a) → a ∈ slot_arenas d)
    ∧ (∀ a, mem_next m ≤ a → is_Some (mem_blocks mX !! a) → a ∈ slot_arrays mX d)).
  { intros mX HN HA HAoff HB d. split; [|split; [|split]].
    - intros a Ha. rewrite HB, B1. split; [apply Hfresh; lia|].
      rewrite HAoff, A1 by lia. apply Hfresh. lia.
    - split; [|done]. intros pa [= <-]. done.
    - intros a Ha Hlive. simpl. destruct (decide (a = mem_next m)) as [->|Hne].
      + apply list_elem_of_here.
      + rewrite HAoff, A1 in Hlive by done.
        destruct (Hfresh a Ha) as [_ E]. rewrite E in Hlive. by destruct Hlive.
    - intros a Ha Hlive. rewrite HB, B1 in Hlive.
      destruct (Hfresh a Ha) as [E _]. rewrite E in Hlive. by destruct Hlive. }
  destruct (new_tokenizer mdl EmptyString) as [reader|].
  2:{ apply ret_Some in Hrun as [[= <- <-] <-]. by apply Honly. }
  apply bind_Some in Hrun as ([[svs error] cs] & m2 & Hloop & Hrun).
  destruct (sentence_loop_owned _ _ _ _ _ _ _ _ _ _ _ Hloop Har1 (new_StringArena_wf _))
    as (N2 & Hlive2 & A2 & Htoks & Hnd & B2).
  destruct (negb (if decide (error = EmptyString) then cs else false)).
  { apply bind_Some in Hrun as (? & m3 & Hfree & Hrun).
    apply free_doc_vector in Hfree as [-> ->].
    apply ret_Some in Hrun as [[= <- <-] <-].
    apply Honly; [done..|]. intros a. apply B2. apply not_elem_of_nil. }
  apply bind_Some in Hrun as ([sa|] & m3 & Hmal & Hrun).
  2:{ apply bind_Some in Hrun as (? & m4 & Hfree & Hrun).
      apply free_doc_vector in Hfree as [-> ->].
      apply ret_Some in Hrun as [[= <- <-] <-].
      apply malloc_spec in Hmal as (A3 & N3 & B3).
      apply Honly; [lia|by rewrite A3|by intros; rewrite A3; apply A2|].
      intros a. rewrite B3. apply B2. apply not_elem_of_nil. }
  apply bind_Some in Hrun as ([] & m4 & Hcpy & Hrun).
  apply ret_Some in Hrun as [[= <- <-] <-].
  apply malloc_spec in Hmal as (A3 & -> & N3 & B3).
  apply memcpy_cells_spec in Hcpy as (A4 & N4 & B4).
  assert (Hsa_notin : mem_next m2 ∉ omap sv_tokens svs).
  { intros Hin. apply list_elem_of_omap in Hin as (sv & Hsv & Ha).
    rewrite Forall_forall in Htoks. destruct (Htoks sv Hsv) as (a & Ha' & Hr & _).
    assert (a = mem_next m2) as -> by congruence. lia. }
  assert (Hsa : mem_blocks m4 !! mem_next m2 = Some (sentence_array svs)).
  { by rewrite B4, lookup_insert_eq. }
  assert (Hoff : ∀ a, a ≠ mem_next m2 → mem_blocks m4 !! a = mem_blocks m2 !! a).
  { intros a Ha. by rewrite B4, B3, !lookup_insert_ne. }
  split; [|split; [|split]].
  - intros a Ha. rewrite N4, N3 in Ha. split.
    + rewrite Hoff by lia. rewrite B2; [rewrite B1; apply Hfresh; lia|].
      intros Hin. apply list_elem_of_omap in Hin as (sv & Hsv & Ha').
      rewrite Forall_forall in Htoks. destruct (Htoks sv Hsv) as (a' & Ha'' & Hr & _).
      assert (a' = a) as -> by congruence. lia.
    + rewrite A4, A3, A2, A1 by lia. apply Hfresh. lia.
  - split.
    + intros pa [= <-]. split; [done|]. by rewrite A4, A3.
    + simpl. exists svs. split; [done|]. split; [done|]. split; [lia|]. split.
      * eapply Forall_impl; [exact Htoks|]. intros sv (a & Ha & Hr & Hlive).
        exists a. split; [done|]. split; [lia|]. rewrite Hoff; [done|]. lia.
      * unfold doc_arrays. by apply NoDup_cons.
  - intros a Ha Hlive. simpl. destruct (decide (a = mem_next m)) as [->|Hne].
    + apply list_elem_of_here.
    + rewrite A4, A3, A2, A1 in Hlive by done.
      destruct (Hfresh a Ha) as [_ E]. rewrite E in Hlive. by destruct Hlive.
  - intros a Ha Hlive. unfold slot_arrays. simpl. rewrite Hsa. unfold doc_arrays.
    destruct (decide (a = mem_next m2)) as [->|Hne]; [apply list_elem_of_here|].
    apply list_elem_of_further.
    destruct (decide (a ∈ omap sv_tokens svs)) as [|Hnotin]; [done|].
    rewrite Hoff, B2, B1 in Hlive by done.
    destruct (Hfresh a Ha) as [E _]. rewrite E in Hlive. by destruct Hlive.
Qed.

Lemma slot_wf_weaken lo lo' m d : lo ≤ lo' → slot_wf lo' m d → slot_wf lo m d.
Proof.
  intros Hle [Harena Hsent]. split.
  - intros pa Hpa. destruct (Harena pa Hpa). split; [lia|done].
  - destruct (doc_sentences d) as [|sa|buf]; [done| |done].
    destruct Hsent as (svs & Hb & Hc & Hlo & Hall & Hnd).
    exists svs. do 2 (split; [done|]). split; [lia|]. split; [|done].
    eapply Forall_impl; [exact Hall|]. intros sv (a & ? & ? & ?).
    exists a. split; [done|]. split; [lia|done].
Qed.

Lemma batch_owned_init texts num_threads m :
  mem_fresh m →
  batch_owned (mem_next m) texts m
    (mkBatch 0 true (replicate (length texts) zero_doc)
             (replicate num_threads at_loop_test)).
Proof.
  intros Hfresh.
  assert (Hzero : ∀ i d, replicate (length texts) zero_doc !! i = Some d → d = zero_doc).
  { intros i d Hd. by apply lookup_replicate_1 in Hd as [? _]. }
  split; simpl.
  - split.
    + intros d Hd. apply list_elem_of_lookup in Hd as [i Hi].
      rewrite (Hzero _ _ Hi). split; [done|]. done.
    + intros i j d d' a Hi Hj Ha. rewrite (Hzero _ _ Hi) in Ha. by apply elem_of_nil in Ha.
    + intros i j d d' a Hi Hj Ha. rewrite (Hzero _ _ Hi) in Ha. by apply elem_of_nil in Ha.
    + intros a d Ha. by apply elem_of_nil in Ha.
    + intros a Ha Hlive. destruct (Hfresh a Ha) as [_ E]. rewrite E in Hlive.
      by destruct Hlive.
    + intros a Ha Hlive. destruct (Hfresh a Ha) as [E _]. rewrite E in Hlive.
      by destruct Hlive.
  - done.
  - done.
  - by rewrite length_replicate.
  - intros i _ Hi. by apply lookup_replicate_2.
  - intros tid i Hw. by apply lookup_replicate_1 in Hw as [? _].
  - intros tid i Hw. by apply lookup_replicate_1 in Hw as [? _].
Qed.

(** The body of a worker keeps the heap with the slots. *)
Lemma batch_heap_insert lo m m' rs i doc :
  batch_heap lo [] m rs → mem_fresh m → lo ≤ mem_next m →
  rs !! i = Some zero_doc →
  frame m m' →
  slot_wf (mem_next m) m' doc →
  (∀ a, mem_next m ≤ a → is_Some (mem_arenas m' !! a) → a ∈ slot_arenas doc) →
  (∀ a, mem_next m ≤ a → is_Some (mem_blocks m' !! a) → a ∈ slot_arrays m' doc) →
  batch_heap lo [] m' (<[i := doc]> rs).
Proof.
  intros [Hwf HdA HdB _ HcA HcB] Hfresh Hlo Hi [Hnext Hframe] Hdoc HnA HnB.
  assert (Hlt : i < length rs) by (by eapply lookup_lt_Some).
  assert (HoldA : ∀ d a, d ∈ rs → a ∈ slot_arenas d → a < mem_next m).
  { intros d a Hd Ha. destruct (Hwf d Hd) as [Harena _].
    unfold slot_arenas in Ha. destruct (doc_arena d) as [pa|]; [|by apply elem_of_nil in Ha].
    apply list_elem_of_singleton in Ha as ->.
    destruct (Harena pa eq_refl) as [_ Hlive].
    destruct (decide (pa < mem_next m)); [done|].
    destruct (Hfresh pa) as [_ E]; [lia|]. rewrite E in Hlive. by destruct Hlive. }
  assert (HoldB : ∀ d a, d ∈ rs → a ∈ slot_arrays m d → a < mem_next m).
  { intros d a Hd Ha.
    destruct (slot_arrays_bounds lo m d a (Hwf d Hd) Ha) as [_ Hlive].
    destruct (decide (a < mem_next m)); [done|].
    destruct (Hfresh a) as [E _]; [lia|]. rewrite E in Hlive. by destruct Hlive. }
  assert (Hsame : ∀ d, d ∈ rs → slot_arrays m' d = slot_arrays m d).
  { intros d Hd. eapply slot_arrays_same; [by apply Hwf|].
    intros a Ha. apply Hframe. by eapply HoldB. }
  assert (Hold : ∀ d, d ∈ rs → slot_wf lo m' d).
  { intros d Hd. eapply slot_wf_same; [by apply Hwf|..].
    - intros a Ha. apply Hframe. by eapply HoldA.
    - intros a Ha. apply Hframe. by eapply HoldB. }
  assert (HnewA : ∀ a, a ∈ slot_arenas doc → mem_next m ≤ a).
  { intros a Ha. destruct Hdoc as [Harena _]. unfold slot_arenas in Ha.
    destruct (doc_arena doc) as [pa|]; [|by apply elem_of_nil in Ha].
    apply list_elem_of_singleton in Ha as ->. by destruct (Harena pa eq_refl). }
  assert (HnewB : ∀ a, a ∈ slot_arrays m' doc → mem_next m ≤ a).
  { intros a Ha. by destruct (slot_arrays_bounds _ _ _ _ Hdoc Ha). }
  assert (Hcases : ∀ j d, <[i := doc]> rs !! j = Some d →
            (j = i ∧ d = doc) ∨ (j ≠ i ∧ rs !! j = Some d ∧ d ∈ rs)).
  { intros j d Hj. apply list_lookup_insert_Some in Hj as [(<- & <- & _)|[Hne Hj]].
    - by left.
    - right. split; [done|]. split; [done|]. by eapply list_elem_of_lookup_2. }
  assert (Hin : ∀ d, d ∈ rs → d ≠ zero_doc → d ∈ <[i := doc]> rs).
  { intros d Hd Hnz. apply list_elem_of_lookup in Hd as [j Hj].
    apply list_elem_of_lookup. exists j. rewrite list_lookup_insert_ne; [done|].
    intros <-. congruence. }
  split.
  - intros d Hd. apply list_elem_of_lookup in Hd as [j Hj].
    destruct (Hcases j d Hj) as [[_ ->]|(_ & _ & Hd)]; [|by apply Hold].
    by eapply slot_wf_weaken.
  - intros j1 j2 d1 d2 a H1 H2 Ha1 Ha2.
    destruct (Hcases _ _ H1) as [[-> ->]|(Hn1 & H1' & Hd1)],
             (Hcases _ _ H2) as [[-> ->]|(Hn2 & H2' & Hd2)]; [done| | |by eapply HdA].
    + apply HnewA in Ha1. pose proof (HoldA _ _ Hd2 Ha2). lia.
    + apply HnewA in Ha2. pose proof (HoldA _ _ Hd1 Ha1). lia.
  - intros j1 j2 d1 d2 a H1 H2 Ha1 Ha2.
    destruct (Hcases _ _ H1) as [[-> ->]|(Hn1 & H1' & Hd1)],
             (Hcases _ _ H2) as [[-> ->]|(Hn2 & H2' & Hd2)]; [done| | |].
    + rewrite Hsame in Ha2 by done.
      apply HnewB in Ha1. pose proof (HoldB _ _ Hd2 Ha2). lia.
    + rewrite Hsame in Ha1 by done.
      apply HnewB in Ha2. pose proof (HoldB _ _ Hd1 Ha1). lia.
    + rewrite Hsame in Ha1, Ha2 by done. by eapply HdB.
  - intros a d Ha. by apply elem_of_nil in Ha.
  - intros a Ha Hlive. destruct (decide (a < mem_next m)) as [Hlt'|Hge].
    + destruct (Hframe a Hlt') as [_ E]. rewrite E in Hlive.
      destruct (HcA a Ha Hlive) as (d & Hd & Had). exists d. split; [|done].
      apply Hin; [done|]. intros ->. by apply elem_of_nil in Had.
    + exists doc. split; [|apply HnA; [lia|done]].
      apply list_elem_of_lookup. exists i. by apply list_lookup_insert_eq.
  - intros a Ha Hlive. right. destruct (decide (a < mem_next m)) as [Hlt'|Hge].
    + destruct (Hframe a Hlt') as [E _]. rewrite E in Hlive.
      destruct (HcB a Ha Hlive) as [Hk|(d & Hd & Had)]; [by apply elem_of_nil in Hk|].
      exists d. rewrite Hsame by done. split; [|done].
      apply Hin; [done|]. intros ->. by apply elem_of_nil in Had.
    + exists doc. split; [|apply HnB; [lia|done]].
      apply list_elem_of_lookup. exists i. by apply list_lookup_insert_eq.
Qed.

(** Every step of a thread keeps the heap with the slots. *)
Lemma worker_step_owned lo mdl texts do_parse tid st m st' m' :
  batch_owned lo texts m st →
  worker_step mdl texts do_parse tid st m = Some (st', m') →
  batch_owned lo texts m' st'.
Proof.
  intros [Hheap Hfresh Hlo Hres Hun Hcl Hex] Hstep.
  pose proof (worker_step_exclusive mdl do_parse texts _ _ _ _ _ Hex Hstep) as Hex'.
  unfold worker_step in Hstep.
  destruct (workers st !! tid) as [[| |i|]|] eqn:Hw.
  - apply ret_Some in Hstep as [<- <-]. split; simpl in *; try done.
    intros t i Ht. destruct (decide (t = tid)) as [->|Hne].
    + apply list_lookup_insert_Some in Ht as [(_ & Heq & _)|[? _]]; [|done].
      by destruct (success_flag st).
    + rewrite list_lookup_insert_ne in Ht by done. eauto.
  - apply ret_Some in Hstep as [<- <-]. split; simpl in *; try done.
    + intros i Hi Hi'. apply Hun; [lia|done].
    + intros t i Ht. destruct (decide (t = tid)) as [->|Hne].
      * apply list_lookup_insert_Some in Ht as [(_ & Heq & _)|[? _]]; [|done].
        destruct (length texts <=? next_index st) eqn:Hle; [done|].
        injection Heq as <-. apply Nat.leb_gt in Hle. split; [done|].
        by apply Hun.
      * rewrite list_lookup_insert_ne in Ht by done. eauto.
  - destruct (Hcl _ _ Hw) as [Hi Hzero].
    destruct (texts !! i) as [text|]; [|done].
    apply bind_Some in Hstep as ([doc ok] & m1 & Hproc & Hstep).
    apply ret_Some in Hstep as [<- <-].
    destruct (process_text_spec _ _ _ _ _ _ _ Hproc) as [Hframe _].
    destruct (process_text_owned _ _ _ _ _ _ _ Hfresh Hproc) as (Hfresh1 & Hdoc & HnA & HnB).
    split; simpl in *.
    + by eapply batch_heap_insert.
    + done.
    + destruct Hframe as [? _]. lia.
    + by rewrite length_insert.
    + intros j Hj Hj'. destruct (Hex _ _ Hw) as [Hlt _].
      rewrite list_lookup_insert_ne by lia. by apply Hun.
    + intros t j Ht. destruct (decide (t = tid)) as [->|Hne].
      * by apply list_lookup_insert_Some in Ht as [(_ & ? & _)|[? _]].
      * rewrite list_lookup_insert_ne in Ht by done.
        destruct (Hcl _ _ Ht) as [Hj Hzj]. split; [done|].
        rewrite list_lookup_insert_ne; [done|]. intros <-.
        destruct (Hex _ _ Hw) as [_ Huniq]. by specialize (Huniq t Ht).
    + done.
  - by apply ret_Some in Hstep as [<- <-].
  - by apply ret_Some in Hstep as [<- <-].
Qed.

Lemma run_workers_owned lo mdl texts do_parse schedule st m st' m' :
  batch_owned lo texts m st →
  run_workers mdl texts do_parse schedule st m = Some (st', m') →
  batch_owned lo texts m' st'.
Proof.
  revert st m. induction schedule as [|tid schedule IH]; intros st m Hown Hrun.
  - by apply ret_Some in Hrun as [<- <-].
  - simpl in Hrun. apply bind_Some in Hrun as (st1 & m1 & Hstep & Hrun).
    eauto using worker_step_owned.
Qed.

(** Arrays that are new to the heap, and that no slot owns, can be set
    apart. *)
Lemma batch_heap_keep lo keep m m' rs :
  batch_heap lo [] m rs →
  mem_arenas m' = mem_arenas m →
  (∀ a, a ∉ keep → mem_blocks m' !! a = mem_blocks m !! a) →
  (∀ a, a ∈ keep → mem_blocks m !! a = None) →
  batch_heap lo keep m' rs.
Proof.
  intros [Hwf HdA HdB _ HcA HcB] HA HB HK.
  assert (Hoff : ∀ d a, d ∈ rs → a ∈ slot_arrays m d →
            mem_blocks m' !! a = mem_blocks m !! a).
  { intros d a Hd Ha. apply HB. intros Hk.
    destruct (slot_arrays_bounds lo m d a (Hwf d Hd) Ha) as [_ Hlive].
    rewrite (HK a Hk) in Hlive. by destruct Hlive. }
  assert (Hsame : ∀ d, d ∈ rs → slot_arrays m' d = slot_arrays m d).
  { intros d Hd. eapply slot_arrays_same; [by apply Hwf|].
    intros a Ha. by eapply Hoff. }
  split.
  - intros d Hd. eapply slot_wf_same; [by apply Hwf|..].
    + intros a _. by rewrite HA.
    + intros a Ha. by eapply Hoff.
  - done.
  - intros i j d d' a Hi Hj Ha Ha'.
    rewrite Hsame in Ha by (by eapply list_elem_of_lookup_2).
    rewrite Hsame in Ha' by (by eapply list_elem_of_lookup_2).
    by eapply HdB.
  - intros a d Hk Hd. rewrite Hsame by done. intros Ha.
    destruct (slot_arrays_bounds lo m d a (Hwf d Hd) Ha) as [_ Hlive].
    rewrite (HK a Hk) in Hlive. by destruct Hlive.
  - intros a Ha Hlive. rewrite HA in Hlive. by apply HcA.
  - intros a Ha Hlive. destruct (decide (a ∈ keep)) as [|Hk]; [by left|]. right.
    rewrite HB in Hlive by done.
    destruct (HcB a Ha Hlive) as [Hk'|(d & Hd & Had)]; [by apply elem_of_nil in Hk'|].
    exists d. by rewrite Hsame.
Qed.

(** The threads of a batch, from a memory with nothing at or beyond the
    next fresh address: when all have returned the heap is what it was,
    plus what the slots own. *)
Lemma run_batch_owned mdl texts do_parse num_threads schedule m st m1 :
  mem_fresh m →
  run_workers mdl texts do_parse schedule
    (mkBatch 0 true (replicate (length texts) zero_doc)
             (replicate num_threads at_loop_test)) m
  = Some (st, m1) →
  batch_owned (mem_next m) texts m1 st ∧ frame m m1.
Proof.
  intros Hfresh Hrun. split.
  - eapply run_workers_owned; [|exact Hrun]. by apply batch_owned_init.
  - by destruct (run_workers_inv _ _ _ _ _ _ _ _
                   (batch_inv_init mdl do_parse texts num_threads m) Hrun) as (_ & ? & _).
Qed.

(** Release of every slot at the end of a batch gives back the heap of
    before the batch, the arrays set apart excepted. *)
Lemma free_results_restores m0 keep m rs :
  mem_fresh m0 → frame m0 m →
  batch_heap (mem_next m0) keep m rs →
  ∃ rs' m', free_results rs m = Some (rs', m')
    ∧ mem_arenas m' = mem_arenas m0
    ∧ (∀ a, a ∉ keep → mem_blocks m' !! a = mem_blocks m0 !! a)
    ∧ (∀ a, a ∈ keep → mem_blocks m' !! a = mem_blocks m !! a).
Proof.
  intros Hfresh0 [_ Hframe] Hheap.
  destruct (free_results_all _ _ _ _ Hheap)
    as (rs' & m' & Hrun & _ & Hlow & HhiA & HhiB & Hkeep).
  exists rs', m'. split; [done|]. split; [|split; [|done]].
  - apply map_eq. intros a. destruct (decide (a < mem_next m0)) as [Hlt|Hge].
    + destruct (Hlow a Hlt) as [-> _]. by destruct (Hframe a Hlt) as [_ ->].
    + rewrite HhiA by lia. symmetry. apply Hfresh0. lia.
  - intros a Hk. destruct (decide (a < mem_next m0)) as [Hlt|Hge].
    + destruct (Hlow a Hlt) as [_ ->]. by destruct (Hframe a Hlt) as [-> _].
    + rewrite HhiB by (done || lia). symmetry. apply Hfresh0. lia.
Qed.

(** X23.  A failed batch leaves no trace: from a memory with nothing
    live at or beyond the next fresh address, when [udpipe_tag_batch]
    returns 0 on non-null arguments, for every number of threads and
    every schedule, every arena and every array the threads had created
    has been released, nothing that was there before has changed, and
    [*out_docs] is null and [*out_size] 0. *)
Theorem tag_batch_failure_restores_heap
    (mdl : model) (texts : list string) (do_parse : Z)
    (docs0 : option nat) (size0 : nat) (hardware_concurrency : nat)
    (schedule : list nat) (m : mem)
    (out_docs : option (option nat)) (out_size : option nat) (m' : mem) :
  mem_fresh m →
  udpipe_tag_batch (Some mdl) (Some texts) do_parse (Some docs0) (Some size0)
    hardware_concurrency schedule m
  = Some ((0%Z, out_docs, out_size), m') →
  mem_arenas m' = mem_arenas m ∧ mem_blocks m' = mem_blocks m
  ∧ out_docs = Some None ∧ out_size = Some 0.
Proof.
  intros Hfresh Hcall. unfold udpipe_tag_batch in Hcall.
  apply bind_Some in Hcall as (st & m1 & Hrun & Hcall).
  destruct (run_batch_owned _ _ _ _ _ _ _ _ Hfresh Hrun) as [Hown Hframe].
  assert (Hfree : ∀ m2 rs' m3,
    mem_arenas m2 = mem_arenas m1 → mem_blocks m2 = mem_blocks m1 →
    mem_next m2 = mem_next m1 →
    free_results (results st) m2 = Some (rs', m3) →
    mem_arenas m3 = mem_arenas m ∧ mem_blocks m3 = mem_blocks m).
  { intros m2 rs' m3 HA HB HN Hfree.
    destruct (free_results_restores m [] m2 (results st) Hfresh)
      as (rs'' & m3' & Hfree' & HA3 & HB3 & _).
    - destruct Hframe as [Hn Hf]. split; [lia|]. intros a Ha.
      rewrite HA, HB. by apply Hf.
    - eapply batch_heap_keep; [exact (bo_heap _ _ _ _ Hown)|done| |].
      + intros a _. by rewrite HB.
      + intros a Ha. by apply elem_of_nil in Ha.
    - rewrite Hfree in Hfree'. injection Hfree' as <- <-. split; [done|].
      apply map_eq. intros a. apply HB3, not_elem_of_nil. }
  destruct (success_flag st); simpl in Hcall.
  - apply bind_Some in Hcall as ([a|] & m2 & Hmal & Hcall).
    + apply bind_Some in Hcall as (? & ? & _ & Hcall).
      by apply ret_Some in Hcall as [[=] _].
    + apply bind_Some in Hcall as (rs' & m3 & Hfr & Hcall).
      apply ret_Some in Hcall as [[= <- <-] <-].
      apply malloc_spec in Hmal as (HA & HN & HB).
      destruct (Hfree m2 rs' m3 HA HB HN Hfr). done.
  - apply bind_Some in Hcall as (rs' & m3 & Hfr & Hcall).
    apply ret_Some in Hcall as [[= <- <-] <-].
    destruct (Hfree m1 rs' m3 eq_refl eq_refl eq_refl Hfr). done.
Qed.

(** X23 on a model without a tagger: three texts, two threads. *)
Lemma tag_batch_failure_restores_heap_witness :
  mem_fresh (empty_mem [])
  ∧ ∃ out_docs out_size m',
      udpipe_tag_batch (Some no_tagger_model)
        (Some ["Dogs run."; "Dogs run. Cats sleep."; ""]%string) 0
        (Some None) (Some 0) 2 [0; 1; 0; 1; 1; 0] (empty_mem [])
      = Some ((0%Z, out_docs, out_size), m')
      ∧ mem_arenas m' = ∅ ∧ mem_blocks m' = ∅
      ∧ out_docs = Some None ∧ out_size = Some 0.
Proof.
  assert (Hfresh : mem_fresh (empty_mem [])).
  { intros a _. simpl. by rewrite !lookup_empty. }
  split; [exact Hfresh|].
  assert (Hrun : ∃ out_docs out_size m',
    udpipe_tag_batch (Some no_tagger_model)
      (Some ["Dogs run."; "Dogs run. Cats sleep."; ""]%string) 0
      (Some None) (Some 0) 2 [0; 1; 0; 1; 1; 0] (empty_mem [])
    = Some ((0%Z, out_docs, out_size), m')).
  { eexists _, _, _. vm_compute. reflexivity. }
  destruct Hrun as (out_docs & out_size & m' & Hrun).
  exists out_docs, out_size, m'. split; [exact Hrun|].
  exact (tag_batch_failure_restores_heap _ _ _ _ _ _ _ _ _ _ _ Hfresh Hrun).
Defined.

(** X24.  Round trip of a batch: from a memory with nothing live at or
    beyond the next fresh address, when [udpipe_tag_batch] returns 1,
    [udpipe_free_batch] on the array and the size it gave is defined
    and leaves exactly the arenas and arrays that were there before the
    batch. *)
Theorem tag_batch_then_free_batch_restores_heap
    (mdl : model) (texts : list string) (do_parse : Z)
    (docs0 : option nat) (size0 : nat) (hardware_concurrency : nat)
    (schedule : list nat) (m : mem)
    (out_docs : option (option nat)) (out_size : option nat) (m' : mem) :
  mem_fresh m →
  udpipe_tag_batch (Some mdl) (Some texts) do_parse (Some docs0) (Some size0)
    hardware_concurrency schedule m
  = Some ((1%Z, out_docs, out_size), m') →
  ∃ a m'',
    out_docs = Some (Some a) ∧ out_size = Some (length texts)
    ∧ udpipe_free_batch (Some a) (length texts) m' = Some (tt, m'')
    ∧ mem_arenas m'' = mem_arenas m ∧ mem_blocks m'' = mem_blocks m.
Proof.
  intros Hfresh Hcall. unfold udpipe_tag_batch in Hcall.
  apply bind_Some in Hcall as (st & m1 & Hrun & Hcall).
  destruct (run_batch_owned _ _ _ _ _ _ _ _ Hfresh Hrun) as [Hown Hframe].
  destruct (success_flag st); simpl in Hcall.
  2:{ apply bind_Some in Hcall as (? & ? & _ & Hcall).
      by apply ret_Some in Hcall as [[=] _]. }
  apply bind_Some in Hcall as ([a|] & m3 & Hmal & Hcall).
  2:{ apply bind_Some in Hcall as (? & ? & _ & Hcall).
      by apply ret_Some in Hcall as [[=] _]. }
  apply bind_Some in Hcall as ([] & m4 & Hcpy & Hcall).
  apply ret_Some in Hcall as [[= <- <-] <-].
  apply malloc_spec in Hmal as (A3 & -> & N3 & B3).
  apply memcpy_cells_spec in Hcpy as (A4 & N4 & B4).
  pose proof (bo_results _ _ _ _ Hown) as Hlen.
  pose proof (bo_fresh _ _ _ _ Hown) as Hfresh1.
  assert (Hoff : ∀ a, a ≠ mem_next m1 → mem_blocks m4 !! a = mem_blocks m1 !! a).
  { intros a Ha. by rewrite B4, B3, !lookup_insert_ne. }
  assert (Harr : mem_blocks m4 !! mem_next m1 = Some (doc_array (results st))).
  { by rewrite B4, lookup_insert_eq. }
  destruct (free_results_restores m [mem_next m1] m4 (results st) Hfresh)
    as (rs' & m5 & Hfree & HA5 & HB5 & HK5).
  { destruct Hframe as [Hn Hf]. split; [lia|]. intros a Ha.
    rewrite A4, A3, Hoff by lia. by apply Hf. }
  { eapply batch_heap_keep; [exact (bo_heap _ _ _ _ Hown)|congruence| |].
    - intros a Ha. apply Hoff. intros ->. apply Ha, list_elem_of_here.
    - intros a ->%list_elem_of_singleton. by apply Hfresh1. }
  assert (Harr5 : mem_blocks m5 !! mem_next m1 = Some (doc_array (results st))).
  { rewrite HK5; [done|]. apply list_elem_of_here. }
  eexists (mem_next m1), _. split; [done|]. split; [by rewrite Hlen|]. split.
  { unfold udpipe_free_batch. unfold mbind at 1, M_bind at 1. rewrite Harr.
    rewrite <- Hlen. rewrite decide_True by done. rewrite take_ge by done.
    unfold mbind at 1, M_bind at 1. rewrite Hfree.
    by rewrite (free_Some _ _ _ Harr5). }
  simpl. split; [done|]. apply map_eq. intros a.
  destruct (decide (a = mem_next m1)) as [->|Hne].
  - rewrite lookup_delete_eq. symmetry. apply Hfresh. by destruct Hframe.
  - rewrite lookup_delete_ne by done. apply HB5. by intros ?%list_elem_of_singleton.
Qed.

(** X24 on three texts and two threads. *)
Lemma tag_batch_then_free_batch_restores_heap_witness :
  mem_fresh (empty_mem [])
  ∧ ∃ out_docs out_size m' a m'',
      udpipe_tag_batch (Some sample_model)
        (Some ["Dogs run."; "Dogs run. Cats sleep."; ""]%string) 1
        (Some None) (Some 0) 2 [0; 1; 1; 0; 0; 1] (empty_mem [])
      = Some ((1%Z, out_docs, out_size), m')
      ∧ out_docs = Some (Some a) ∧ out_size = Some 3
      ∧ udpipe_free_batch (Some a) 3 m' = Some (tt, m'')
      ∧ mem_arenas m'' = ∅ ∧ mem_blocks m'' = ∅.
Proof.
  assert (Hfresh : mem_fresh (empty_mem [])).
  { intros a _. simpl. by rewrite !lookup_empty. }
  split; [exact Hfresh|].
  assert (Hrun : ∃ out_docs out_size m',
    udpipe_tag_batch (Some sample_model)
      (Some ["Dogs run."; "Dogs run. Cats sleep."; ""]%string) 1
      (Some None) (Some 0) 2 [0; 1; 1; 0; 0; 1] (empty_mem [])
    = Some ((1%Z, out_docs, out_size), m')).
  { eexists _, _, _. vm_compute. reflexivity. }
  destruct Hrun as (out_docs & out_size & m' & Hrun).
  destruct (tag_batch_then_free_batch_restores_heap _ _ _ _ _ _ _ _ _ _ _ Hfresh Hrun)
    as (a & m'' & H).
  exists out_docs, out_size, m', a, m''. split; [exact Hrun|]. exact H.
Defined.

(** ** A batch that returns 1 has read every text to the end *)

(** The body of a worker completes only on a text the engine reads to
    the end: it keeps [current_success], so an engine call that fails
    is seen even when it leaves no message. *)
Lemma process_text_ok_accepts mdl do_parse text m doc m' :
  process_text mdl do_parse text m = Some ((doc, true), m') →
  engine_accepts (tagging do_parse) mdl EmptyString text.
Proof.
  unfold process_text. intros Hrun.
  apply bind_Some in Hrun as (pa & m1 & _ & Hrun).
  destruct (new_tokenizer mdl EmptyString) as [reader|] eqn:Htok.
  2:{ by apply ret_Some in Hrun as [[=] _]. }
  apply bind_Some in Hrun as ([[svs error] ok1] & m2 & Hloop & Hrun).
  exists reader. split; [done|].
  destruct (negb (if decide (error = EmptyString) then ok1 else false)) eqn:Hok.
  { apply bind_Some in Hrun as (? & m3 & _ & Hrun).
    by apply ret_Some in Hrun as [[=] _]. }
  case_decide as He; [|done]. apply negb_false_iff in Hok. subst error ok1.
  apply sentence_loop_trace in Hloop
    as (seen & rest & new & Hnext & Hseen & _ & _ & [(_ & -> & Hfinal)|[? _]]); [|done].
  rewrite app_nil_r in Hnext. by subst seen.
Qed.

Lemma worker_step_accepts mdl texts do_parse tid st m st' m' :
  claimed_accepted mdl do_parse texts st →
  worker_step mdl texts do_parse tid st m = Some (st', m') →
  claimed_accepted mdl do_parse texts st'.
Proof.
  intros Hacc Hstep. unfold worker_step in Hstep.
  destruct (workers st !! tid) as [[| |i0|]|] eqn:Hw.
  - apply ret_Some in Hstep as [<- <-]. intros Hf i text Hi Ht. simpl in *.
    destruct (Hacc Hf i text Hi Ht) as [[t Hwt]|?]; [|by right].
    left. exists t. rewrite list_lookup_insert_ne; [done|]. congruence.
  - apply ret_Some in Hstep as [<- <-]. intros Hf i text Hi Ht. simpl in *.
    apply lookup_lt_Some in Hw as Hlt. apply lookup_lt_Some in Ht as Hit.
    destruct (decide (i = next_index st)) as [->|Hne].
    + left. exists tid. rewrite list_lookup_insert_eq by done.
      destruct (Nat.leb_spec (length texts) (next_index st)); [lia|done].
    + destruct (Hacc Hf i text ltac:(lia) Ht) as [[t Hwt]|?]; [|by right].
      left. exists t. rewrite list_lookup_insert_ne; [done|]. congruence.
  - destruct (texts !! i0) as [text0|] eqn:Htext; [|done].
    apply bind_Some in Hstep as ([doc ok] & m1 & Hproc & Hstep).
    apply ret_Some in Hstep as [<- <-]. intros Hf i text Hi Ht. simpl in *.
    destruct ok; [|done].
    destruct (decide (i = i0)) as [->|Hne].
    { right. assert (text = text0) as -> by congruence.
      by eapply process_text_ok_accepts. }
    destruct (Hacc Hf i text Hi Ht) as [[t Hwt]|?]; [|by right].
    left. exists t. rewrite list_lookup_insert_ne; [done|]. congruence.
  - by apply ret_Some in Hstep as [<- <-].
  - by apply ret_Some in Hstep as [<- <-].
Qed.

Lemma run_workers_accepts mdl texts do_parse schedule st m st' m' :
  claimed_accepted mdl do_parse texts st →
  run_workers mdl texts do_parse schedule st m = Some (st', m') →
  claimed_accepted mdl do_parse texts st'.
Proof.
  revert st m. induction schedule as [|tid schedule IH]; intros st m Hacc Hrun.
  - by apply ret_Some in Hrun as [<- <-].
  - simpl in Hrun. apply bind_Some in Hrun as (st1 & m1 & Hstep & Hrun).
    eauto using worker_step_accepts.
Qed.

(** When the threads have returned with [success_flag] true, the engine
    has accepted every text. *)
Lemma run_batch_accepts mdl texts do_parse n schedule m st m1 :
  (texts ≠ [] → 0 < n) →
  run_workers mdl texts do_parse (schedule ++ join_schedule n (length texts))
    (mkBatch 0 true (replicate (length texts) zero_doc) (replicate n at_loop_test)) m
  = Some (st, m1) →
  success_flag st = true →
  Forall (engine_accepts (tagging do_parse) mdl EmptyString) texts.
Proof.
  intros Hn Hrun Hflag.
  destruct (run_workers_inv _ _ _ _ _ _ _ _ (batch_inv_init mdl do_parse texts n m) Hrun)
    as ([_ _ Hret] & _ & Hlen & _).
  simpl in Hlen. rewrite length_replicate in Hlen.
  assert (Hacc : claimed_accepted mdl do_parse texts st).
  { eapply run_workers_accepts; [|exact Hrun]. intros _ i text Hi. simpl in Hi. lia. }
  rewrite run_workers_app in Hrun.
  apply bind_Some in Hrun as (st1 & m2 & _ & Hjoin).
  pose proof (run_workers_join _ _ _ _ _ _ _ _ Hjoin) as Hdone.
  assert (Hall : ∀ t, t < n → workers st !! t = Some returned).
  { intros t Ht. apply (steps_left_returned texts st t); [lia|]. by apply Hdone. }
  apply Forall_forall. intros text Hin.
  apply list_elem_of_lookup in Hin as [i Hi]. apply lookup_lt_Some in Hi as Hlt.
  assert (Hn0 : 0 < n) by (apply Hn; by destruct texts).
  destruct (Hret 0 (Hall 0 Hn0)) as [?|Hnext]; [congruence|].
  destruct (Hacc Hflag i text ltac:(lia) Hi) as [[t Hwt]|?]; [|done].
  apply lookup_lt_Some in Hwt as Ht. rewrite Hall in Hwt by lia. done.
Qed.

Lemma num_threads_positive (texts : list string) hardware_concurrency :
  texts ≠ [] →
  0 < (if length texts <? (if hardware_concurrency =? 0 then 1 else hardware_concurrency)
       then length texts
       else if hardware_concurrency =? 0 then 1 else hardware_concurrency).
Proof.
  intros Hne. assert (0 < length texts) by (destruct texts; [done|simpl; lia]).
  destruct (Nat.eqb_spec hardware_concurrency 0);
    try destruct (Nat.ltb_spec (length texts) 1);
    try destruct (Nat.ltb_spec (length texts) hardware_concurrency); lia.
Qed.

(** X25.  [udpipe_tag_batch] does not swallow an error: it returns 1
    only if, for every text of the batch, the model has a tokenizer, no
    answer of [next_sentence] came with a message, the tagger (and with
    [do_parse] not 0 the parser) returned true on every sentence, and
    the reader ended without a message; whatever the number of threads
    and their schedule, and also for an engine that fails without
    leaving a message. *)
Theorem tag_batch_success_means_no_error
    (mdl : model) (texts : list string) (do_parse : Z)
    (docs0 : option nat) (size0 : nat) (hardware_concurrency : nat)
    (schedule : list nat) (m : mem)
    (out_docs : option (option nat)) (out_size : option nat) (m' : mem) :
  udpipe_tag_batch (Some mdl) (Some texts) do_parse (Some docs0) (Some size0)
    hardware_concurrency schedule m
  = Some ((1%Z, out_docs, out_size), m') →
  Forall (engine_accepts (tagging do_parse) mdl EmptyString) texts.
Proof.
  unfold udpipe_tag_batch. intros Hcall.
  apply bind_Some in Hcall as (st & m1 & Hrun & Hcall).
  destruct (success_flag st) eqn:Hflag; simpl in Hcall.
  - eapply run_batch_accepts; [|exact Hrun|exact Hflag].
    apply num_threads_positive.
  - apply bind_Some in Hcall as (? & ? & _ & Hcall).
    by apply ret_Some in Hcall as [[=] _].
Qed.

(** X25 on a run. *)
Lemma tag_batch_success_means_no_error_witness :
  ∃ out_docs out_size m',
    udpipe_tag_batch (Some sample_model)
      (Some ["Dogs run."; "Dogs run. Cats sleep."]%string) 0
      (Some None) (Some 0) 4 [1; 0; 0; 1] (empty_mem [])
    = Some ((1%Z, out_docs, out_size), m')
    ∧ Forall (engine_accepts (tagging 0) sample_model EmptyString)
        ["Dogs run."; "Dogs run. Cats sleep."]%string.
Proof.
  assert (Hrun : ∃ out_docs out_size m',
    udpipe_tag_batch (Some sample_model)
      (Some ["Dogs run."; "Dogs run. Cats sleep."]%string) 0
      (Some None) (Some 0) 4 [1; 0; 0; 1] (empty_mem [])
    = Some ((1%Z, out_docs, out_size), m')).
  { eexists _, _, _. vm_compute. reflexivity. }
  destruct Hrun as (out_docs & out_size & m' & Hrun).
  exists out_docs, out_size, m'. split; [exact Hrun|].
  exact (tag_batch_success_means_no_error _ _ _ _ _ _ _ _ _ _ _ Hrun).
Defined.

(** ** The batch away from the free of vector storage *)

(** The body of a worker on a text that fails before a sentence view is
    pushed: it stores false and calls no [malloc]. *)
Lemma process_text_fails_cleanly mdl do_parse text m :
  fails_before_a_sentence (tagging do_parse) mdl EmptyString text →
  ∃ doc m',
    process_text mdl do_parse text m = Some ((doc, false), m')
    ∧ mem_oracle m' = mem_oracle m.
Proof.
  intros Hfail.
  destruct (new_arena m) as [[pa m1]|] eqn:Hnew; [|done].
  assert (Ho1 : mem_oracle m1 = mem_oracle m) by (by injection Hnew as _ <-).
  unfold process_text. unfold mbind at 1, M_bind at 1. rewrite Hnew.
  destruct Hfail as [Htok|(reader & Htok & Hfail)]; rewrite Htok.
  { by eexists _, m1. }
  assert (Hloop : ∃ error ok,
    sentence_loop (tagging do_parse) mdl pa (yields (reader text))
      (final_error (reader text)) [] m1 = Some (([], error, ok), m1)
    ∧ (if decide (error = EmptyString) then ok else false) = false).
  { remember (tagging do_parse) as pl eqn:Hpl. clear Hpl.
    destruct Hfail as [[-> Hfinal]|(y & rest & -> & Hrej)].
    - exists (final_error (reader text)), true. split; [done|]. by rewrite decide_False.
    - destruct y as [s e]. simpl. case_decide as He.
      + destruct (run_engine pl mdl s) as [[ok1 s1] e1] eqn:Heng.
        destruct ok1.
        { exfalso. apply Hrej. split; simpl; [done|]. by rewrite Heng. }
        exists e1, false. split; [done|]. by case_decide.
      + exists e, false. split; [done|]. by case_decide. }
  destruct Hloop as (error & ok & Hloop & Hcs).
  unfold mbind at 1, M_bind at 1. rewrite Hloop, Hcs.
  change (negb false) with true. cbv iota.
  exists (mkDoc sentences_null 0 (Some pa)), m1. split; [|done].
  unfold mbind, M_bind.
  change (mkDoc (vector_data []) (length ([] : list udpipe_sentence_view)) None)
    with zero_doc.
  by rewrite free_doc_zero.
Qed.

Lemma run_workers_defined mdl texts do_parse schedule st m :
  never_fails (mem_oracle m) →
  Forall (λ text, engine_accepts (tagging do_parse) mdl EmptyString text
                  ∨ fails_before_a_sentence (tagging do_parse) mdl EmptyString text)
         texts →
  (∀ tid i, workers st !! tid = Some (at_body i) → i < length texts) →
  ∃ st' m',
    run_workers mdl texts do_parse schedule st m = Some (st', m')
    ∧ never_fails (mem_oracle m').
Proof.
  intros Hnf Hgood. revert st m Hnf.
  induction schedule as [|tid schedule IH]; intros st m Hnf Hbody.
  - by exists st, m.
  - assert (Hstep : ∃ st1 m1,
      worker_step mdl texts do_parse tid st m = Some (st1, m1)
      ∧ never_fails (mem_oracle m1)
      ∧ ∀ t i, workers st1 !! t = Some (at_body i) → i < length texts).
    { unfold worker_step.
      assert (Hins : ∀ w, (∀ i, w = at_body i → i < length texts) →
        ∀ t i, <[tid := w]> (workers st) !! t = Some (at_body i) → i < length texts).
      { intros w Hw t i Ht. destruct (decide (t = tid)) as [->|Hne].
        - apply list_lookup_insert_Some in Ht as [(_ & Heq & _)|[? _]]; [|done].
          by apply Hw.
        - rewrite list_lookup_insert_ne in Ht by done. eauto. }
      destruct (workers st !! tid) as [[| |i|]|] eqn:Hw.
      - eexists _, m. split; [done|]. split; [done|]. simpl.
        apply Hins. intros i. by destruct (success_flag st).
      - eexists _, m. split; [done|]. split; [done|]. simpl.
        apply Hins. intros i. destruct (length texts <=? next_index st) eqn:Hle; [done|].
        intros [= <-]. by apply Nat.leb_gt in Hle.
      - destruct (lookup_lt_is_Some_2 texts i (Hbody _ _ Hw)) as [text Htext].
        rewrite Htext.
        rewrite Forall_forall in Hgood.
        assert (Hp : ∃ doc ok m1, process_text mdl do_parse text m = Some ((doc, ok), m1)
                       ∧ never_fails (mem_oracle m1)).
        { destruct (Hgood text) as [Hacc|Hfail]; [by eapply list_elem_of_lookup_2| |].
          - destruct (process_text_succeeds mdl do_parse text m Hnf Hacc)
              as (doc & m1 & Hp & Hnf1). by exists doc, true, m1.
          - destruct (process_text_fails_cleanly mdl do_parse text m Hfail)
              as (doc & m1 & Hp & Ho). exists doc, false, m1. by rewrite Ho. }
        destruct Hp as (doc & ok & m1 & Hp & Hnf1).
        eexists _, m1. split.
        { unfold mbind, M_bind. rewrite Hp. reflexivity. }
        split; [done|]. simpl. by apply Hins.
      - by exists st, m.
      - by exists st, m. }
    destruct Hstep as (st1 & m1 & Hstep & Hnf1 & Hbody1).
    destruct (IH st1 m1 Hnf1 Hbody1) as (st' & m' & Hrun & Hnf').
    exists st', m'. split; [|done].
    simpl. unfold mbind, M_bind. by rewrite Hstep.
Qed.

(** X26.  Away from the free of vector storage the batch decides: when
    every text is one the engine reads to the end or one that fails
    before a sentence view is pushed, and no [malloc] fails, then from
    a memory with nothing live at or beyond the next fresh address
    [udpipe_tag_batch] returns, for every number of threads and every
    schedule, and it returns 1 exactly when the engine reads every text
    to the end, and 0 otherwise. *)
Theorem tag_batch_decides
    (mdl : model) (texts : list string) (do_parse : Z)
    (docs0 : option nat) (size0 : nat) (hardware_concurrency : nat)
    (schedule : list nat) (m : mem) :
  mem_fresh m → never_fails (mem_oracle m) →
  Forall (λ text, engine_accepts (tagging do_parse) mdl EmptyString text
                  ∨ fails_before_a_sentence (tagging do_parse) mdl EmptyString text)
         texts →
  ∃ r out_docs out_size m',
    udpipe_tag_batch (Some mdl) (Some texts) do_parse (Some docs0) (Some size0)
      hardware_concurrency schedule m
    = Some ((r, out_docs, out_size), m')
    ∧ (r = 1%Z ∨ r = 0%Z)
    ∧ (r = 1%Z ↔ Forall (engine_accepts (tagging do_parse) mdl EmptyString) texts).
Proof.
  intros Hfresh Hnf Hgood. unfold udpipe_tag_batch.
  set (n := if length texts <? _ then _ else _).
  set (st0 := mkBatch 0 true (replicate (length texts) zero_doc)
                      (replicate n at_loop_test)).
  destruct (run_workers_defined mdl texts do_parse
              (schedule ++ join_schedule n (length texts)) st0 m Hnf Hgood)
    as (st & m1 & Hrun & Hnf1).
  { intros tid i Hw. simpl in Hw. by apply lookup_replicate_1 in Hw as [? _]. }
  destruct (run_batch_owned _ _ _ _ _ _ _ _ Hfresh Hrun) as [Hown _].
  unfold mbind at 1, M_bind at 1. rewrite Hrun.
  destruct (success_flag st) eqn:Hflag.
  - change (negb true) with false. cbv iota.
    destruct (malloc_total (length (results st)) m1) as (p & m3 & Hmal & _ & Hp).
    rewrite Hp in Hmal by done.
    destruct (memcpy_after_malloc (doc_array (results st)) m1 _ m3 Hmal)
      as (m4 & Hcpy & _).
    unfold mbind at 1, M_bind at 1. rewrite Hmal.
    unfold mbind at 1, M_bind at 1. rewrite Hcpy.
    eexists 1%Z, _, _, _. split; [reflexivity|]. split; [by left|].
    split; [|done]. intros _.
    eapply run_batch_accepts; [|exact Hrun|exact Hflag].
    apply num_threads_positive.
  - change (negb false) with true. cbv iota.
    destruct (free_results_all _ _ _ _ (bo_heap _ _ _ _ Hown))
      as (rs' & m' & Hfree & _).
    unfold mbind at 1, M_bind at 1. rewrite Hfree.
    eexists 0%Z, _, _, _. split; [reflexivity|]. split; [by right|].
    split; [done|]. intros Hall.
    destruct (run_workers_succeeds mdl texts do_parse
                (schedule ++ join_schedule n (length texts)) st0 m Hnf Hall eq_refl)
      as (st' & m1' & Hrun' & Hflag' & _).
    { intros tid i Hw. simpl in Hw. by apply lookup_replicate_1 in Hw as [? _]. }
    rewrite Hrun in Hrun'. injection Hrun' as <- <-. congruence.
Qed.

(** X26 on a model without a tagger: the first text fails at its first
    sentence, the second has no sentence. *)
Lemma tag_batch_decides_witness :
  ∃ r out_docs out_size m',
    udpipe_tag_batch (Some no_tagger_model) (Some ["Dogs run."; ""]%string) 0
      (Some None) (Some 0) 2 [1; 0; 1] (empty_mem [])
    = Some ((r, out_docs, out_size), m')
    ∧ (r = 1%Z ∨ r = 0%Z)
    ∧ (r = 1%Z ↔ Forall (engine_accepts (tagging 0) no_tagger_model EmptyString)
                   ["Dogs run."; ""]%string).
Proof.
  apply (tag_batch_decides no_tagger_model ["Dogs run."; ""]%string 0 None 0 2
           [1; 0; 1] (empty_mem [])).
  - intros a _. simpl. by rewrite !lookup_empty.
  - constructor.
  - constructor; [|constructor; [|constructor]].
    + right. right. exists sample_tokenizer. split; [reflexivity|]. right.
      eexists _, _. split; [reflexivity|]. intros [_ H]. discriminate H.
    + left. exists sample_tokenizer. split; [reflexivity|]. split; [constructor|reflexivity].
Defined.

(** ** Documents do not share memory *)

Lemma doc_in_same pl m m' lo hi d ss :
  (∀ a, lo ≤ a < hi →
     mem_blocks m' !! a = mem_blocks m !! a ∧ mem_arenas m' !! a = mem_arenas m !! a) →
  doc_in pl m lo hi d ss → doc_in pl m' lo hi d ss.
Proof.
  intros Hsame
    (pa & ar & sa & svs & Hpa & Hpab & Har & Hwf & Hsa & Hsab & Hb & Hc & Hall & Hnd).
  exists pa, ar, sa, svs. split; [done|]. split; [done|].
  split; [by rewrite (proj2 (Hsame pa Hpab))|]. split; [done|].
  split; [done|]. split; [done|].
  split; [by rewrite (proj1 (Hsame sa Hsab))|]. split; [done|].
  split; [|done].
  eapply Forall2_impl; [done|].
  intros sv s (a & toks & Hsv & Hab & Hba & Hrest).
  exists a, toks. split; [done|]. split; [done|].
  split; [by rewrite (proj1 (Hsame a Hab))|]. done.
Qed.

(** Releasing a populated document touches its own addresses only. *)
Lemma free_doc_range pl m lo hi d ss :
  doc_in pl m lo hi d ss →
  ∃ m', udpipe_free_doc (Some d) m = Some (Some zero_doc, m')
    ∧ ∀ a, ¬ (lo ≤ a < hi) →
        mem_blocks m' !! a = mem_blocks m !! a
        ∧ mem_arenas m' !! a = mem_arenas m !! a.
Proof.
  intros (pa & ar & sa & svs & Hpa & Hpab & Har & _ & Hsa & Hsab & Hb & Hc & Hall & Hnd).
  destruct (free_doc_exact m d pa ar sa svs) as (m' & Hfree & Afree & _ & _ & Bfree);
    try done.
  { eapply Forall2_Forall_l; [exact Hall|]. apply Forall_true.
    intros sv s (a & toks & Ha & _ & Hba & _). exists a. by rewrite Hba. }
  exists m'. split; [done|]. intros a Ha. split.
  - rewrite Bfree, decide_False; [done|]. unfold doc_arrays. intros Hin.
    apply elem_of_cons in Hin as [->|Hin]; [done|].
    by apply (sentence_in_addresses _ _ _ _ _ _ _ _ Hall) in Hin.
  - rewrite Afree, lookup_delete_ne; [done|]. by intros <-.
Qed.

(** X27.  Documents are independent: two populated documents that
    were built one after the other share no arena and no array, so
    releasing either with [udpipe_free_doc] is defined and leaves the
    other populated, with every string and every field as it was. *)
Theorem documents_are_independent
    (pl1 pl2 : pipeline) (m : mem) (lo1 hi1 lo2 hi2 : nat)
    (d1 d2 : udpipe_doc_view) (ss1 ss2 : list sentence) :
  doc_in pl1 m lo1 hi1 d1 ss1 → doc_in pl2 m lo2 hi2 d2 ss2 → hi1 ≤ lo2 →
  (∃ m', udpipe_free_doc (Some d1) m = Some (Some zero_doc, m')
     ∧ doc_in pl2 m' lo2 hi2 d2 ss2)
  ∧ (∃ m', udpipe_free_doc (Some d2) m = Some (Some zero_doc, m')
       ∧ doc_in pl1 m' lo1 hi1 d1 ss1).
Proof.
  intros H1 H2 Hle. split.
  - destruct (free_doc_range _ _ _ _ _ _ H1) as (m' & Hfree & Hoff).
    exists m'. split; [done|]. eapply doc_in_same; [|exact H2].
    intros a Ha. apply Hoff. lia.
  - destruct (free_doc_range _ _ _ _ _ _ H2) as (m' & Hfree & Hoff).
    exists m'. split; [done|]. eapply doc_in_same; [|exact H1].
    intros a Ha. apply Hoff. lia.
Qed.

(** X27 on the documents of two calls. *)
Lemma documents_are_independent_witness :
  ∃ m d1 d2 ss1 ss2 hi1 hi2,
    doc_in (tagging 1) m 0 hi1 d1 ss1 ∧ doc_in tokenizing m hi1 hi2 d2 ss2
    ∧ (∃ m', udpipe_free_doc (Some d1) m = Some (Some zero_doc, m')
         ∧ doc_in tokenizing m' hi1 hi2 d2 ss2)
    ∧ (∃ m', udpipe_free_doc (Some d2) m = Some (Some zero_doc, m')
         ∧ doc_in (tagging 1) m' 0 hi1 d1 ss1).
Proof.
  assert (Hrun : ∃ out1 m1 out2 m2,
    structured (tagging 1) sample_model EmptyString "Dogs run." (empty_mem [])
    = Some ((1%Z, out1), m1)
    ∧ structured tokenizing sample_model EmptyString "Dogs run. Cats sleep." m1
      = Some ((1%Z, out2), m2)).
  { eexists _, _, _, _. split; vm_compute; reflexivity. }
  destruct Hrun as (out1 & m1 & out2 & m2 & Hrun1 & Hrun2).
  destruct (structured_spec _ _ _ _ _ _ _ _ Hrun1)
    as (_ & _ & _ & _ & [[Hr _]|(_ & _ & d1 & seen1 & _ & _ & _ & _ & Hdoc1 & _)]).
  { discriminate Hr. }
  destruct (structured_spec _ _ _ _ _ _ _ _ Hrun2)
    as (_ & _ & _ & Hframe & [[Hr _]|(_ & _ & d2 & seen2 & _ & _ & _ & _ & Hdoc2 & _)]).
  { discriminate Hr. }
  apply (doc_in_frame _ _ _ _ _ _ _ Hframe (le_n _)) in Hdoc1.
  exists m2, d1, d2, (engine_sentence (tagging 1) sample_model <$> seen1),
    (engine_sentence tokenizing sample_model <$> seen2), (mem_next m1), (mem_next m2).
  split; [exact Hdoc1|]. split; [exact Hdoc2|].
  exact (documents_are_independent _ _ _ _ _ _ _ _ _ _ _ Hdoc1 Hdoc2 (le_n _)).
Defined.

(** ** Nothing is read after the first rejected sentence *)

Lemma sentence_loop_stops pl mdl mdl' pa seen y rest rest' final final' svs0 m :
  (∀ s, run_engine pl mdl' s = run_engine pl mdl s) →
  ¬ accepted pl mdl y →
  sentence_loop pl mdl pa (seen ++ y :: rest) final svs0 m
  = sentence_loop pl mdl' pa (seen ++ y :: rest') final' svs0 m.
Proof.
  intros Heng Hrej. revert svs0 m.
  induction seen as [|[s e] seen IH]; intros svs0 m.
  - destruct y as [s e]. simpl. case_decide as He; [|done]. rewrite Heng.
    destruct (run_engine pl mdl s) as [[ok s1] e1] eqn:Hs. destruct ok; [|done].
    exfalso. apply Hrej. split; simpl; [done|]. by rewrite Hs.
  - simpl. case_decide as He; [|done]. rewrite Heng.
    destruct (run_engine pl mdl s) as [[ok s1] e1]. destruct ok; [|done]. simpl.
    apply bind_ext; [done|]. intros toks m1.
    apply bind_ext; [done|]. intros [a|] m2; [|done].
    apply bind_ext; [done|]. intros [] m3. apply IH.
Qed.

(** X28.  The loop stops at the first answer of [next_sentence] that it
    does not accept: whatever the reader would have answered after it,
    sentences and final message alike, [udpipe_tag_structured] gives
    the same result and leaves the same memory, so no later sentence is
    read, tagged or parsed. *)
Theorem tag_structured_stops_at_first_rejection
    (mdl : model) (reader reader' : string → reader_run) (text : string)
    (do_parse : Z) (d0 : udpipe_doc_view) (m : mem)
    (seen : list (sentence * string)) (y : sentence * string)
    (rest rest' : list (sentence * string)) :
  new_tokenizer mdl EmptyString = Some reader →
  yields (reader text) = seen ++ y :: rest →
  yields (reader' text) = seen ++ y :: rest' →
  ¬ accepted (tagging do_parse) mdl y →
  udpipe_tag_structured (Some mdl) (Some text) do_parse (Some d0) m
  = udpipe_tag_structured
      (Some (mkModel (λ _, Some reader') (tag mdl) (parse mdl)))
      (Some text) do_parse (Some d0) m.
Proof.
  intros Htok Hy Hy' Hrej. rewrite !tag_structured_unfold. unfold structured.
  apply bind_ext; [done|]. intros pa m1. rewrite Htok. simpl new_tokenizer. cbv iota.
  apply bind_ext; [|done]. rewrite Hy, Hy'.
  by apply sentence_loop_stops.
Qed.

(** X28 on a model without a tagger: the first sentence is rejected,
    and a reader with other sentences after it changes nothing. *)
Lemma tag_structured_stops_at_first_rejection_witness :
  udpipe_tag_structured (Some no_tagger_model) (Some "Dogs run. Cats sleep."%string) 1
    (Some zero_doc) (empty_mem [])
  = udpipe_tag_structured
      (Some (mkModel
               (λ _, Some (λ _, mkReaderRun [(dogs_run, EmptyString);
                                             (dogs_run, "later"%string)]
                                            "end"%string))
               (tag no_tagger_model) (parse no_tagger_model)))
      (Some "Dogs run. Cats sleep."%string) 1 (Some zero_doc) (empty_mem []).
Proof.
  apply (tag_structured_stops_at_first_rejection no_tagger_model sample_tokenizer
           (λ _, mkReaderRun [(dogs_run, EmptyString); (dogs_run, "later"%string)]
                             "end"%string)
           "Dogs run. Cats sleep." 1 zero_doc (empty_mem [])
           [] (dogs_run, EmptyString) [(cats_sleep, EmptyString)]
           [(dogs_run, "later"%string)]).
  - reflexivity.
  - reflexivity.
  - reflexivity.
  - intros [_ H]. discriminate H.
Defined.

(** ** With no failing malloc, every string is the engine's *)

Lemma allocate_in_block s a o p a' o' :
  never_fails o → allocate s a o = Some (p, a', o') →
  p ≠ empty_str ∧ never_fails o'.
Proof.
  intros Hnf Hal. split; [|by eapply never_fails_suffix, Hnf; eapply allocate_oracle].
  apply allocate_inv in Hal
    as [(_ & _ & _ & _ & Hfail)|[(-> & _)|(b & _ & _ & -> & _)]]; [|done..].
  apply never_fails_malloc in Hnf as [o1 Hok]. congruence.
Qed.

Lemma arena_allocate_in_block pa s m p m' :
  never_fails (mem_oracle m) → arena_allocate pa s m = Some (p, m') →
  p ≠ empty_str ∧ never_fails (mem_oracle m').
Proof.
  unfold arena_allocate. intros Hnf H.
  destruct (mem_arenas m !! pa) as [ar|]; [|done]. simpl in H.
  destruct (allocate s ar (mem_oracle m)) as [[[p' a'] o']|] eqn:Hal; [|done].
  injection H as <- <-. simpl. by eapply allocate_in_block.
Qed.

Lemma materialize_word_in_arena pl pa w m t m' :
  never_fails (mem_oracle m) → materialize_word pl pa w m = Some (t, m') →
  token_in_arena t ∧ never_fails (mem_oracle m').
Proof.
  unfold materialize_word.
  destruct (match word_token_range w with Some (s, e) => (s, e) | None => (0, 0) end)
    as [start end_].
  intros Hnf H.
  destruct pl;
    apply bind_Some in H as (p1 & m1 & H1 & H);
    apply bind_Some in H as (p2 & m2 & H2 & H);
    apply bind_Some in H as (p3 & m3 & H3 & H);
    apply bind_Some in H as (p4 & m4 & H4 & H);
    apply bind_Some in H as (p5 & m5 & H5 & H);
    apply bind_Some in H as (p6 & m6 & H6 & H);
    apply ret_Some in H as [<- <-];
    apply (arena_allocate_in_block _ _ _ _ _ Hnf) in H1 as [? Hnf1];
    apply (arena_allocate_in_block _ _ _ _ _ Hnf1) in H2 as [? Hnf2];
    apply (arena_allocate_in_block _ _ _ _ _ Hnf2) in H3 as [? Hnf3];
    apply (arena_allocate_in_block _ _ _ _ _ Hnf3) in H4 as [? Hnf4];
    apply (arena_allocate_in_block _ _ _ _ _ Hnf4) in H5 as [? Hnf5];
    apply (arena_allocate_in_block _ _ _ _ _ Hnf5) in H6 as [? Hnf6];
    by repeat split.
Qed.

Lemma materialize_in_arena pl pa ws toks0 m toks m' :
  never_fails (mem_oracle m) → Forall token_in_arena toks0 →
  materialize pl pa ws toks0 m = Some (toks, m') →
  Forall token_in_arena toks ∧ never_fails (mem_oracle m').
Proof.
  revert toks0 m. induction ws as [|w ws IH]; intros toks0 m Hnf H0 H.
  - by apply ret_Some in H as [<- <-].
  - simpl in H. destruct (word_id w <=? 0)%Z; [by eapply IH|].
    apply bind_Some in H as (t & m1 & Hw & H).
    apply (materialize_word_in_arena _ _ _ _ _ _ Hnf) in Hw as [Ht Hnf1].
    eapply IH; [exact Hnf1| |exact H].
    apply Forall_app. split; [done|]. by constructor.
Qed.

Lemma malloc_oracle n m p m' :
  malloc n m = Some (p, m') → suffix (mem_oracle m') (mem_oracle m).
Proof.
  unfold malloc. destruct (malloc_succeeds (mem_oracle m)) as [ok o] eqn:Ho.
  apply malloc_succeeds_suffix in Ho. by destruct ok; intros [= _ <-].
Qed.

Lemma memcpy_cells_oracle dst src m u m' :
  memcpy_cells dst src m = Some (u, m') → mem_oracle m' = mem_oracle m.
Proof.
  unfold memcpy_cells. destruct (mem_blocks m !! dst) as [old|]; [|done].
  case_decide; [|done]. by intros [= _ <-].
Qed.

(** With no failing [malloc], every token array the loop pushes holds
    tokens whose strings are all in the arena. *)
Lemma sentence_loop_in_arena pl mdl pa next final svs0 m svs error ok m' :
  never_fails (mem_oracle m) →
  Forall (λ sv, ∃ a toks, sv_tokens sv = Some a ∧ a < mem_next m
                  ∧ mem_blocks m !! a = Some (token_array toks)
                  ∧ Forall token_in_arena toks) svs0 →
  sentence_loop pl mdl pa next final svs0 m = Some ((svs, error, ok), m') →
  Forall (λ sv, ∃ a toks, sv_tokens sv = Some a ∧ a < mem_next m'
                  ∧ mem_blocks m' !! a = Some (token_array toks)
                  ∧ Forall token_in_arena toks) svs.
Proof.
  revert svs0 m. induction next as [|[s e] next IH]; intros svs0 m Hnf H0 Hrun.
  - by apply ret_Some in Hrun as [[= <- <- <-] <-].
  - simpl in Hrun. case_decide as He.
    2:{ by apply ret_Some in Hrun as [[= <- <- <-] <-]. }
    destruct (run_engine pl mdl s) as [[ok1 s1] e1] eqn:Heng.
    destruct ok1; simpl in Hrun.
    2:{ by apply ret_Some in Hrun as [[= <- <- <-] <-]. }
    apply bind_Some in Hrun as (toks & m1 & Hmat & Hrun).
    pose proof (materialize_exact _ _ _ _ _ _ _ Hmat) as (B1 & N1 & _).
    apply (materialize_in_arena _ _ _ _ _ _ _ Hnf) in Hmat as [Htoks Hnf1];
      [|constructor].
    apply bind_Some in Hrun as ([a|] & m2 & Hmal & Hrun).
    + apply bind_Some in Hrun as ([] & m3 & Hcpy & Hrun).
      pose proof (malloc_oracle _ _ _ _ Hmal) as Hs2.
      pose proof (memcpy_cells_oracle _ _ _ _ _ Hcpy) as Ho3.
      apply malloc_spec in Hmal as (_ & -> & N2 & B2).
      apply memcpy_cells_spec in Hcpy as (_ & N3 & B3).
      eapply IH; [| |exact Hrun].
      { rewrite Ho3. by eapply never_fails_suffix. }
      apply Forall_app. split.
      * eapply Forall_impl; [exact H0|]. intros sv (a & toks' & Ha & Hlt & Hb & Hin).
        exists a, toks'. split; [done|]. split; [lia|]. split; [|done].
        rewrite B3, B2, !lookup_insert_ne, B1 by lia. done.
      * constructor; [|constructor]. exists (mem_next m1), toks. simpl.
        split; [done|]. split; [lia|]. split; [|done].
        by rewrite B3, lookup_insert_eq.
    + apply ret_Some in Hrun as [[= <- <- <-] <-].
      apply malloc_spec in Hmal as (_ & N2 & B2).
      eapply Forall_impl; [exact H0|]. intros sv (a & toks' & Ha & Hlt & Hb & Hin).
      exists a, toks'. split; [done|]. split; [lia|]. split; [|done].
      by rewrite B2, B1.
Qed.

Lemma read_cstr_points_into ar p s :
  p ≠ empty_str → read_cstr ar p = Some s → points_into ar p.
Proof.
  intros Hne Hread. destruct p as [| |b off]; [done..|]. simpl in Hread.
  destruct (blocks_ ar !! b) as [blk|] eqn:Hb; [|done]. simpl in Hread.
  exists b, off, blk. do 2 (split; [done|]).
  destruct (decide (off < length blk)) as [|Hge]; [done|].
  rewrite drop_ge in Hread by lia. done.
Qed.

Lemma token_of_reads pl ar t w :
  token_of pl ar t w → token_in_arena t →
  token_points_into ar t ∧ token_reads pl ar t w.
Proof.
  assert (Hfield : ∀ p s, field_at ar p s → p ≠ empty_str →
            read_cstr ar p = Some (until_nul s)).
  { intros p s [Hnull Hread] Hne. by destruct p. }
  intros (_ & _ & _ & F1 & F2 & F3 & F4 & F5 & F6) (E1 & E2 & E3 & E4 & E5 & E6).
  assert (Hreads : token_reads pl ar t w) by (repeat split; by apply Hfield).
  split; [|done]. destruct Hreads as (R1 & R2 & R3 & R4 & R5 & R6).
  repeat split; by eapply read_cstr_points_into.
Qed.

Lemma Forall2_and_Forall_l {A B} (P : A → B → Prop) (Q : A → Prop) l k :
  Forall2 P l k → Forall Q l → Forall2 (λ x y, P x y ∧ Q x) l k.
Proof.
  induction 1 as [|x y l k HP _ IH]; intros HQ; [constructor|].
  apply Forall_cons in HQ as [? ?]. constructor; [done|by apply IH].
Qed.

Lemma structured_strings_exact pl mdl opts text m d m' ss :
  never_fails (mem_oracle m) →
  structured pl mdl opts text m = Some ((1%Z, Some d), m') →
  doc_represents pl m' d ss → doc_reads pl m' d ss.
Proof.
  intros Hnf Hrun (lo & hi & Hdoc). apply structured_inv in Hrun.
  destruct Hrun as [(_ & ? & _)|(reader & svs & error & ok & m2 & Htok & Hloop & Hend)];
    [done|].
  destruct Hend as [(_ & _ & ? & _)|[(_ & _ & ? & _)|(-> & (m3 & Hmal & Hcpy) & _ & [= ->])]];
    [done..|].
  apply sentence_loop_in_arena in Hloop; [|exact Hnf|constructor].
  apply malloc_spec in Hmal as (_ & _ & N3 & B3).
  apply memcpy_cells_spec in Hcpy as (_ & N4 & B4).
  destruct Hdoc as (pa & ar & sa & svs' & Hpa & _ & Har & _ & [= <-] & _
                    & Hb & _ & Hall & _).
  assert (svs' = svs) as ->.
  { rewrite B4, lookup_insert_eq in Hb. congruence. }
  exists pa, ar, (mem_next m2), svs. do 4 (split; [done|]).
  eapply Forall2_impl; [exact (Forall2_and_Forall_l _ _ _ _ Hall Hloop)|].
  intros sv s [(a & toks & Ha & _ & Hba & _ & Htoks) (a' & toks' & Ha' & Hlt & Hba' & Hin)].
  assert (a' = a) as -> by congruence.
  rewrite B4, B3, !lookup_insert_ne in Hba by lia.
  assert (toks' = toks) as -> by congruence.
  exists a, toks. split; [done|]. split; [by rewrite B4, B3, !lookup_insert_ne by lia|].
  eapply Forall2_impl; [exact (Forall2_and_Forall_l _ _ _ _ Htoks Hin)|].
  intros t w [Htw Hna]. split; [done|]. by apply token_of_reads.
Qed.

(** X29.  With no failing [malloc] every string is the engine's: when
    [udpipe_tag_structured] or [udpipe_tokenize_structured] returns 1
    and no [malloc] failed, every string field of every token of the
    document points into a block of the arena of the document (none is
    the static [empty_str]) and reads as the field of the word it was
    copied from, up to its first NUL (for a tokenize-only document, the
    form; the other fields read as the empty string). *)
Theorem structured_strings_are_exact
    (mdl : model) (text : string) (d0 d : udpipe_doc_view) (m m' : mem)
    (ss : list sentence) :
  never_fails (mem_oracle m) →
  (∀ do_parse,
     udpipe_tag_structured (Some mdl) (Some text) do_parse (Some d0) m
     = Some ((1%Z, Some d), m') →
     doc_represents (tagging do_parse) m' d ss →
     doc_reads (tagging do_parse) m' d ss)
  ∧ (∀ tokenizer_options,
       udpipe_tokenize_structured (Some mdl) (Some text) tokenizer_options (Some d0) m
       = Some ((1%Z, Some d), m') →
       doc_represents tokenizing m' d ss →
       doc_reads tokenizing m' d ss).
Proof.
  intros Hnf. split.
  - intros do_parse Hrun. rewrite tag_structured_unfold in Hrun.
    by eapply structured_strings_exact.
  - intros opts Hrun. rewrite tokenize_structured_unfold in Hrun.
    by eapply structured_strings_exact.
Qed.

(** X29 on a run. *)
Lemma structured_strings_are_exact_witness :
  ∃ d m' ss,
    udpipe_tag_structured (Some sample_model) (Some "Dogs run."%string) 1
      (Some zero_doc) (empty_mem []) = Some ((1%Z, Some d), m')
    ∧ doc_represents (tagging 1) m' d ss
    ∧ doc_reads (tagging 1) m' d ss.
Proof.
  assert (Hrun : ∃ out m',
    structured (tagging 1) sample_model EmptyString "Dogs run." (empty_mem [])
    = Some ((1%Z, out), m')).
  { eexists _, _. vm_compute. reflexivity. }
  destruct Hrun as (out & m' & Hrun).
  destruct (structured_spec _ _ _ _ _ _ _ _ Hrun)
    as (_ & _ & _ & _ & [[Hr _]|(_ & _ & d & seen & _ & _ & _ & -> & Hdoc & _)]).
  { discriminate Hr. }
  assert (Hrep : doc_represents (tagging 1) m' d
                   (engine_sentence (tagging 1) sample_model <$> seen)).
  { eexists _, _. exact Hdoc. }
  exists d, m', (engine_sentence (tagging 1) sample_model <$> seen).
  split; [exact Hrun|]. split; [exact Hrep|].
  exact (proj1 (structured_strings_are_exact sample_model "Dogs run." zero_doc d
                  (empty_mem []) m' _ (Forall_nil_2 _)) 1%Z Hrun Hrep).
Defined.

(** ** A malloc failure inside the arena is not reported *)

Lemma arena_allocate_oracle pa s m p m' :
  arena_allocate pa s m = Some (p, m') → suffix (mem_oracle m') (mem_oracle m).
Proof.
  unfold arena_allocate. intros H.
  destruct (mem_arenas m !! pa) as [ar|]; [|done]. simpl in H.
  destruct (allocate s ar (mem_oracle m)) as [[[p' a'] o']|] eqn:Hal; [|done].
  injection H as _ <-. simpl. by eapply allocate_oracle.
Qed.

(** The first call on an arena without a block, when [malloc] refuses. *)
Lemma arena_allocate_fails_first pa s m ar o p m' :
  mem_arenas m !! pa = Some ar → current_block_ ar = None →
  mem_oracle m = false :: o →
  arena_allocate pa s m = Some (p, m') →
  p = empty_str ∧ mem_oracle m' = o.
Proof.
  intros Har Hcur Ho. unfold arena_allocate. rewrite Har, Ho. simpl.
  rewrite (allocate_fallback s ar (false :: o) o); [|by unfold needs_new_block; rewrite Hcur|done].
  by intros [= <- <-].
Qed.

Lemma materialize_word_fails_first pl pa w m ar o :
  mem_arenas m !! pa = Some ar → arena_wf ar → current_block_ ar = None →
  mem_oracle m = false :: o → never_fails o →
  ∃ t m',
    materialize_word pl pa w m = Some (t, m')
    ∧ tok_form t = empty_str ∧ tok_id t = word_id w
    ∧ never_fails (mem_oracle m').
Proof.
  intros Har Hwf Hcur Ho Hnf.
  destruct (materialize_word_total pl pa w m ar Har Hwf) as (t & m' & Hw & _).
  exists t, m'. split; [done|].
  unfold materialize_word in Hw.
  destruct (match word_token_range w with Some (s, e) => (s, e) | None => (0, 0) end)
    as [start end_].
  assert (H6 : ∃ p1 p2 p3 p4 p5 p6 m1 m2 m3 m4 m5 s2 s3 s4 s5 s6,
    arena_allocate pa (word_form w) m = Some (p1, m1)
    ∧ arena_allocate pa s2 m1 = Some (p2, m2)
    ∧ arena_allocate pa s3 m2 = Some (p3, m3)
    ∧ arena_allocate pa s4 m3 = Some (p4, m4)
    ∧ arena_allocate pa s5 m4 = Some (p5, m5)
    ∧ arena_allocate pa s6 m5 = Some (p6, m')
    ∧ tok_form t = p1 ∧ tok_id t = word_id w).
  { destruct pl;
      apply bind_Some in Hw as (p1 & m1 & H1 & Hw);
      apply bind_Some in Hw as (p2 & m2 & H2 & Hw);
      apply bind_Some in Hw as (p3 & m3 & H3 & Hw);
      apply bind_Some in Hw as (p4 & m4 & H4 & Hw);
      apply bind_Some in Hw as (p5 & m5 & H5 & Hw);
      apply bind_Some in Hw as (p6 & m6 & H6 & Hw);
      apply ret_Some in Hw as [<- <-];
      do 16 eexists; repeat (split; [eassumption|]); done. }
  destruct H6 as (p1 & p2 & p3 & p4 & p5 & p6 & m1 & m2 & m3 & m4 & m5
                  & s2 & s3 & s4 & s5 & s6 & H1 & H2 & H3 & H4 & H5 & H6 & Hform & Hid).
  destruct (arena_allocate_fails_first _ _ _ _ _ _ _ Har Hcur Ho H1) as [-> Ho1].
  split; [done|]. split; [done|].
  eapply never_fails_suffix; [|exact Hnf]. rewrite <- Ho1.
  etrans; [by eapply arena_allocate_oracle|].
  etrans; [by eapply arena_allocate_oracle|].
  etrans; [by eapply arena_allocate_oracle|].
  etrans; [by eapply arena_allocate_oracle|].
  by eapply arena_allocate_oracle.
Qed.

Lemma materialize_fails_first pl pa ws toks0 m ar o w ws' :
  mem_arenas m !! pa = Some ar → arena_wf ar → current_block_ ar = None →
  mem_oracle m = false :: o → never_fails o →
  filter (λ w, (0 < word_id w)%Z) ws = w :: ws' →
  ∃ t toks m',
    materialize pl pa ws toks0 m = Some (toks0 ++ t :: toks, m')
    ∧ tok_form t = empty_str ∧ tok_id t = word_id w
    ∧ never_fails (mem_oracle m')
    ∧ ∃ ar', mem_arenas m' !! pa = Some ar' ∧ arena_wf ar'.
Proof.
  intros Har Hwf Hcur Ho Hnf. revert toks0.
  induction ws as [|w0 ws IH]; intros toks0 Hfilter; [done|].
  rewrite filter_cons in Hfilter. simpl.
  destruct (decide (0 < word_id w0)%Z) as [Hpos|Hneg].
  - injection Hfilter as -> Hrest.
    destruct (Z.leb_spec (word_id w) 0); [lia|].
    destruct (materialize_word_fails_first pl pa w m ar o Har Hwf Hcur Ho Hnf)
      as (t & m1 & Hw & Hform & Hid & Hnf1).
    destruct (materialize_word_spec _ _ _ _ _ _ _ Hw Har Hwf) as (ar1 & Har1 & Hwf1 & _).
    destruct (materialize_total pl pa ws (toks0 ++ [t]) m1 ar1 Har1 Hwf1)
      as (toks & m2 & Hm & Hs2).
    destruct (materialize_spec _ _ _ _ _ _ _ _ Hm Har1 Hwf1)
      as (ar2 & new & Har2 & Hwf2 & _ & _ & -> & _).
    exists t, new, m2. split.
    { unfold mbind, M_bind. rewrite Hw, Hm. by rewrite <- app_assoc. }
    do 2 (split; [done|]). split; [by eapply never_fails_suffix|]. eauto.
  - destruct (Z.leb_spec (word_id w0) 0); [|lia]. by apply IH.
Qed.

Lemma structured_arena_failure pl mdl opts text reader m o s e rest w ws :
  mem_oracle m = false :: o → never_fails o →
  new_tokenizer mdl opts = Some reader →
  yields (reader text) = (s, e) :: rest →
  Forall (accepted pl mdl) (yields (reader text)) →
  final_error (reader text) = EmptyString →
  output_words (engine_sentence pl mdl s) = w :: ws →
  ∃ d m' sa sv svs a t ts,
    structured pl mdl opts text m = Some ((1%Z, Some d), m')
    ∧ doc_sentences d = sentences_at sa
    ∧ mem_blocks m' !! sa = Some (sentence_array (sv :: svs))
    ∧ sv_tokens sv = Some a
    ∧ mem_blocks m' !! a = Some (token_array (t :: ts))
    ∧ tok_id t = word_id w
    ∧ tok_form t = empty_str.
Proof.
  intros Ho Hnf Htok Hy Hall Hfinal Hwords. rewrite Hy in Hall.
  apply Forall_cons in Hall as [[He Hok] Hall]. simpl in He, Hok. subst e.
  destruct (new_arena m) as [[pa m1]|] eqn:Hnew; [|done].
  pose proof (new_arena_spec _ _ _ Hnew) as (Hpa & _ & Har & _).
  assert (Ho1 : mem_oracle m1 = false :: o) by (by injection Hnew as _ <-).
  unfold engine_sentence, output_words in Hwords.
  destruct (run_engine pl mdl s) as [[ok1 s1] e1] eqn:Heng. simpl in Hok, Hwords.
  subst ok1.
  destruct (materialize_fails_first pl pa (words s1) [] m1 _ o w ws Har
              (new_StringArena_wf _) eq_refl Ho1 Hnf Hwords)
    as (t & ts & m2 & Hmat & Hform & Hid & Hnf2 & ar2 & Har2 & Hwf2).
  simpl in Hmat.
  destruct (malloc_total (length (t :: ts)) m2) as (p & m3 & Hmal & Hs3 & Hp).
  rewrite Hp in Hmal by done.
  destruct (memcpy_after_malloc (token_array (t :: ts)) m2 _ m3 Hmal)
    as (m4 & Hcpy & Ho4).
  pose proof (malloc_spec _ _ _ _ Hmal) as (A3 & _ & N3 & B3).
  pose proof (memcpy_cells_spec _ _ _ _ _ Hcpy) as (A4 & N4 & B4).
  assert (Hnf4 : never_fails (mem_oracle m4)).
  { rewrite Ho4. by eapply never_fails_suffix. }
  set (sv := mkSentenceView (Some (mem_next m2)) (length (t :: ts))).
  destruct (sentence_loop_total pl mdl pa rest (final_error (reader text)) [sv] m4 ar2)
    as (svs' & error & ok & m5 & Hloop & Hs5 & Hok5); [congruence|done|].
  specialize (Hok5 Hnf4 Hall). subst ok.
  pose proof (sentence_loop_trace _ _ _ _ _ _ _ _ _ _ _ Hloop)
    as (_ & _ & new & _ & _ & -> & _ & [(_ & _ & ->)|[? _]]); [|done].
  pose proof (sentence_loop_exact _ _ _ _ _ _ _ _ _ _ _ Hloop)
    as (N5 & _ & new' & Hnew' & Htoks' & B5).
  apply app_inv_head in Hnew' as <-.
  destruct (malloc_total (length ([sv] ++ new)) m5) as (p6 & m6 & Hmal6 & _ & Hp6).
  rewrite Hp6 in Hmal6 by (by eapply never_fails_suffix).
  destruct (memcpy_after_malloc (sentence_array ([sv] ++ new)) m5 _ m6 Hmal6)
    as (m7 & Hcpy7 & _).
  pose proof (malloc_spec _ _ _ _ Hmal6) as (_ & _ & N6 & B6).
  pose proof (memcpy_cells_spec _ _ _ _ _ Hcpy7) as (_ & N7 & B7).
  exists (mkDoc (sentences_at (mem_next m5)) (length ([sv] ++ new)) (Some pa)), m7,
    (mem_next m5), sv, new, (mem_next m2), t, ts.
  split.
  { unfold structured. unfold mbind at 1, M_bind at 1. rewrite Hnew, Htok.
    unfold mbind at 1, M_bind at 1. rewrite Hy. simpl sentence_loop.
    rewrite Heng. change (negb true) with false. cbv beta iota zeta.
    unfold mbind at 1, M_bind at 1. rewrite Hmat.
    unfold mbind at 1, M_bind at 1. rewrite Hmal.
    unfold mbind at 1, M_bind at 1. rewrite Hcpy.
    fold sv. rewrite Hloop, Hfinal. rewrite decide_True by done.
    unfold mbind at 1, M_bind at 1. rewrite Hmal6.
    unfold mbind at 1, M_bind at 1. by rewrite Hcpy7. }
  split; [done|]. split; [by rewrite B7, lookup_insert_eq|]. split; [done|].
  split; [|done].
  rewrite B7, B6, !lookup_insert_ne by lia. rewrite B5.
  - by rewrite B4, lookup_insert_eq.
  - intros Hin. apply list_elem_of_omap in Hin as (sv' & Hsv' & Ha).
    rewrite Forall_forall in Htoks'. destruct (Htoks' sv' Hsv') as (a' & Ha' & Hr).
    assert (a' = mem_next m2) as -> by congruence. lia.
Qed.

(** X30.  A [malloc] failure inside the arena is not reported: when the
    first [malloc] of a call, the one for the first block of the arena,
    fails and every later one succeeds, [udpipe_tag_structured] on a
    text that the engine reads to the end still returns 1, and the form
    of the first token of the document is the static empty string,
    whatever form the engine gave the word. *)
Theorem arena_malloc_failure_is_silent
    (mdl : model) (reader : string → reader_run) (text : string) (do_parse : Z)
    (d0 : udpipe_doc_view) (m : mem) (o : oracle)
    (s : sentence) (e : string) (rest : list (sentence * string))
    (w : word) (ws : list word) :
  mem_oracle m = false :: o → never_fails o →
  new_tokenizer mdl EmptyString = Some reader →
  yields (reader text) = (s, e) :: rest →
  Forall (accepted (tagging do_parse) mdl) (yields (reader text)) →
  final_error (reader text) = EmptyString →
  output_words (engine_sentence (tagging do_parse) mdl s) = w :: ws →
  ∃ d m' sa sv svs a t ts,
    udpipe_tag_structured (Some mdl) (Some text) do_parse (Some d0) m
    = Some ((1%Z, Some d), m')
    ∧ doc_sentences d = sentences_at sa
    ∧ mem_blocks m' !! sa = Some (sentence_array (sv :: svs))
    ∧ sv_tokens sv = Some a
    ∧ mem_blocks m' !! a = Some (token_array (t :: ts))
    ∧ tok_id t = word_id w
    ∧ tok_form t = empty_str.
Proof.
  intros Ho Hnf Htok Hy Hall Hfinal Hwords. rewrite tag_structured_unfold.
  by eapply structured_arena_failure.
Qed.

(** X30 on a run: the form "Dogs" is lost. *)
Lemma arena_malloc_failure_is_silent_witness :
  ∃ d m' sa sv svs a t ts,
    udpipe_tag_structured (Some sample_model) (Some "Dogs run."%string) 0
      (Some zero_doc) (empty_mem [false])
    = Some ((1%Z, Some d), m')
    ∧ doc_sentences d = sentences_at sa
    ∧ mem_blocks m' !! sa = Some (sentence_array (sv :: svs))
    ∧ sv_tokens sv = Some a
    ∧ mem_blocks m' !! a = Some (token_array (t :: ts))
    ∧ tok_id t = 1%Z
    ∧ tok_form t = empty_str.
Proof.
  eapply (arena_malloc_failure_is_silent sample_model sample_tokenizer "Dogs run." 0
            zero_doc (empty_mem [false]) [] dogs_run EmptyString []
            (sample_tag_word (plain_word 1 "Dogs" (Some (0, 4))))).
  - reflexivity.
  - constructor.
  - reflexivity.
  - reflexivity.
  - repeat constructor.
  - reflexivity.
  - vm_compute. reflexivity.
Defined.
